(** * OpenClaude adapter: a shallow embedding of the translation core

    The development follows the TypeScript sources of the adapter:
    the request converter, the stream reconstructor of the response
    converter, the model router, the in-memory TTL store, the bracket scan
    of the web-search handler, the batch routes, the model table and the
    messages route.

    Conventions.
    - A JavaScript string is a [string]; each character stands for one code
      unit in the range 0..255.
    - Integral JavaScript numbers (token counts, indices, milliseconds) are
      [Z] or [nat]; pass-through fractions (temperature, top_p) are [Q].
    - [undefined] / an absent property is [None].
    - A function that can throw answers [None] or an error value; a
      generator comes with the events it yields and with how it ends.
    - Logging ([writeLog], [console.error]) has no effect on any value and
      is left out; the pacing delays of the generators are awaits without
      effect on the emitted events. *)

From Stdlib Require Import ZArith QArith.QArith_base String Ascii List Lia Bool.
From stdpp Require Import base option list gmap strings pretty.
Import ListNotations.

Set Default Proof Using "Type".
Local Open Scope string_scope.
Local Open Scope Z_scope.

(** ** JavaScript values used by the adapter *)

Module Js.

(** Truthiness of a string: every string but the empty one. *)
Definition truthy (s : string) : bool :=
  match s with EmptyString => false | String _ _ => true end.

(** Truthiness of an optional string property. *)
Definition truthy_opt (o : option string) : bool :=
  match o with Some s => truthy s | None => false end.

(** [a || b] on strings. *)
Definition or_else (a : option string) (b : string) : string :=
  match a with
  | Some s => if truthy s then s else b
  | None => b
  end.

(** Truthiness of a number. *)
Definition truthy_num (z : Z) : bool := negb (z =? 0).

(** [a || b] on optional numbers. *)
Definition num_or_else (a : option Z) (b : Z) : Z :=
  match a with
  | Some z => if truthy_num z then z else b
  | None => b
  end.

(** [Array.prototype.join]. *)
Fixpoint join (sep : string) (l : list string) : string :=
  match l with
  | [] => ""
  | [x] => x
  | x :: rest => x ++ sep ++ join sep rest
  end.

Definition chars (s : string) : list ascii := list_ascii_of_string s.
Definition of_chars (l : list ascii) : string := string_of_list_ascii l.

(** The double quote, and a way to write it inside literals: [dq] reads
    every apostrophe of its argument as a double quote. *)
Definition dquote : ascii := ascii_of_nat 34.

Definition dq (s : string) : string :=
  of_chars (map (fun c => if Ascii.eqb c (ascii_of_nat 39) then dquote else c)
                (chars s)).

(** White space and line terminators among the code units 0..255. *)
Definition is_space (c : ascii) : bool :=
  let n := nat_of_ascii c in
  ((9 <=? n) && (n <=? 13) || (n =? 32) || (n =? 160))%nat.

Fixpoint drop_space (l : list ascii) : list ascii :=
  match l with
  | c :: rest => if is_space c then drop_space rest else l
  | [] => []
  end.

(** [String.prototype.trim]. *)
Definition trim_chars (l : list ascii) : list ascii :=
  rev (drop_space (rev (drop_space l))).

Definition trim (s : string) : string := of_chars (trim_chars (chars s)).

(** [s.slice(i, i + n)] for [0 <= i]. *)
Definition slice_chars (i n : nat) (l : list ascii) : list ascii :=
  take n (drop i l).

(** [s.substring(a, b)] for [0 <= a <= b]. *)
Definition substring (a b : nat) (s : string) : string :=
  of_chars (slice_chars a (b - a) (chars s)).

Fixpoint prefix_chars (p l : list ascii) : bool :=
  match p, l with
  | [], _ => true
  | a :: p', b :: l' => Ascii.eqb a b && prefix_chars p' l'
  | _ :: _, [] => false
  end.

Fixpoint includes_chars (p l : list ascii) : bool :=
  prefix_chars p l ||
  match l with
  | [] => false
  | _ :: l' => includes_chars p l'
  end.

(** [String.prototype.includes]. *)
Definition includes (s p : string) : bool :=
  includes_chars (chars p) (chars s).

(** The pieces [s.slice(i, i + n)] for [i = 0, n, 2n, ...] while
    [i < s.length], as the generators' [for] loops cut them. *)
Fixpoint slices_fuel (fuel n : nat) (l : list ascii) : list string :=
  match fuel with
  | O => []
  | S fuel' =>
      match l with
      | [] => []
      | _ :: _ => of_chars (take n l) :: slices_fuel fuel' n (drop n l)
      end
  end.

Definition slices (n : nat) (s : string) : list string :=
  slices_fuel (String.length s) n (chars s).

End Js.

(** ** JSON values *)

#[local] Set Warnings "-register-all".

Inductive json : Type :=
| JNull
| JBool (b : bool)
| JNumber (z : Z)
| JString (s : string)
| JArray (items : list json)
| JObject (members : list (string * json)).

(** Truthiness of a parsed value. *)
Definition json_truthy (j : json) : bool :=
  match j with
  | JNull => false
  | JBool b => b
  | JNumber z => Js.truthy_num z
  | JString s => Js.truthy s
  | JArray _ | JObject _ => true
  end.

(** The services of the runtime that the adapter calls: [JSON.parse]
    ([None] when it throws), [JSON.stringify], and the string drawn by the
    [n]-th evaluation of [Math.random().toString(36).substring(2, 15)]. *)
Class Runtime := {
  JSON_parse : string -> option json;
  JSON_stringify : json -> string;
  random_suffix : nat -> string;
}.

(** ** The request converter (request-converter.ts) *)

Module RequestConverter.

Inductive Role := user | assistant.

(** The [source] of an image or document block, by its [type]. *)
Inductive Source :=
| Base64Source (media_type data : string)
| UrlSource (url : string)
| OtherSource.

(** The [content] of a tool_result block: a string, an array of blocks
    (kept as the JSON value it is serialized from), or absent. *)
Inductive ToolResultContent :=
| TRString (s : string)
| TRBlocks (j : json)
| TRAbsent.

Inductive ContentBlockParam :=
| TextBlock (text : string)
| ImageBlock (source : option Source)
| DocumentBlock (source : option Source)
| ThinkingBlock (thinking : string)
| ToolUseBlock (id name : string) (input : json)
| ToolResultBlock (tool_use_id : string) (content : ToolResultContent)
| OtherBlock (type : string).

Inductive MessageContent :=
| StringContent (s : string)
| BlockContent (blocks : list ContentBlockParam).

Record MessageParam := {
  role : Role;
  content : MessageContent;
}.

Record TextBlockParam := { sys_type : string; sys_text : string }.

(** [system?: string | Array<TextBlockParam>]. *)
Inductive SystemPrompt :=
| SysString (s : string)
| SysBlocks (blocks : list TextBlockParam).

(** A member of [tools]: [type] and [description] may be absent, and
    [input_schema] is present or not as a property. *)
Record ToolUnion := {
  tool_type : option string;
  tool_name : string;
  tool_description : option string;
  tool_input_schema : option json;
}.

Record MessageCreateRequest := {
  model : string;
  messages : list MessageParam;
  system : option SystemPrompt;
  max_tokens : Z;
  temperature : option Q;
  top_p : option Q;
  stop_sequences : option (list string);
  tools : option (list ToolUnion);
  stream : option bool;
  thinking : bool;
}.

Record ModelConfig := {
  claudeModelName : string;
  openaiModelName : string;
  maxTokens : Z;
  description : option string;
}.

(** *** The backend's types (types/openai.ts) *)

Inductive OpenAIRole := oa_system | oa_user | oa_assistant | oa_tool.

Inductive OpenAIMessageContentPart :=
| PartText (text : string)
| PartImageUrl (url detail : string).

Inductive OpenAIContent :=
| OAString (s : string)
| OAParts (parts : list OpenAIMessageContentPart)
| OASystemBlocks (blocks : list TextBlockParam)
| OAUndefined.

Record OpenAIToolCall := {
  tc_id : string;
  tc_name : string;
  tc_arguments : string;
}.

Record OpenAIMessage := {
  oa_role : OpenAIRole;
  oa_content : OpenAIContent;
  oa_tool_calls : option (list OpenAIToolCall);
  oa_tool_call_id : option string;
}.

Record OpenAITool := {
  fn_name : string;
  fn_description : string;
  fn_parameters : json;
}.

Inductive ToolChoice := choice_auto.

Record OpenAIChatCompletionRequest := {
  rq_model : string;
  rq_messages : list OpenAIMessage;
  rq_max_tokens : Z;
  rq_stream : bool;
  rq_temperature : option Q;
  rq_top_p : option Q;
  rq_stop : option (list string);
  rq_tools : option (list OpenAITool);
  rq_tool_choice : option ToolChoice;
}.

Definition absoluteMaxTokens : Z := 8192.

Section Convert.
Context `{Runtime}.

Definition is_tool_use (b : ContentBlockParam) : bool :=
  match b with ToolUseBlock _ _ _ => true | _ => false end.

Definition is_tool_result (b : ContentBlockParam) : bool :=
  match b with ToolResultBlock _ _ => true | _ => false end.

Definition is_text (b : ContentBlockParam) : bool :=
  match b with TextBlock _ => true | _ => false end.

Definition block_text (b : ContentBlockParam) : option string :=
  match b with TextBlock t => Some t | _ => None end.

Definition tool_call_of (b : ContentBlockParam) : option OpenAIToolCall :=
  match b with
  | ToolUseBlock id name input =>
      Some {| tc_id := id; tc_name := name;
              tc_arguments := JSON_stringify input |}
  | _ => None
  end.

Definition plain_role (r : Role) : OpenAIRole :=
  match r with user => oa_user | assistant => oa_assistant end.

(** [typeof c === 'string' ? c : JSON.stringify(c)]. *)
Definition tool_result_text (c : ToolResultContent) : OpenAIContent :=
  match c with
  | TRString s => OAString s
  | TRBlocks j => OAString (JSON_stringify j)
  | TRAbsent => OAUndefined
  end.

Definition convertBlock (b : ContentBlockParam)
  : list OpenAIMessageContentPart :=
  match b with
  | TextBlock t => [PartText t]
  | ImageBlock src =>
      let imageUrl :=
        match src with
        | Some (Base64Source media_type data) =>
            "data:" ++ media_type ++ ";base64," ++ data
        | Some (UrlSource url) => url
        | Some OtherSource => ""
        | None => ""
        end in
      if Js.truthy imageUrl then [PartImageUrl imageUrl "auto"] else []
  | DocumentBlock src =>
      match src with
      | Some (Base64Source media_type _) =>
          [PartText ("[Document: " ++ media_type ++ "]")]
      | Some _ => [PartText "[Document content]"]
      | None => []
      end
  | ThinkingBlock t => [PartText ("[Thinking: " ++ t ++ "]")]
  | ToolUseBlock _ _ _ | ToolResultBlock _ _ | OtherBlock _ => []
  end.

Definition convertContent (c : MessageContent) : OpenAIContent :=
  match c with
  | StringContent s => OAString s
  | BlockContent blocks => OAParts (concat (map convertBlock blocks))
  end.

Definition convertMessage (claudeMessage : MessageParam) : OpenAIMessage :=
  match content claudeMessage with
  | StringContent s =>
      {| oa_role := plain_role (role claudeMessage);
         oa_content := OAString s;
         oa_tool_calls := None; oa_tool_call_id := None |}
  | BlockContent blocks =>
      let toolUseBlocks := List.filter is_tool_use blocks in
      let toolResultBlocks := List.filter is_tool_result blocks in
      if (0 <? length toolUseBlocks)%nat then
        let textBlocks := List.filter is_text blocks in
        let text :=
          if (0 <? length textBlocks)%nat
          then Js.join (String "010" "") (omap block_text textBlocks)
          else "" in
        {| oa_role := oa_assistant;
           oa_content := OAString text;
           oa_tool_calls := Some (omap tool_call_of toolUseBlocks);
           oa_tool_call_id := None |}
      else
        match toolResultBlocks with
        | ToolResultBlock tool_use_id c :: _ =>
            {| oa_role := oa_tool;
               oa_content := tool_result_text c;
               oa_tool_calls := None;
               oa_tool_call_id := Some tool_use_id |}
        | _ =>
            {| oa_role := plain_role (role claudeMessage);
               oa_content := convertContent (BlockContent blocks);
               oa_tool_calls := None; oa_tool_call_id := None |}
        end
  end.

Definition default_parameters : json :=
  JObject [("type", JString "object"); ("properties", JObject [])].

Definition convertTool (claudeTool : ToolUnion) : OpenAITool :=
  {| fn_name := tool_name claudeTool;
     fn_description := Js.or_else (tool_description claudeTool) "";
     fn_parameters :=
       match tool_input_schema claudeTool with
       | Some j => if json_truthy j then j else default_parameters
       | None => default_parameters
       end |}.

Definition has_input_schema (t : ToolUnion) : bool :=
  match tool_input_schema t with Some _ => true | None => false end.

Definition system_truthy (s : option SystemPrompt) : bool :=
  match s with
  | Some (SysString t) => Js.truthy t
  | Some (SysBlocks _) => true
  | None => false
  end.

Definition system_message (s : option SystemPrompt) : list OpenAIMessage :=
  match s with
  | Some (SysString t) =>
      if Js.truthy t
      then [{| oa_role := oa_system; oa_content := OAString t;
               oa_tool_calls := None; oa_tool_call_id := None |}]
      else []
  | Some (SysBlocks bs) =>
      [{| oa_role := oa_system; oa_content := OASystemBlocks bs;
          oa_tool_calls := None; oa_tool_call_id := None |}]
  | None => []
  end.

Definition convertClaudeToOpenAI
    (claudeRequest : MessageCreateRequest) (modelConfig : ModelConfig)
  : OpenAIChatCompletionRequest :=
  let openAIMessages :=
    (system_message (system claudeRequest)
     ++ map convertMessage (messages claudeRequest))%list in
  let finalMaxTokens :=
    Z.min (Z.min (max_tokens claudeRequest) (maxTokens modelConfig))
          absoluteMaxTokens in
  let validTools :=
    match tools claudeRequest with
    | Some ts =>
        if (0 <? length ts)%nat
        then map convertTool (List.filter has_input_schema ts)
        else []
    | None => []
    end in
  let has_tools := (0 <? length validTools)%nat in
  {| rq_model := openaiModelName modelConfig;
     rq_messages := openAIMessages;
     rq_max_tokens := finalMaxTokens;
     rq_stream := default false (stream claudeRequest);
     rq_temperature := temperature claudeRequest;
     rq_top_p := top_p claudeRequest;
     rq_stop :=
       match stop_sequences claudeRequest with
       | Some l => if (0 <? length l)%nat then Some l else None
       | None => None
       end;
     rq_tools := if has_tools then Some validTools else None;
     rq_tool_choice := if has_tools then Some choice_auto else None |}.

End Convert.

End RequestConverter.

(** ** The stream reconstructor (response-converter.ts) *)

Module ResponseConverter.

(** *** Backend chunks *)

Record Usage := {
  prompt_tokens : option Z;
  completion_tokens : option Z;
}.

Record FunctionDelta := {
  fd_name : option string;
  fd_arguments : option string;
}.

Record ToolCallDelta := {
  tcd_index : option nat;
  tcd_id : option string;
  tcd_function : option FunctionDelta;
}.

Record Delta := {
  d_content : option string;
  d_tool_calls : option (list ToolCallDelta);
}.

Record StreamChoice := {
  delta : option Delta;
  finish_reason : option string;
}.

Record Chunk := {
  choices : list StreamChoice;
  usage : option Usage;
}.

(** *** Emitted events; each is yielded as
    [event: <name>\ndata: <JSON of the payload>\n\n]. *)

Inductive ContentBlock :=
| CBText (text : string)
| CBToolUse (id name : string) (input : json).

Inductive BlockDelta :=
| TextDelta (text : string)
| InputJsonDelta (partial_json : string).

Inductive StreamEvent :=
| MessageStart (id model : string)
| ContentBlockStart (index : nat) (content_block : ContentBlock)
| ContentBlockDelta (index : nat) (d : BlockDelta)
| ContentBlockStop (index : nat)
| MessageDelta (stop_reason : string) (output_tokens input_tokens : Z)
| MessageStop.

(** *** The generator's local state *)

Record ToolCallBuf := {
  b_id : string;
  b_name : string;
  b_arguments : string;
}.

(** [toolCallsBuffer]: an object keyed by [tool_<index>]; the key is kept
    as its index. Such keys are enumerated in insertion order, so the
    object is an association list that grows at its end. *)
Definition Buffer := list (nat * ToolCallBuf).

Fixpoint buf_lookup (k : nat) (buf : Buffer) : option ToolCallBuf :=
  match buf with
  | [] => None
  | (k', e) :: rest => if (k =? k')%nat then Some e else buf_lookup k rest
  end.

Fixpoint buf_alter (f : ToolCallBuf -> ToolCallBuf) (k : nat) (buf : Buffer)
  : Buffer :=
  match buf with
  | [] => []
  | (k', e) :: rest =>
      if (k =? k')%nat then (k', f e) :: rest
      else (k', e) :: buf_alter f k rest
  end.

Record State := {
  hasStarted : bool;
  totalInputTokens : Z;
  totalOutputTokens : Z;
  activeContentBlocks : list nat;
  toolCallsBuffer : Buffer;
  hasFinished : bool;
  draws : nat;
}.

(** [generateId] has drawn twice before the loop starts. *)
Definition initial : State :=
  {| hasStarted := false; totalInputTokens := 0; totalOutputTokens := 0;
     activeContentBlocks := []; toolCallsBuffer := [];
     hasFinished := false; draws := 2 |}.

(** What indexing the table of explanatory sentences by a tool name
    answers. The table is an object literal, so besides its five own
    entries it answers for the members that every object inherits from
    Object.prototype: a function, of which the generator reads the
    [length] (the number of its declared parameters), or, for __proto__,
    the prototype object, which has no [length]. *)
Inductive TableEntry :=
| Sentence (text : string)
| InheritedFunction (length : nat)
| InheritedObject.

(** [explanatoryTexts[name]]; [None] is [undefined]. *)
Definition explanatoryTexts (name : string) : option TableEntry :=
  if String.eqb name "get_weather"
  then Some (Sentence "I'll help you check the weather in that location.")
  else if String.eqb name "LS"
  then Some (Sentence "I'll list the files in that directory for you.")
  else if String.eqb name "Read" then Some (Sentence "I'll read that file for you.")
  else if String.eqb name "Write" then Some (Sentence "I'll write to that file.")
  else if String.eqb name "Bash"
  then Some (Sentence "I'll execute that command for you.")
  else if String.eqb name "constructor" then Some (InheritedFunction 1)
  else if String.eqb name "hasOwnProperty" then Some (InheritedFunction 1)
  else if String.eqb name "isPrototypeOf" then Some (InheritedFunction 1)
  else if String.eqb name "propertyIsEnumerable" then Some (InheritedFunction 1)
  else if String.eqb name "__lookupGetter__" then Some (InheritedFunction 1)
  else if String.eqb name "__lookupSetter__" then Some (InheritedFunction 1)
  else if String.eqb name "__defineGetter__" then Some (InheritedFunction 2)
  else if String.eqb name "__defineSetter__" then Some (InheritedFunction 2)
  else if String.eqb name "toString" then Some (InheritedFunction 0)
  else if String.eqb name "toLocaleString" then Some (InheritedFunction 0)
  else if String.eqb name "valueOf" then Some (InheritedFunction 0)
  else if String.eqb name "__proto__" then Some InheritedObject
  else None.

(** How a generator ends: by returning, or by an exception that leaves
    it. *)
Inductive Completion := Returned | Thrown.

Fixpoint take_until_quote (l : list ascii) : list ascii :=
  match l with
  | [] => []
  | c :: rest =>
      if Ascii.eqb c Js.dquote then [] else c :: take_until_quote rest
  end.

(** The fallback's pattern tried at the head of [l]: the quoted word
    location, white space, a colon, white space, a double quote, and then
    the group: the characters up to the next double quote. *)
Definition location_at (l : list ascii) : option (list ascii) :=
  if Js.prefix_chars (Js.chars (Js.dq "'location'")) l then
    match Js.drop_space (drop 10 l) with
    | c :: r1 =>
        if Ascii.eqb c ":" then
          match Js.drop_space r1 with
          | c' :: r2 =>
              if Ascii.eqb c' Js.dquote then Some (take_until_quote r2)
              else None
          | [] => None
          end
        else None
    | [] => None
    end
  else None.

(** [args.match(...)]: the leftmost match, its first group. *)
Fixpoint location_match (l : list ascii) : option (list ascii) :=
  match location_at l with
  | Some g => Some g
  | None =>
      match l with
      | [] => None
      | _ :: rest => location_match rest
      end
  end.

Section Stream.
Context `{Runtime}.

Definition key_of (tcd : ToolCallDelta) : nat := default 0%nat (tcd_index tcd).

Definition fn_name_of (tcd : ToolCallDelta) : option string :=
  tcd_function tcd ≫= fd_name.

Definition fn_arguments_of (tcd : ToolCallDelta) : option string :=
  tcd_function tcd ≫= fd_arguments.

(** One pass of the body of [for (const toolCallDelta of ...)]. *)
Definition accumulate (st : Buffer * nat) (tcd : ToolCallDelta)
  : Buffer * nat :=
  let '(buf, n) := st in
  let toolCallKey := key_of tcd in
  let '(buf1, n1) :=
    match buf_lookup toolCallKey buf with
    | Some _ => (buf, n)
    | None =>
        match tcd_id tcd with
        | Some i =>
            if Js.truthy i
            then ((buf ++ [(toolCallKey,
                     {| b_id := i; b_name := ""; b_arguments := "" |})])%list,
                  n)
            else ((buf ++ [(toolCallKey,
                     {| b_id := "call_" ++ random_suffix n;
                        b_name := ""; b_arguments := "" |})])%list,
                  S n)
        | None =>
            ((buf ++ [(toolCallKey,
                {| b_id := "call_" ++ random_suffix n;
                   b_name := ""; b_arguments := "" |})])%list,
             S n)
        end
    end in
  let buf2 :=
    match tcd_id tcd with
    | Some i =>
        if Js.truthy i then
          buf_alter (fun e =>
              if negb (Js.truthy (b_id e))
              then {| b_id := i; b_name := b_name e;
                      b_arguments := b_arguments e |}
              else e) toolCallKey buf1
        else buf1
    | None => buf1
    end in
  let buf3 :=
    match fn_name_of tcd with
    | Some nm =>
        if Js.truthy nm then
          buf_alter (fun e =>
              {| b_id := b_id e; b_name := nm;
                 b_arguments := b_arguments e |}) toolCallKey buf2
        else buf2
    | None => buf2
    end in
  let buf4 :=
    match fn_arguments_of tcd with
    | Some a =>
        if Js.truthy a then
          buf_alter (fun e =>
              {| b_id := b_id e; b_name := b_name e;
                 b_arguments := b_arguments e ++ a |}) toolCallKey buf3
        else buf3
    | None => buf3
    end in
  (buf4, n1).

Definition choice0 (chunk : Chunk) : option StreamChoice := head (choices chunk).

Definition text_of (chunk : Chunk) : option string :=
  match (choice0 chunk ≫= delta) ≫= d_content with
  | Some t => if Js.truthy t then Some t else None
  | None => None
  end.

Definition tool_deltas_of (chunk : Chunk) : list ToolCallDelta :=
  default [] ((choice0 chunk ≫= delta) ≫= d_tool_calls).

Definition finish_of (chunk : Chunk) : bool :=
  Js.truthy_opt (choice0 chunk ≫= finish_reason).

(** One pass of the body of [for (const chunk of allChunks)]: the new
    state and the events yielded, in order. *)
Definition process_chunk (messageId claudeModel : string)
    (st : State) (chunk : Chunk) : State * list StreamEvent :=
  let start_events :=
    if hasStarted st then [] else [MessageStart messageId claudeModel] in
  let '(active, text_events) :=
    match text_of chunk with
    | Some t =>
        if existsb (Nat.eqb 0) (activeContentBlocks st)
        then (activeContentBlocks st,
              [ContentBlockDelta 0 (TextDelta t)])
        else ((activeContentBlocks st ++ [0%nat])%list,
              [ContentBlockStart 0 (CBText "");
               ContentBlockDelta 0 (TextDelta t)])
    | None => (activeContentBlocks st, [])
    end in
  let '(buf, n) :=
    fold_left accumulate (tool_deltas_of chunk)
              (toolCallsBuffer st, draws st) in
  let '(tin, tout) :=
    match usage chunk with
    | Some u =>
        (Js.num_or_else (prompt_tokens u) (totalInputTokens st),
         Js.num_or_else (completion_tokens u) (totalOutputTokens st))
    | None => (totalInputTokens st, totalOutputTokens st)
    end in
  ({| hasStarted := true;
      totalInputTokens := tin; totalOutputTokens := tout;
      activeContentBlocks := active; toolCallsBuffer := buf;
      hasFinished := hasFinished st || finish_of chunk;
      draws := n |},
   (start_events ++ text_events)%list).

Fixpoint process_chunks (messageId claudeModel : string)
    (st : State) (chunks : list Chunk) : State * list StreamEvent :=
  match chunks with
  | [] => (st, [])
  | chunk :: rest =>
      let '(st1, evs1) := process_chunk messageId claudeModel st chunk in
      let '(st2, evs2) := process_chunks messageId claudeModel st1 rest in
      (st2, (evs1 ++ evs2)%list)
  end.

(** The [input] of a finished tool call: the parsed arguments, or the
    [location] recovered from unparsable ones. *)
Definition tool_input (arguments : string) : json :=
  match JSON_parse (if Js.truthy arguments then arguments else "{}") with
  | Some j => j
  | None =>
      match location_match (Js.chars arguments) with
      | Some (c :: g) =>
          let location := Js.of_chars (c :: g) in
          JObject [("location",
                    JString (if String.eqb location "San"
                             then "San Francisco, CA" else location))]
      | _ => JObject [("location", JString "San Francisco, CA")]
      end
  end.

Definition has_name (tc : ToolCallBuf) : bool := Js.truthy (b_name tc).

(** The events of one tool_use block at index [i]. *)
Definition tool_block (i : nat) (toolCall : ToolCallBuf) : list StreamEvent :=
  let inputJson := JSON_stringify (tool_input (b_arguments toolCall)) in
  (ContentBlockStart i (CBToolUse (b_id toolCall) (b_name toolCall) (JObject []))
   :: map (fun c => ContentBlockDelta i (InputJsonDelta c)) (Js.slices 3 inputJson)
   ++ [ContentBlockStop i])%list.

(** [for (const toolCall of completedToolCalls)]. *)
Fixpoint tool_blocks (nextBlockIndex : nat) (calls : list ToolCallBuf)
  : list StreamEvent :=
  match calls with
  | [] => []
  | toolCall :: rest =>
      if has_name toolCall
      then (tool_block nextBlockIndex toolCall
            ++ tool_blocks (S nextBlockIndex) rest)%list
      else tool_blocks nextBlockIndex rest
  end.

Definition firstToolName (calls : list ToolCallBuf) : string :=
  match find has_name calls with
  | Some tc => b_name tc
  | None => ""
  end.

(** [explanatoryTexts[firstToolName] || "I'll help you with that."]: a
    function and an object are truthy. *)
Definition explanatoryText (calls : list ToolCallBuf) : TableEntry :=
  match explanatoryTexts (firstToolName calls) with
  | Some (Sentence text) =>
      Sentence (Js.or_else (Some text) "I'll help you with that.")
  | Some entry => entry
  | None => Sentence "I'll help you with that."
  end.

(** Whether [explanatoryText.slice(i, i + 5)] is reached on a value that
    has no [slice]: the loop [for (i = 0; i < explanatoryText.length; ...)]
    runs its body on a function with a positive [length], and never on a
    function of length 0 or on an object without [length]. *)
Definition slice_fails (explanatoryText : TableEntry) : bool :=
  match explanatoryText with
  | InheritedFunction (S _) => true
  | _ => false
  end.

(** The explanatory text block at index [i]: the events it yields, and
    whether it is left by the TypeError of the missing [slice]. *)
Definition explanatory_block (i : nat) (calls : list ToolCallBuf)
  : list StreamEvent * Completion :=
  match explanatoryText calls with
  | Sentence text =>
      ((ContentBlockStart i (CBText "")
        :: map (fun c => ContentBlockDelta i (TextDelta c)) (Js.slices 5 text)
        ++ [ContentBlockStop i])%list,
       Returned)
  | InheritedFunction (S _) => ([ContentBlockStart i (CBText "")], Thrown)
  | InheritedFunction 0 | InheritedObject =>
      ([ContentBlockStart i (CBText ""); ContentBlockStop i], Returned)
  end.

(** The part after the loop, run only [if (hasFinished)]. *)
Definition finalize (st : State) : list StreamEvent * Completion :=
  if hasFinished st then
    let completedToolCalls := map snd (toolCallsBuffer st) in
    let nextBlockIndex :=
      if (0 <? length (activeContentBlocks st))%nat
      then S (foldr Nat.max 0%nat (activeContentBlocks st))
      else 0%nat in
    let stops := map ContentBlockStop (activeContentBlocks st) in
    let closing :=
      [MessageDelta "tool_use" (totalOutputTokens st) (totalInputTokens st);
       MessageStop] in
    if (0 <? length completedToolCalls)%nat
       && existsb has_name completedToolCalls
    then
      match explanatory_block nextBlockIndex completedToolCalls with
      | (explanation, Thrown) => ((stops ++ explanation)%list, Thrown)
      | (explanation, Returned) =>
          ((stops ++ explanation
            ++ tool_blocks (S nextBlockIndex) completedToolCalls
            ++ closing)%list,
           Returned)
      end
    else
      ((stops ++ tool_blocks nextBlockIndex completedToolCalls
        ++ closing)%list,
       Returned)
  else ([], Returned).

Definition messageId : string :=
  "msg_" ++ random_suffix 0 ++ random_suffix 1.

(** The generator run on the drained stream [openAIStream]: the events it
    yields, in order, and how it ends. *)
Definition run (openAIStream : list Chunk) (claudeModel : string)
  : list StreamEvent * Completion :=
  let '(st, evs) := process_chunks messageId claudeModel initial openAIStream in
  let '(last_events, completion) := finalize st in
  ((evs ++ last_events)%list, completion).

(** The events yielded by [convertOpenAIStreamToClaude], up to its return
    or to the exception that ends it. *)
Definition convertOpenAIStreamToClaude
    (openAIStream : list Chunk) (claudeModel : string) : list StreamEvent :=
  fst (run openAIStream claudeModel).

(** The buffer the loop leaves behind. *)
Definition final_buffer (openAIStream : list Chunk) : Buffer :=
  toolCallsBuffer (fst (process_chunks messageId "" initial openAIStream)).

(** Whether the stream's first named tool call makes the explanatory
    block throw. *)
Definition explanation_throws (openAIStream : list Chunk) : bool :=
  slice_fails (explanatoryText (map snd (final_buffer openAIStream))).

End Stream.

(** *** The shape of an event sequence *)

Definition is_delta_at (i : nat) (e : StreamEvent) : Prop :=
  match e with ContentBlockDelta j _ => j = i | _ => False end.

(** One content block at index [i]: a start, deltas, a stop. *)
Inductive block_at (i : nat) : list StreamEvent -> Prop :=
| block_at_intro cb ds :
    Forall (is_delta_at i) ds ->
    block_at i (ContentBlockStart i cb :: ds ++ [ContentBlockStop i]).

(** Consecutive content blocks with the indices [i, i+1, ..., j-1]. *)
Inductive blocks_from : nat -> list StreamEvent -> nat -> Prop :=
| blocks_nil i : blocks_from i [] i
| blocks_cons i b rest j :
    block_at i b -> blocks_from (S i) rest j ->
    blocks_from i (b ++ rest) j.

(** One message_start, the blocks [0 .. n-1] in order, one message_delta,
    one message_stop. *)
Definition well_formed (evs : list StreamEvent) : Prop :=
  exists id model blocks n sr out inp,
    evs = (MessageStart id model :: blocks
           ++ [MessageDelta sr out inp; MessageStop])%list
    /\ blocks_from 0 blocks n.

(** *** The accumulation, as its description has it *)

(** The tool-call fragments of a stream, in arrival order. *)
Definition fragments (chunks : list Chunk) : list ToolCallDelta :=
  concat (map tool_deltas_of chunks).

(** The fragments of call index [k]. *)
Definition fragments_at (k : nat) (frs : list ToolCallDelta) : list ToolCallDelta :=
  List.filter (fun f => (key_of f =? k)%nat) frs.

(** The call indices in the order in which each first arrives. *)
Definition add_key (k : nat) (seen : list nat) : list nat :=
  if existsb (Nat.eqb k) seen then seen else (seen ++ [k])%list.

Definition first_arrivals (frs : list ToolCallDelta) : list nat :=
  fold_left (fun seen f => add_key (key_of f) seen) frs [].

Definition arguments_text (f : ToolCallDelta) : string :=
  default "" (fn_arguments_of f).

Definition name_text (f : ToolCallDelta) : string :=
  default "" (fn_name_of f).

Fixpoint concat_text (l : list string) : string :=
  match l with
  | [] => ""
  | s :: rest => s ++ concat_text rest
  end.

(** The non-empty names that the fragments of call [k] carry. *)
Definition nonempty_names (k : nat) (frs : list ToolCallDelta) : list string :=
  List.filter Js.truthy (map name_text (fragments_at k frs)).

(** The argument text of call [k]: the argument strings of its fragments
    joined in arrival order. *)
Definition call_arguments (k : nat) (frs : list ToolCallDelta) : string :=
  concat_text (map arguments_text (fragments_at k frs)).

Definition first_name (k : nat) (frs : list ToolCallDelta) : string :=
  default "" (head (nonempty_names k frs)).

Definition last_name (k : nat) (frs : list ToolCallDelta) : string :=
  default "" (last (nonempty_names k frs)).

(** *** What a client rebuilds from the events *)

Definition partial_json_at (i : nat) (e : StreamEvent) : string :=
  match e with
  | ContentBlockDelta j (InputJsonDelta p) => if (j =? i)%nat then p else ""
  | _ => ""
  end.

(** The input JSON of the block at index [i]: its partial pieces joined. *)
Definition input_json_at (i : nat) (evs : list StreamEvent) : string :=
  concat_text (map (partial_json_at i) evs).

Definition tool_use_of (evs : list StreamEvent) (e : StreamEvent)
  : option (string * string) :=
  match e with
  | ContentBlockStart i (CBToolUse _ name _) => Some (name, input_json_at i evs)
  | _ => None
  end.

(** The tool_use blocks of an event sequence: name and input JSON text. *)
Definition tool_uses (evs : list StreamEvent) : list (string * string) :=
  omap (tool_use_of evs) evs.

Definition is_message_delta (e : StreamEvent) : bool :=
  match e with MessageDelta _ _ _ => true | _ => false end.

(** What the loop has yielded when it is about to take its next chunk:
    nothing before the first chunk; afterwards the message_start, followed,
    once text has arrived, by the start of block 0 and its deltas. *)
Inductive loop_yield (id model : string) : State -> list StreamEvent -> Prop :=
| yield_nothing st :
    hasStarted st = false -> hasFinished st = false ->
    activeContentBlocks st = [] ->
    loop_yield id model st []
| yield_started st :
    hasStarted st = true -> activeContentBlocks st = [] ->
    loop_yield id model st [MessageStart id model]
| yield_text st ds :
    hasStarted st = true -> activeContentBlocks st = [0%nat] ->
    Forall (is_delta_at 0) ds ->
    loop_yield id model st
      (MessageStart id model :: ContentBlockStart 0 (CBText "") :: ds).

Definition is_block_event (e : StreamEvent) : bool :=
  match e with
  | ContentBlockStart _ _ | ContentBlockDelta _ _ | ContentBlockStop _ => true
  | _ => false
  end.

(** The buffer that the fragments [frs] prescribe: an entry for each call
    index that occurs, holding the arguments of its fragments joined in
    arrival order, the last non-empty name among them, an identifier that
    is not empty, and the identifier of its first fragment when that one
    carries a non-empty one. *)
Definition accumulates (frs : list ToolCallDelta) (buf : Buffer) : Prop :=
  forall k,
    match buf_lookup k buf with
    | None => fragments_at k frs = []
    | Some e =>
        fragments_at k frs <> []
        /\ b_arguments e = concat_text (map arguments_text (fragments_at k frs))
        /\ b_name e = last_name k frs
        /\ Js.truthy (b_id e) = true
        /\ forall f i,
             head (fragments_at k frs) = Some f ->
             tcd_id f = Some i -> Js.truthy i = true -> b_id e = i
    end.

Definition is_message_start (e : StreamEvent) : bool :=
  match e with MessageStart _ _ => true | _ => false end.

Definition is_message_stop (e : StreamEvent) : bool :=
  match e with MessageStop => true | _ => false end.

Definition start_index (e : StreamEvent) : option nat :=
  match e with ContentBlockStart i _ => Some i | _ => None end.

Definition stop_index (e : StreamEvent) : option nat :=
  match e with ContentBlockStop i => Some i | _ => None end.

(** *** What a stream's events carry *)

(** The text of a text delta of block [i]. *)
Definition text_delta_at (i : nat) (e : StreamEvent) : option string :=
  match e with
  | ContentBlockDelta j (TextDelta t) => if (j =? i)%nat then Some t else None
  | _ => None
  end.

(** The last count that the chunks report in a field of [usage], a count
    of zero not being a report; zero when there is none. *)
Definition reported (field : Usage -> option Z) (chunks : list Chunk) : Z :=
  default 0
    (last (List.filter Js.truthy_num
             (omap (fun chunk => usage chunk ≫= field) chunks))).

(** The events that the loop over the chunks can yield. *)
Definition is_loop_event (e : StreamEvent) : bool :=
  match e with
  | MessageStart _ _ => true
  | ContentBlockStart 0 (CBText _) => true
  | ContentBlockDelta 0 (TextDelta _) => true
  | _ => false
  end.

End ResponseConverter.

(** ** A reference runtime

    [JSON.parse] and [JSON.stringify] for the texts the adapter meets:
    objects, arrays, strings with the short escapes, integer numbers and
    the three literals. A number with a fraction or an exponent and a
    [\u] escape are outside this runtime (they are reported as a parse
    failure); the theorems below are stated for every [Runtime], and this
    one serves to run the converters on concrete inputs. *)

Module JsonText.

Definition is_ws (c : ascii) : bool :=
  let n := nat_of_ascii c in
  ((n =? 32) || (n =? 9) || (n =? 10) || (n =? 13))%nat.

Fixpoint skip_ws (l : list ascii) : list ascii :=
  match l with
  | c :: rest => if is_ws c then skip_ws rest else l
  | [] => []
  end.

Definition is_digit (c : ascii) : bool :=
  let n := nat_of_ascii c in ((48 <=? n) && (n <=? 57))%nat.

Definition digit_value (c : ascii) : Z := Z.of_nat (nat_of_ascii c) - 48.

Fixpoint digits (acc : Z) (l : list ascii) : Z * list ascii :=
  match l with
  | c :: rest =>
      if is_digit c then digits (10 * acc + digit_value c) rest else (acc, l)
  | [] => (acc, [])
  end.

Definition starts_fraction (l : list ascii) : bool :=
  match l with
  | c :: _ => Ascii.eqb c "." || Ascii.eqb c "e" || Ascii.eqb c "E"
  | [] => false
  end.

(** An integer literal without its sign. *)
Definition unsigned (l : list ascii) : option (Z * list ascii) :=
  match l with
  | c :: rest =>
      if Ascii.eqb c "0" then
        if starts_fraction rest then None else Some (0, rest)
      else if is_digit c then
        let '(z, rest') := digits (digit_value c) rest in
        if starts_fraction rest' then None else Some (z, rest')
      else None
  | [] => None
  end.

Definition number (l : list ascii) : option (Z * list ascii) :=
  match l with
  | c :: rest =>
      if Ascii.eqb c "-" then
        match unsigned rest with
        | Some (z, r) => Some (- z, r)
        | None => None
        end
      else unsigned l
  | [] => None
  end.

Definition unescape (c : ascii) : option ascii :=
  if Ascii.eqb c Js.dquote then Some Js.dquote
  else if Ascii.eqb c "\" then Some "\"%char
  else if Ascii.eqb c "/" then Some "/"%char
  else if Ascii.eqb c "b" then Some (ascii_of_nat 8)
  else if Ascii.eqb c "f" then Some (ascii_of_nat 12)
  else if Ascii.eqb c "n" then Some (ascii_of_nat 10)
  else if Ascii.eqb c "r" then Some (ascii_of_nat 13)
  else if Ascii.eqb c "t" then Some (ascii_of_nat 9)
  else None.

(** The rest of a string literal, after its opening quote. *)
Fixpoint string_body (acc : list ascii) (l : list ascii)
  : option (string * list ascii) :=
  match l with
  | [] => None
  | c :: rest =>
      if Ascii.eqb c Js.dquote then Some (Js.of_chars (rev acc), rest)
      else if Ascii.eqb c "\" then
        match rest with
        | e :: rest' =>
            match unescape e with
            | Some x => string_body (x :: acc) rest'
            | None => None
            end
        | [] => None
        end
      else if (nat_of_ascii c <? 32)%nat then None
      else string_body (c :: acc) rest
  end.

Definition literal (word : string) (v : json) (l : list ascii)
  : option (json * list ascii) :=
  if Js.prefix_chars (Js.chars word) l
  then Some (v, drop (String.length word) l)
  else None.

(** A property name that is an array index: such names are enumerated
    first, in numeric order. *)
Definition index_of_key (k : string) : option Z :=
  match unsigned (Js.chars k) with
  | Some (z, []) => if z <? 4294967295 then Some z else None
  | _ => None
  end.

Fixpoint replace_member (k : string) (v : json) (m : list (string * json))
  : option (list (string * json)) :=
  match m with
  | [] => None
  | (k', v') :: rest =>
      if String.eqb k k' then Some ((k', v) :: rest)
      else
        match replace_member k v rest with
        | Some rest' => Some ((k', v') :: rest')
        | None => None
        end
  end.

Fixpoint insert_index (z : Z) (k : string) (v : json) (m : list (string * json))
  : list (string * json) :=
  match m with
  | [] => [(k, v)]
  | (k', v') :: rest =>
      match index_of_key k' with
      | Some z' =>
          if z <? z' then (k, v) :: m else (k', v') :: insert_index z k v rest
      | None => (k, v) :: m
      end
  end.

(** Defining property [k] of an object under construction. *)
Definition set_member (k : string) (v : json) (m : list (string * json))
  : list (string * json) :=
  match replace_member k v m with
  | Some m' => m'
  | None =>
      match index_of_key k with
      | Some z => insert_index z k v m
      | None => (m ++ [(k, v)])%list
      end
  end.

Fixpoint value (fuel : nat) (l : list ascii) : option (json * list ascii) :=
  match fuel with
  | O => None
  | S fuel' =>
      match skip_ws l with
      | [] => None
      | c :: rest =>
          if Ascii.eqb c "{" then
            match skip_ws rest with
            | c' :: rest' =>
                if Ascii.eqb c' "}" then Some (JObject [], rest')
                else members fuel' [] rest
            | [] => None
            end
          else if Ascii.eqb c "[" then
            match skip_ws rest with
            | c' :: rest' =>
                if Ascii.eqb c' "]" then Some (JArray [], rest')
                else elements fuel' [] rest
            | [] => None
            end
          else if Ascii.eqb c Js.dquote then
            match string_body [] rest with
            | Some (s, r) => Some (JString s, r)
            | None => None
            end
          else if Ascii.eqb c "t" then literal "true" (JBool true) (c :: rest)
          else if Ascii.eqb c "f" then literal "false" (JBool false) (c :: rest)
          else if Ascii.eqb c "n" then literal "null" JNull (c :: rest)
          else
            match number (c :: rest) with
            | Some (z, r) => Some (JNumber z, r)
            | None => None
            end
      end
  end
with elements (fuel : nat) (acc : list json) (l : list ascii)
  : option (json * list ascii) :=
  match fuel with
  | O => None
  | S fuel' =>
      match value fuel' l with
      | Some (v, r) =>
          match skip_ws r with
          | c :: r' =>
              if Ascii.eqb c "," then elements fuel' (v :: acc) r'
              else if Ascii.eqb c "]" then Some (JArray (rev (v :: acc)), r')
              else None
          | [] => None
          end
      | None => None
      end
  end
with members (fuel : nat) (acc : list (string * json)) (l : list ascii)
  : option (json * list ascii) :=
  match fuel with
  | O => None
  | S fuel' =>
      match skip_ws l with
      | q :: l1 =>
          if Ascii.eqb q Js.dquote then
            match string_body [] l1 with
            | Some (k, l2) =>
                match skip_ws l2 with
                | c :: l3 =>
                    if Ascii.eqb c ":" then
                      match value fuel' l3 with
                      | Some (v, r) =>
                          match skip_ws r with
                          | d :: r' =>
                              if Ascii.eqb d ","
                              then members fuel' (set_member k v acc) r'
                              else if Ascii.eqb d "}"
                              then Some (JObject (set_member k v acc), r')
                              else None
                          | [] => None
                          end
                      | None => None
                      end
                    else None
                | [] => None
                end
            | None => None
            end
          else None
      | [] => None
      end
  end.

Definition parse (s : string) : option json :=
  match value (S (String.length s)) (Js.chars s) with
  | Some (v, r) =>
      match skip_ws r with
      | [] => Some v
      | _ :: _ => None
      end
  | None => None
  end.

Definition hex_digit (n : nat) : ascii :=
  if (n <? 10)%nat then ascii_of_nat (48 + n) else ascii_of_nat (87 + n).

Definition escape (c : ascii) : list ascii :=
  let n := nat_of_ascii c in
  if Ascii.eqb c Js.dquote then ["\"%char; Js.dquote]
  else if Ascii.eqb c "\" then ["\"%char; "\"%char]
  else if (n =? 8)%nat then ["\"%char; "b"%char]
  else if (n =? 12)%nat then ["\"%char; "f"%char]
  else if (n =? 10)%nat then ["\"%char; "n"%char]
  else if (n =? 13)%nat then ["\"%char; "r"%char]
  else if (n =? 9)%nat then ["\"%char; "t"%char]
  else if (n <? 32)%nat
  then ["\"%char; "u"%char; "0"%char; "0"%char;
        hex_digit (n / 16); hex_digit (n mod 16)]
  else [c].

Definition quote (s : string) : string :=
  Js.of_chars (Js.dquote :: concat (map escape (Js.chars s)) ++ [Js.dquote]).

Fixpoint stringify (j : json) : string :=
  match j with
  | JNull => "null"
  | JBool true => "true"
  | JBool false => "false"
  | JNumber z => pretty z
  | JString s => quote s
  | JArray items => "[" ++ Js.join "," (map stringify items) ++ "]"
  | JObject ms =>
      "{" ++ Js.join "," (map (fun kv => quote (fst kv) ++ ":" ++ stringify (snd kv)) ms)
          ++ "}"
  end.

(** The reference runtime; its random strings are a fixed sequence. *)
Definition runtime : Runtime :=
  {| JSON_parse := parse;
     JSON_stringify := stringify;
     random_suffix := fun n => "r" ++ pretty n |}.

End JsonText.

(** ** The model router (utils/router.ts, utils/token-calculator.ts) *)

Module Router.
Import RequestConverter.

(** The tokenizer [enc.encode] of the tiktoken package, an external
    collaborator: it receives a string, or [undefined] ([None]) where the
    caller has none, and returns the tokens, or throws ([None]). *)
Class Tokenizer := {
  encode : option string -> option (list nat);
}.

Record RouterConfig := {
  default_model : string;
  longContext : option string;
  longContextThreshold : option Z;
  webSearch : option string;
  background : option string;
  think : option string;
}.

Definition web_search_marker : string :=
  "You are an assistant for performing a web search tool use".

Section Route.
Context `{Runtime} `{Tokenizer}.

(** [tokenCount += enc.encode(text).length], or the exception. *)
Definition count (text : option string) (tokenCount : Z) : option Z :=
  match encode text with
  | Some tokens => Some (tokenCount + Z.of_nat (length tokens))
  | None => None
  end.

Definition count_part (tokenCount : Z) (contentPart : ContentBlockParam)
  : option Z :=
  match contentPart with
  | TextBlock text => count (Some text) tokenCount
  | ToolUseBlock _ _ input => count (Some (JSON_stringify input)) tokenCount
  | ToolResultBlock _ (TRString s) => count (Some s) tokenCount
  | ToolResultBlock _ (TRBlocks j) => count (Some (JSON_stringify j)) tokenCount
  | ToolResultBlock _ TRAbsent => count None tokenCount
  | _ => Some tokenCount
  end.

(** [forEach] with a body that may throw. *)
Fixpoint for_each {A} (body : Z -> A -> option Z) (l : list A) (acc : Z)
  : option Z :=
  match l with
  | [] => Some acc
  | x :: rest =>
      match body acc x with
      | Some acc' => for_each body rest acc'
      | None => None
      end
  end.

Definition count_message (tokenCount : Z) (message : MessageParam)
  : option Z :=
  match content message with
  | StringContent s => count (Some s) tokenCount
  | BlockContent parts => for_each count_part parts tokenCount
  end.

Definition count_system_item (tokenCount : Z) (item : TextBlockParam)
  : option Z :=
  if String.eqb (sys_type item) "text"
  then count (Some (sys_text item)) tokenCount
  else Some tokenCount.

Definition count_tool (tokenCount : Z) (tool : ToolUnion) : option Z :=
  match count (Some (tool_name tool ++ Js.or_else (tool_description tool) ""))
              tokenCount with
  | Some c =>
      match tool_input_schema tool with
      | Some schema =>
          if json_truthy schema
          then count (Some (JSON_stringify schema)) c
          else Some c
      | None => Some c
      end
  | None => None
  end.

Definition calculateTokenCount (messages : list MessageParam)
    (system : option SystemPrompt) (tools : list ToolUnion) : option Z :=
  match for_each count_message messages 0 with
  | Some c1 =>
      match
        match system with
        | Some (SysString s) => count (Some s) c1
        | Some (SysBlocks items) => for_each count_system_item items c1
        | None => Some c1
        end
      with
      | Some c2 => for_each count_tool tools c2
      | None => None
      end
  | None => None
  end.

Definition is_web_search_tool (t : ToolUnion) : bool :=
  match tool_type t with
  | Some ty => String.eqb ty "web_search_20250305"
  | None => false
  end
  && String.eqb (tool_name t) "web_search".

Definition hasExactlyOneWebSearchTool (request : MessageCreateRequest) : bool :=
  match tools request with
  | Some [t] => is_web_search_tool t
  | _ => false
  end.

(** The text in which the marker is looked for. *)
Definition systemText (s : SystemPrompt) : string :=
  match s with
  | SysString t => t
  | SysBlocks items => Js.join " " (map sys_text items)
  end.

Definition hasWebSearchSystemIndicator (request : MessageCreateRequest) : bool :=
  match system request with
  | Some s =>
      if system_truthy (Some s)
      then Js.includes (systemText s) web_search_marker
      else false
  | None => false
  end.

(** The value [routeModel] resolves to; [defaultModelConfig] is not
    looked at. The whole body is one [try], whose [catch] answers
    [routerConfig.default]. *)
Definition routeModel (request : MessageCreateRequest)
    (defaultModelConfig : ModelConfig) (routerConfig : RouterConfig)
  : string :=
  match calculateTokenCount (messages request) (system request)
                            (default [] (tools request)) with
  | None => default_model routerConfig
  | Some tokenCount =>
      if hasExactlyOneWebSearchTool request
         && hasWebSearchSystemIndicator request
         && Js.truthy_opt (webSearch routerConfig)
      then default "" (webSearch routerConfig)
      else
        let threshold :=
          Js.num_or_else (longContextThreshold routerConfig) 60000 in
        if (threshold <? tokenCount) && Js.truthy_opt (longContext routerConfig)
        then default "" (longContext routerConfig)
        else if Js.includes (model request) "haiku"
                && Js.truthy_opt (background routerConfig)
        then default "" (background routerConfig)
        else if thinking request && Js.truthy_opt (think routerConfig)
        then default "" (think routerConfig)
        else default_model routerConfig
  end.

End Route.

End Router.

(** ** The in-memory store (utils/memory-store.ts) *)

Module MemoryStore.

Section Store.
Context {V : Type}.

Record CacheItem := { value : V; expireTime : Z }.

(** The [cache] map and whether the cleanup interval is armed. *)
Record t := {
  cache : gmap string CacheItem;
  cleanupTimer : bool;
}.

Definition DEFAULT_TTL : Z := 60 * 60 * 1000.
Definition CLEANUP_INTERVAL : Z := 5 * 60 * 1000.

(** [new MemoryStore()]. *)
Definition create : t := {| cache := ∅; cleanupTimer := true |}.

(** [set(key, value, ttl)] at time [now]; [ttl] defaults to one hour. *)
Definition set (now : Z) (key : string) (v : V) (ttl : option Z) (s : t) : t :=
  let expireTime := now + default DEFAULT_TTL ttl in
  {| cache := <[key := {| value := v; expireTime := expireTime |}]> (cache s);
     cleanupTimer := true |}.

Definition delete (key : string) (s : t) : bool * t :=
  (bool_decide (is_Some (cache s !! key)),
   {| cache := base.delete key (cache s); cleanupTimer := cleanupTimer s |}).

(** [get(key)] at time [now]: the value or [undefined], and the store
    it leaves. *)
Definition get (now : Z) (key : string) (s : t) : option V * t :=
  match cache s !! key with
  | None => (None, s)
  | Some item =>
      if expireTime item <? now
      then (None, snd (delete key s))
      else (Some (value item), s)
  end.

(** The sweep run by the interval. *)
Definition cleanupExpired (now : Z) (s : t) : t :=
  let kept := filter (fun kv => ¬ (expireTime (snd kv) < now)) (cache s) in
  {| cache := kept;
     cleanupTimer := if bool_decide (size kept = 0%nat) then false
                     else cleanupTimer s |}.

(** [has(key)]: [get(key) !== undefined], with the eviction of [get]. *)
Definition has (now : Z) (key : string) (s : t) : bool * t :=
  (bool_decide (is_Some (fst (get now key s))), snd (get now key s)).

Definition ttl (now : Z) (key : string) (s : t) : Z :=
  match cache s !! key with
  | None => -1
  | Some item =>
      let remaining := expireTime item - now in
      if 0 <? remaining then remaining else -1
  end.

Definition clear (s : t) : t := {| cache := ∅; cleanupTimer := false |}.

Definition size (s : t) : nat := base.size (cache s).

Definition refresh (now : Z) (key : string) (s : t) : bool * t :=
  match cache s !! key with
  | None => (false, s)
  | Some item =>
      if expireTime item <? now then (false, s)
      else (true, set now key (value item) None s)
  end.

End Store.

Arguments CacheItem : clear implicits.
Arguments t : clear implicits.

End MemoryStore.

(** ** The bracket scan (utils/web-search-handler.ts) *)

Module WebSearch.

Definition close_bracket : ascii := "]"%char.
Definition open_bracket : ascii := "["%char.

(** [text.lastIndexOf(c)], [None] for -1. *)
Fixpoint lastIndexOf_from (c : ascii) (i : nat) (l : list ascii) : option nat :=
  match l with
  | [] => None
  | x :: rest =>
      match lastIndexOf_from c (S i) rest with
      | Some j => Some j
      | None => if Ascii.eqb x c then Some i else None
      end
  end.

Definition lastIndexOf (c : ascii) (l : list ascii) : option nat :=
  lastIndexOf_from c 0 l.

(** The loop [for (let i = ...; i >= 0; i--)], entered at [i] with
    [bracketCount]: the index at which it breaks, if it does. *)
Fixpoint scan (text : list ascii) (bracketCount : Z) (i : nat) : option nat :=
  let continue (count : Z) :=
    match i with
    | O => None
    | S i' => scan text count i'
    end in
  match text !! i with
  | Some c =>
      if Ascii.eqb c close_bracket then continue (bracketCount + 1)
      else if Ascii.eqb c open_bracket then
        if bracketCount - 1 =? 0 then Some i
        else continue (bracketCount - 1)
      else continue bracketCount
  | None => continue bracketCount
  end.

Record SearchParse := {
  queryPart : string;
  linksArray : json;
}.

(** What a call of [parseSearchResult] does: it returns [null], returns
    the pair, or lets the [SyntaxError] of [JSON.parse] escape. *)
Inductive Outcome :=
| Null
| Parsed (r : SearchParse)
| Thrown.

Section Parse.
Context `{Runtime}.

Definition parseSearchResult (text : string) : Outcome :=
  let cs := Js.chars text in
  match lastIndexOf close_bracket cs with
  | None => Null
  | Some lastBracketIndex =>
      match scan cs 0 lastBracketIndex with
      | None => Null
      | Some firstBracketIndex =>
          let queryPart := Js.trim (Js.substring 0 firstBracketIndex text) in
          let arrayPart :=
            Js.substring firstBracketIndex (lastBracketIndex + 1) text in
          match JSON_parse arrayPart with
          | Some linksArray =>
              Parsed {| queryPart := queryPart; linksArray := linksArray |}
          | None => Thrown
          end
      end
  end.

End Parse.

(** *** The matching bracket, as the description of the scan has it *)

(** Closing minus opening brackets in a piece of text. *)
Fixpoint depth (l : list ascii) : Z :=
  match l with
  | [] => 0
  | c :: rest =>
      (if Ascii.eqb c close_bracket then 1
       else if Ascii.eqb c open_bracket then -1 else 0) + depth rest
  end.

(** The piece [text[i..l]], both ends included. *)
Definition piece (text : list ascii) (i l : nat) : list ascii :=
  take (S l - i) (drop i text).

(** [f] holds the opening bracket that matches the closing one at [l]:
    going backward from [l], the depth stays positive until it reaches
    zero at [f]. *)
Definition matching_open (text : list ascii) (l f : nat) : Prop :=
  (f <= l)%nat
  /\ text !! f = Some open_bracket
  /\ depth (piece text f l) = 0
  /\ forall i, (f < i <= l)%nat -> 0 < depth (piece text i l).

(** [l] is the position of the last closing bracket of [text]. *)
Definition last_close (text : list ascii) (l : nat) : Prop :=
  text !! l = Some close_bracket
  /\ forall j, (l < j)%nat -> text !! j <> Some close_bracket.

End WebSearch.

(** ** The batch routes (routes/batches.ts) *)

Module Batches.

Inductive ProcessingStatus := validating | in_progress | canceling | ended.

Record RequestCounts := {
  processing : Z;
  succeeded : Z;
  errored : Z;
  canceled : Z;
}.

(** A member of [requests]; of its [body] the worker reads the model. *)
Record BatchRequest := {
  custom_id : string;
  body : RequestConverter.MessageCreateRequest;
}.

Inductive ResultKind :=
| result_succeeded (message : json)
| result_errored (error_type error_message : string)
| result_canceled.

Record ResultEntry := {
  r_custom_id : string;
  r_result : ResultKind;
}.

(** Dates are kept as the instant they print. *)
Record BatchJob := {
  id : string;
  processing_status : ProcessingStatus;
  request_counts : RequestCounts;
  ended_at : option Z;
  archived_at : option Z;
  cancel_initiated_at : option Z;
  expires_at : Z;
  created_at : Z;
  requests : list BatchRequest;
  results : option (list ResultEntry);
}.

(** How the awaited [claudeAdapter.createMessage] settles. *)
Inductive Settled :=
| Resolved (response : json)
| Rejected (message : string).

(** A job together with its worker: [awaiting] holds the request whose
    [createMessage] is pending and the requests after it, and is [None]
    once [processBatchAsync] has returned. *)
Record JobState := {
  job : BatchJob;
  awaiting : option (BatchRequest * list BatchRequest);
}.

Definition set_status (st : ProcessingStatus) (b : BatchJob) : BatchJob :=
  {| id := id b; processing_status := st;
     request_counts := request_counts b; ended_at := ended_at b;
     archived_at := archived_at b;
     cancel_initiated_at := cancel_initiated_at b;
     expires_at := expires_at b; created_at := created_at b;
     requests := requests b; results := results b |}.

Definition set_ended_at (now : Z) (b : BatchJob) : BatchJob :=
  {| id := id b; processing_status := processing_status b;
     request_counts := request_counts b; ended_at := Some now;
     archived_at := archived_at b;
     cancel_initiated_at := cancel_initiated_at b;
     expires_at := expires_at b; created_at := created_at b;
     requests := requests b; results := results b |}.

Definition set_cancel_initiated_at (now : Z) (b : BatchJob) : BatchJob :=
  {| id := id b; processing_status := processing_status b;
     request_counts := request_counts b; ended_at := ended_at b;
     archived_at := archived_at b;
     cancel_initiated_at := Some now;
     expires_at := expires_at b; created_at := created_at b;
     requests := requests b; results := results b |}.

Definition set_results (r : option (list ResultEntry)) (b : BatchJob) : BatchJob :=
  {| id := id b; processing_status := processing_status b;
     request_counts := request_counts b; ended_at := ended_at b;
     archived_at := archived_at b;
     cancel_initiated_at := cancel_initiated_at b;
     expires_at := expires_at b; created_at := created_at b;
     requests := requests b; results := r |}.

Definition set_counts (c : RequestCounts) (b : BatchJob) : BatchJob :=
  {| id := id b; processing_status := processing_status b;
     request_counts := c; ended_at := ended_at b;
     archived_at := archived_at b;
     cancel_initiated_at := cancel_initiated_at b;
     expires_at := expires_at b; created_at := created_at b;
     requests := requests b; results := results b |}.

(** [batch.results.push(entry)]; the worker has assigned [results]
    before its first push. *)
Definition push_result (entry : ResultEntry) (b : BatchJob) : BatchJob :=
  set_results (Some (default [] (results b) ++ [entry])%list) b.

Definition item_canceled (request : BatchRequest) (b : BatchJob) : BatchJob :=
  let c := request_counts b in
  let b1 := set_counts {| processing := processing c - 1; succeeded := succeeded c;
                          errored := errored c; canceled := canceled c + 1 |} b in
  push_result {| r_custom_id := custom_id request; r_result := result_canceled |} b1.

Definition item_succeeded (request : BatchRequest) (response : json)
    (b : BatchJob) : BatchJob :=
  let b1 := push_result {| r_custom_id := custom_id request;
                           r_result := result_succeeded response |} b in
  let c := request_counts b1 in
  set_counts {| processing := processing c - 1; succeeded := succeeded c + 1;
                errored := errored c; canceled := canceled c |} b1.

Definition item_errored (request : BatchRequest) (message : string)
    (b : BatchJob) : BatchJob :=
  let b1 := push_result {| r_custom_id := custom_id request;
                           r_result := result_errored "api_error" message |} b in
  let c := request_counts b1 in
  set_counts {| processing := processing c - 1; succeeded := succeeded c;
                errored := errored c + 1; canceled := canceled c |} b1.

Inductive Response {A : Type} :=
| Ok (payload : A)
| Error (status : nat) (error_type message : string).
Arguments Response : clear implicits.

(** The fields the handlers answer with. *)
Record BatchView := {
  v_id : string;
  v_processing_status : ProcessingStatus;
  v_request_counts : RequestCounts;
  v_ended_at : option Z;
  v_archived_at : option Z;
  v_cancel_initiated_at : option Z;
  v_expires_at : Z;
  v_created_at : Z;
}.

Definition view (b : BatchJob) : BatchView :=
  {| v_id := id b; v_processing_status := processing_status b;
     v_request_counts := request_counts b; v_ended_at := ended_at b;
     v_archived_at := archived_at b;
     v_cancel_initiated_at := cancel_initiated_at b;
     v_expires_at := expires_at b; v_created_at := created_at b |}.

(** The [batches] map, each job with its worker. *)
Abbreviation Store := (gmap string JobState).

Section Engine.
(** [modelManager.getModelConfig]. *)
Variable getModelConfig : string -> option RequestConverter.ModelConfig.

(** The [for] loop of [processBatchAsync] from the request at the head
    of [todo] up to the next [await], or through the two assignments
    after the loop. *)
Fixpoint run_loop (now : Z) (b : BatchJob) (todo : list BatchRequest)
  : JobState :=
  match todo with
  | [] =>
      {| job := set_ended_at now (set_status ended b); awaiting := None |}
  | request :: rest =>
      match cancel_initiated_at b with
      | Some _ => run_loop now (item_canceled request b) rest
      | None =>
          match getModelConfig (RequestConverter.model (body request)) with
          | None =>
              run_loop now
                (item_errored request
                   ("Model " ++ RequestConverter.model (body request)
                             ++ " not supported") b)
                rest
          | Some _ => {| job := b; awaiting := Some (request, rest) |}
          end
      end
  end.

(** [processBatchAsync(batch, ...)] up to its first suspension. *)
Definition processBatchAsync (now : Z) (b : BatchJob) : JobState :=
  run_loop now (set_results (Some []) (set_status in_progress b)) (requests b).

(** The worker resumed with the settled [createMessage]. *)
Definition resume (now : Z) (s : JobState) (outcome : Settled) : JobState :=
  match awaiting s with
  | None => s
  | Some (request, rest) =>
      match outcome with
      | Resolved response =>
          run_loop now (item_succeeded request response (job s)) rest
      | Rejected message =>
          run_loop now (item_errored request message (job s)) rest
      end
  end.

(** The job the create handler builds. *)
Definition new_batch (batchId : string) (now : Z) (reqs : list BatchRequest)
  : BatchJob :=
  {| id := batchId; processing_status := validating;
     request_counts := {| processing := Z.of_nat (length reqs);
                          succeeded := 0; errored := 0; canceled := 0 |};
     ended_at := None; archived_at := None; cancel_initiated_at := None;
     expires_at := now + 24 * 60 * 60 * 1000; created_at := now;
     requests := reqs; results := None |}.


(** [POST /]: [batchId] is the identifier drawn for the job. *)
Definition create_handler (batchId : string) (now : Z)
    (reqs : list BatchRequest) (σ : Store) : Response BatchView * Store :=
  let s := processBatchAsync now (new_batch batchId now reqs) in
  (Ok (view (job s)), <[batchId := s]> σ).

(** [GET /:batchId]. *)
Definition get_handler (batchId : string) (σ : Store) : Response BatchView :=
  match σ !! batchId with
  | None => Error 404 "not_found_error" ("Batch " ++ batchId ++ " not found")
  | Some s => Ok (view (job s))
  end.

(** [POST /:batchId/cancel]. *)
Definition cancel_handler (batchId : string) (now : Z) (σ : Store)
  : Response BatchView * Store :=
  match σ !! batchId with
  | None =>
      (Error 404 "not_found_error" ("Batch " ++ batchId ++ " not found"), σ)
  | Some s =>
      match processing_status (job s) with
      | ended =>
          (Error 400 "invalid_request_error"
                 "Cannot cancel a batch that has already ended", σ)
      | _ =>
          let b := set_cancel_initiated_at now (set_status canceling (job s)) in
          (Ok (view b), <[batchId := {| job := b; awaiting := awaiting s |}]> σ)
      end
  end.

(** [GET /:batchId/results]: the records whose JSON lines are sent. *)
Definition results_handler (batchId : string) (σ : Store)
  : Response (list ResultEntry) :=
  match σ !! batchId with
  | None => Error 404 "not_found_error" ("Batch " ++ batchId ++ " not found")
  | Some s =>
      match results (job s) with
      | None =>
          Error 400 "invalid_request_error" "Batch results are not yet available"
      | Some rs => Ok rs
      end
  end.

(** What can happen between two points at which a handler observes the
    store: a handler that writes runs, or a suspended worker resumes. *)
Inductive step : Store -> Store -> Prop :=
| step_create batchId now reqs σ :
    step σ (snd (create_handler batchId now reqs σ))
| step_cancel batchId now σ :
    step σ (snd (cancel_handler batchId now σ))
| step_resume batchId now outcome s σ :
    σ !! batchId = Some s ->
    is_Some (awaiting s) ->
    step σ (<[batchId := resume now s outcome]> σ).

(** The stores the server can be in. *)
Inductive reachable : Store -> Prop :=
| reachable_start : reachable ∅
| reachable_step σ σ' : reachable σ -> step σ σ' -> reachable σ'.

Definition counts_total (c : RequestCounts) : Z :=
  processing c + succeeded c + errored c + canceled c.

End Engine.

(** *** What a job and its worker keep in step *)

(** The requests that the worker has not recorded yet: the one in flight
    and those after it. *)
Definition pending (s : JobState) : list BatchRequest :=
  match awaiting s with
  | Some (request, rest) => request :: rest
  | None => []
  end.

Definition is_succeeded (k : ResultKind) : bool :=
  match k with result_succeeded _ => true | _ => false end.

Definition is_errored (k : ResultKind) : bool :=
  match k with result_errored _ _ => true | _ => false end.

Definition is_canceled (k : ResultKind) : bool :=
  match k with result_canceled => true | _ => false end.

(** The number of records of one kind. *)
Definition kind_count (p : ResultKind -> bool) (rs : list ResultEntry) : Z :=
  Z.of_nat (length (List.filter (fun e => p (r_result e)) rs)).

(** The records and the pending requests together are the requests, in
    their order; the counts are those of the records; and the job is ended
    exactly when no request is in flight. *)
Definition consistent (s : JobState) : Prop :=
  exists rs,
    results (job s) = Some rs
    /\ (map r_custom_id rs ++ map custom_id (pending s))%list
       = map custom_id (requests (job s))
    /\ processing (request_counts (job s)) = Z.of_nat (length (pending s))
    /\ succeeded (request_counts (job s)) = kind_count is_succeeded rs
    /\ errored (request_counts (job s)) = kind_count is_errored rs
    /\ canceled (request_counts (job s)) = kind_count is_canceled rs
    /\ (awaiting s = None <-> processing_status (job s) = ended).

(** The record that the worker pushes for a settled request. *)
Definition settled_entry (request : BatchRequest) (outcome : Settled)
  : ResultEntry :=
  {| r_custom_id := custom_id request;
     r_result :=
       match outcome with
       | Resolved response => result_succeeded response
       | Rejected message => result_errored "api_error" message
       end |}.

Definition canceled_entry (request : BatchRequest) : ResultEntry :=
  {| r_custom_id := custom_id request; r_result := result_canceled |}.

End Batches.

(** ** The model table (config/models.ts) *)

Module ModelManager.
Import RequestConverter Router.

(** The parsed configuration file. *)
Record ModelConfigFile := {
  cf_models : list ModelConfig;
  cf_defaultModel : option string;
  cf_router : option RouterConfig;
}.

Definition DEFAULT_MODELS : list ModelConfig :=
  [ {| claudeModelName := "claude-3-5-sonnet-20241022";
       openaiModelName := "gpt-4o"; maxTokens := 8192;
       description := Some "Claude 3.5 Sonnet mapped to GPT-4o" |};
    {| claudeModelName := "claude-3-5-haiku-20241022";
       openaiModelName := "gpt-4o-mini"; maxTokens := 8192;
       description := Some "Claude 3.5 Haiku mapped to GPT-4o Mini" |};
    {| claudeModelName := "claude-3-opus-20240229";
       openaiModelName := "gpt-4-turbo"; maxTokens := 4096;
       description := Some "Claude 3 Opus mapped to GPT-4 Turbo" |};
    {| claudeModelName := "claude-3-sonnet-20240229";
       openaiModelName := "gpt-4"; maxTokens := 4096;
       description := Some "Claude 3 Sonnet mapped to GPT-4" |};
    {| claudeModelName := "claude-3-haiku-20240307";
       openaiModelName := "gpt-3.5-turbo"; maxTokens := 4096;
       description := Some "Claude 3 Haiku mapped to GPT-3.5 Turbo" |} ].

(** A JavaScript [Map] from names to configurations: its entries in
    insertion order. *)
Abbreviation ModelMap := (list (string * ModelConfig)).

(** [Map.prototype.set]: a present key keeps its place and takes the new
    value, an absent key is appended. *)
Fixpoint map_set (key : string) (value : ModelConfig) (m : ModelMap)
  : ModelMap :=
  match m with
  | [] => [(key, value)]
  | (k, v) :: rest =>
      if String.eqb k key then (key, value) :: rest
      else (k, v) :: map_set key value rest
  end.

(** [Map.prototype.get]. *)
Fixpoint map_get (key : string) (m : ModelMap) : option ModelConfig :=
  match m with
  | [] => None
  | (k, v) :: rest => if String.eqb k key then Some v else map_get key rest
  end.

(** [Map.prototype.delete]: the answer and the map afterwards. *)
Fixpoint map_delete (key : string) (m : ModelMap) : bool * ModelMap :=
  match m with
  | [] => (false, [])
  | (k, v) :: rest =>
      if String.eqb k key then (true, rest)
      else let (found, rest') := map_delete key rest in
           (found, (k, v) :: rest')
  end.

Record t := {
  models : ModelMap;
  defaultModel : option string;
  routerConfig : option RouterConfig;
}.

(** The policy used when the file has no [router] section. *)
Definition built_in_router (defaultModel : option string) : RouterConfig :=
  {| default_model := Js.or_else defaultModel "claude-3-5-sonnet-20241022";
     longContext := None;
     longContextThreshold := Some 60000;
     webSearch := None; background := None; think := None |}.

(** [loadModels] from the configuration it has settled on. *)
Definition load (config : ModelConfigFile) : t :=
  let ms :=
    fold_left (fun m model => map_set (claudeModelName model) model m)
              (cf_models config) [] in
  let first := option_map claudeModelName (head (cf_models config)) in
  let d :=
    match cf_defaultModel config with
    | Some name => if Js.truthy name then Some name else first
    | None => first
    end in
  {| models := ms;
     defaultModel := d;
     routerConfig :=
       Some (match cf_router config with
             | Some r => r
             | None => built_in_router d
             end) |}.

(** [new ModelManager(configPath)]: [file] is the configuration parsed
    from the file at [configPath], or [None] when there is no path, no
    file, or the file cannot be read or parsed. *)
Definition create (file : option ModelConfigFile) : t :=
  load (default {| cf_models := DEFAULT_MODELS; cf_defaultModel := None;
                   cf_router := None |} file).

Definition getModelConfig (claudeModelName : string) (mm : t)
  : option ModelConfig :=
  map_get claudeModelName (models mm).

Definition getAllModels (mm : t) : list ModelConfig := map snd (models mm).

Definition getDefaultModel (mm : t) : option string := defaultModel mm.

Definition getRouterConfig (mm : t) : option RouterConfig := routerConfig mm.

Definition addModel (config : ModelConfig) (mm : t) : t :=
  {| models := map_set (claudeModelName config) config (models mm);
     defaultModel := defaultModel mm;
     routerConfig := routerConfig mm |}.

Definition removeModel (claudeModelName : string) (mm : t) : bool * t :=
  let (found, ms) := map_delete claudeModelName (models mm) in
  (found, {| models := ms; defaultModel := defaultModel mm;
             routerConfig := routerConfig mm |}).

(** An entry filed under the name its configuration carries. *)
Definition keyed (kv : string * ModelConfig) : Prop :=
  claudeModelName (snd kv) = fst kv.

(** The managers a server can hold: built from a configuration, then
    changed by [addModel] and [removeModel]. *)
Inductive built : t -> Prop :=
| built_create file : built (create file)
| built_add config mm : built mm -> built (addModel config mm)
| built_remove name mm : built mm -> built (snd (removeModel name mm)).

End ModelManager.

(** ** The messages route (routes/messages.ts) *)

Module Messages.
Import RequestConverter Router.

(** How far [POST /] gets before it calls the adapter: an error answer,
    or the request and the configuration handed to the adapter. The
    message of a caught exception is whatever the exception carries
    ([None] here). *)
Inductive Outcome :=
| Reject (status : nat) (error_type : string) (message : option string)
| Forward (claudeRequest : MessageCreateRequest) (modelConfig : ModelConfig).

Definition set_model (m : string) (r : MessageCreateRequest)
  : MessageCreateRequest :=
  {| model := m; messages := messages r; system := system r;
     max_tokens := max_tokens r; temperature := temperature r;
     top_p := top_p r; stop_sequences := stop_sequences r;
     tools := tools r; stream := stream r; thinking := thinking r |}.

Definition set_max_tokens (n : Z) (r : MessageCreateRequest)
  : MessageCreateRequest :=
  {| model := model r; messages := messages r; system := system r;
     max_tokens := n; temperature := temperature r;
     top_p := top_p r; stop_sequences := stop_sequences r;
     tools := tools r; stream := stream r; thinking := thinking r |}.

(** The second argument of [routeModel] when the requested model is not
    in the table; the router does not look at that argument. *)
Definition no_config : ModelConfig :=
  {| claudeModelName := ""; openaiModelName := ""; maxTokens := 0;
     description := None |}.

Section Route.
Context `{Runtime} `{Tokenizer}.

Definition post (mm : ModelManager.t) (claudeRequest : MessageCreateRequest)
  : Outcome :=
  match calculateTokenCount (messages claudeRequest) (system claudeRequest)
                            (default [] (tools claudeRequest)) with
  | None => Reject 500 "api_error" None
  | Some _ =>
      if negb (Js.truthy (model claudeRequest))
         || negb (Js.truthy_num (max_tokens claudeRequest))
      then Reject 400 "invalid_request_error"
             (Some "Missing required fields: model, messages, and max_tokens are required")
      else if (length (messages claudeRequest) =? 0)%nat
      then Reject 400 "invalid_request_error"
             (Some "Messages must be a non-empty array")
      else
        let finalModel :=
          match ModelManager.getRouterConfig mm with
          | Some routerConfig =>
              routeModel claudeRequest
                (default no_config
                   (ModelManager.getModelConfig (model claudeRequest) mm))
                routerConfig
          | None => model claudeRequest
          end in
        match ModelManager.getModelConfig finalModel mm with
        | None =>
            Reject 400 "invalid_request_error"
              (Some ("Model " ++ finalModel
                     ++ " is not supported. Available models: "
                     ++ Js.join ", "
                          (map claudeModelName (ModelManager.getAllModels mm))))
        | Some modelConfig =>
            let routed := set_model finalModel claudeRequest in
            let safeMaxTokens := maxTokens modelConfig in
            Forward
              (if safeMaxTokens <? max_tokens routed
               then set_max_tokens safeMaxTokens routed
               else routed)
              modelConfig
        end
  end.

End Route.

End Messages.


(** ** Inputs on which the converters are run *)

Module Examples.
Import ResponseConverter.

Definition fragment (name arguments : option string) : ToolCallDelta :=
  {| tcd_index := Some 0%nat; tcd_id := None;
     tcd_function := Some {| fd_name := name; fd_arguments := arguments |} |}.

Definition chunk_of (content : option string)
    (tool_calls : option (list ToolCallDelta)) (finish : option string) : Chunk :=
  {| choices := [{| delta := Some {| d_content := content;
                                      d_tool_calls := tool_calls |};
                    finish_reason := finish |}];
     usage := None |}.

(** The three fragments of one call to get_weather, and the closing chunk. *)
Definition weather_stream : list Chunk :=
  [chunk_of None (Some [fragment (Some "get_weather") None]) None;
   chunk_of None (Some [fragment None (Some (Js.dq "{'loc"))]) None;
   chunk_of None (Some [fragment None (Some (Js.dq "':'NYC'}"))]) None;
   chunk_of None None (Some "tool_calls")].

(** Two fragments of one call that both carry a name. *)
Definition renamed_stream : list Chunk :=
  [chunk_of None (Some [fragment (Some "Read") None]) None;
   chunk_of None (Some [fragment (Some "Write") (Some "{}")]) (Some "tool_calls")].

(** Text that ends without a finish signal, then the same with one. *)
Definition unfinished_text_stream : list Chunk :=
  [chunk_of (Some "Hel") None None; chunk_of (Some "lo") None None].

Definition text_stream : list Chunk :=
  [chunk_of (Some "Hel") None None; chunk_of (Some "lo") None (Some "stop")].

(** One call to a tool named constructor, then the finish signal. *)
Definition constructor_stream : list Chunk :=
  [chunk_of None (Some [fragment (Some "constructor") (Some "{}")]) None;
   chunk_of None None (Some "tool_calls")].

(** A tokenizer that makes one token of each character. *)
Definition char_tokenizer : Router.Tokenizer :=
  {| Router.encode := fun text =>
       match text with
       | Some s => Some (repeat 0%nat (String.length s))
       | None => None
       end |}.

Definition web_search_tool : RequestConverter.ToolUnion :=
  {| RequestConverter.tool_type := Some "web_search_20250305";
     RequestConverter.tool_name := "web_search";
     RequestConverter.tool_description := None;
     RequestConverter.tool_input_schema := None |}.

(** A web-search request whose estimate (117 tokens with
    [char_tokenizer]) is above the threshold of [search_policy]. *)
Definition search_request : RequestConverter.MessageCreateRequest :=
  {| RequestConverter.model := "claude-3-5-sonnet-20241022";
     RequestConverter.messages :=
       [{| RequestConverter.role := RequestConverter.user;
           RequestConverter.content :=
             RequestConverter.StringContent
               "Perform a web search for the query: weather in NYC" |}];
     RequestConverter.system :=
       Some (RequestConverter.SysString
               "You are an assistant for performing a web search tool use");
     RequestConverter.max_tokens := 1024;
     RequestConverter.temperature := None;
     RequestConverter.top_p := None;
     RequestConverter.stop_sequences := None;
     RequestConverter.tools := Some [web_search_tool];
     RequestConverter.stream := None;
     RequestConverter.thinking := false |}.

(** A tokenizer that refuses a text holding the end-of-text marker, as
    the tokenizer of the tiktoken package does with its default settings,
    and the web-search request with that marker in its query. *)
Definition strict_tokenizer : Router.Tokenizer :=
  {| Router.encode := fun text =>
       match text with
       | Some s =>
           if Js.includes s "<|endoftext|>" then None
           else Some (repeat 0%nat (String.length s))
       | None => None
       end |}.

Definition marked_search_request : RequestConverter.MessageCreateRequest :=
  {| RequestConverter.model := "claude-3-5-sonnet-20241022";
     RequestConverter.messages :=
       [{| RequestConverter.role := RequestConverter.user;
           RequestConverter.content :=
             RequestConverter.StringContent
               "Perform a web search for the query: <|endoftext|>" |}];
     RequestConverter.system :=
       Some (RequestConverter.SysString
               "You are an assistant for performing a web search tool use");
     RequestConverter.max_tokens := 1024;
     RequestConverter.temperature := None;
     RequestConverter.top_p := None;
     RequestConverter.stop_sequences := None;
     RequestConverter.tools := Some [web_search_tool];
     RequestConverter.stream := None;
     RequestConverter.thinking := false |}.

Definition search_policy : Router.RouterConfig :=
  {| Router.default_model := "default-model";
     Router.longContext := Some "long-model";
     Router.longContextThreshold := Some 100;
     Router.webSearch := Some "search-model";
     Router.background := None;
     Router.think := None |}.

Definition sonnet_config : RequestConverter.ModelConfig :=
  {| RequestConverter.claudeModelName := "claude-3-5-sonnet-20241022";
     RequestConverter.openaiModelName := "gpt-4o";
     RequestConverter.maxTokens := 8192;
     RequestConverter.description := None |}.

(** A message with a text block and two tool_result blocks. *)
Definition two_results_message : RequestConverter.MessageParam :=
  {| RequestConverter.role := RequestConverter.user;
     RequestConverter.content :=
       RequestConverter.BlockContent
         [RequestConverter.TextBlock "see below";
          RequestConverter.ToolResultBlock "toolu_1" (RequestConverter.TRString "first");
          RequestConverter.ToolResultBlock "toolu_2" (RequestConverter.TRString "second")] |}.


(** A model manager that knows one model. *)
Definition known_models (name : string) : option RequestConverter.ModelConfig :=
  if String.eqb name "claude-3-5-sonnet-20241022" then Some sonnet_config
  else None.

Definition batch_body (model : string) : RequestConverter.MessageCreateRequest :=
  {| RequestConverter.model := model;
     RequestConverter.messages :=
       [{| RequestConverter.role := RequestConverter.user;
           RequestConverter.content := RequestConverter.StringContent "hello" |}];
     RequestConverter.system := None;
     RequestConverter.max_tokens := 1024;
     RequestConverter.temperature := None;
     RequestConverter.top_p := None;
     RequestConverter.stop_sequences := None;
     RequestConverter.tools := None;
     RequestConverter.stream := None;
     RequestConverter.thinking := false |}.

Definition batch_request (custom_id model : string) : Batches.BatchRequest :=
  {| Batches.custom_id := custom_id; Batches.body := batch_body model |}.

(** Five requests, the second for a model that is not configured. *)
Definition five_requests : list Batches.BatchRequest :=
  [batch_request "r1" "claude-3-5-sonnet-20241022";
   batch_request "r2" "no-such-model";
   batch_request "r3" "claude-3-5-sonnet-20241022";
   batch_request "r4" "claude-3-5-sonnet-20241022";
   batch_request "r5" "claude-3-5-sonnet-20241022"].

(** The job of [five_requests] right after its creation, after its first
    request has succeeded, and after a cancel request. *)
Definition five_created : Batches.JobState :=
  Batches.processBatchAsync known_models 0
    (Batches.new_batch "batch_1" 0 five_requests).

Definition five_resumed : Batches.JobState :=
  Batches.resume known_models 10 five_created (Batches.Resolved JNull).

Definition five_canceling : Batches.JobState :=
  {| Batches.job :=
       Batches.set_cancel_initiated_at 20
         (Batches.set_status Batches.canceling (Batches.job five_resumed));
     Batches.awaiting := Batches.awaiting five_resumed |}.

Definition five_store : gmap string Batches.JobState :=
  <["batch_1" := five_canceling]>
    (<["batch_1" := five_resumed]> (<["batch_1" := five_created]> ∅)).

(** A job of one request, observed while that request is in flight. *)
Definition one_store : gmap string Batches.JobState :=
  snd (Batches.create_handler known_models "batch_2" 0
         [batch_request "only" "claude-3-5-sonnet-20241022"] ∅).

(** Tool-call fragments that are never followed by a finish signal. *)
Definition unfinished_tool_stream : list ResponseConverter.Chunk :=
  [chunk_of (Some "Let me check.") None None;
   chunk_of None (Some [fragment (Some "get_weather") None]) None;
   chunk_of None (Some [fragment None (Some "{}")]) None].

Definition usage_chunk (prompt completion : Z) (finish : option string)
  : ResponseConverter.Chunk :=
  {| ResponseConverter.choices :=
       [{| ResponseConverter.delta :=
             Some {| ResponseConverter.d_content := Some "ok";
                     ResponseConverter.d_tool_calls := None |};
           ResponseConverter.finish_reason := finish |}];
     ResponseConverter.usage :=
       Some {| ResponseConverter.prompt_tokens := Some prompt;
               ResponseConverter.completion_tokens := Some completion |} |}.

(** Three chunks that report usage; the last one reports no completion
    tokens. *)
Definition usage_stream : list ResponseConverter.Chunk :=
  [usage_chunk 10 3 None; usage_chunk 12 7 None; usage_chunk 15 0 (Some "stop")].

(** The canceled job of [five_requests] once the request in flight has
    settled, and the store then. *)
Definition five_ended : Batches.JobState :=
  Batches.resume known_models 30 five_canceling (Batches.Resolved JNull).

Definition ended_store : gmap string Batches.JobState :=
  <["batch_1" := five_ended]> five_store.

(** A request for the small model with a large max_tokens, the request
    the messages route forwards for it under the built-in configuration,
    and the first model of the built-in table. *)
Definition haiku_request : RequestConverter.MessageCreateRequest :=
  {| RequestConverter.model := "claude-3-haiku-20240307";
     RequestConverter.messages :=
       [{| RequestConverter.role := RequestConverter.user;
           RequestConverter.content := RequestConverter.StringContent "hello" |}];
     RequestConverter.system := None;
     RequestConverter.max_tokens := 100000;
     RequestConverter.temperature := None;
     RequestConverter.top_p := None;
     RequestConverter.stop_sequences := None;
     RequestConverter.tools := None;
     RequestConverter.stream := None;
     RequestConverter.thinking := false |}.

Definition haiku_forwarded : RequestConverter.MessageCreateRequest :=
  Messages.set_max_tokens 8192
    (Messages.set_model "claude-3-5-sonnet-20241022" haiku_request).

Definition first_model : RequestConverter.ModelConfig :=
  {| RequestConverter.claudeModelName := "claude-3-5-sonnet-20241022";
     RequestConverter.openaiModelName := "gpt-4o";
     RequestConverter.maxTokens := 8192;
     RequestConverter.description := Some "Claude 3.5 Sonnet mapped to GPT-4o" |}.

(** The built-in table as a configuration file without a router section. *)
Definition plain_config : ModelManager.ModelConfigFile :=
  {| ModelManager.cf_models := ModelManager.DEFAULT_MODELS;
     ModelManager.cf_defaultModel := None;
     ModelManager.cf_router := None |}.

End Examples.
(** * Properties *)

(** ** Request converter *)

Section RequestConverterFacts.
Import RequestConverter.
Context `{Runtime}.

Lemma filter_head_find {A} (p : A -> bool) (l : list A) :
  head (List.filter p l) = find p l.
Proof.
  induction l as [|x l IH]; simpl; [reflexivity|].
  destruct (p x); simpl; auto.
Qed.

Lemma filter_empty_existsb {A} (p : A -> bool) (l : list A) :
  existsb p l = false -> List.filter p l = [].
Proof.
  induction l as [|x l IH]; simpl; [reflexivity|].
  destruct (p x); simpl; [discriminate|auto].
Qed.

Lemma find_existsb {A} (p : A -> bool) (l : list A) :
  existsb p l = true -> exists x, find p l = Some x /\ p x = true.
Proof.
  induction l as [|x l IH]; simpl; [discriminate|].
  destruct (p x) eqn:Hp; simpl; eauto.
Qed.

(** C1. The backend request carries
    [max_tokens = min(request.max_tokens, modelConfig.maxTokens, 8192)]:
    the least of the three, that is a value below each of them that is
    one of them. *)
Theorem max_tokens_is_min3 (claudeRequest : MessageCreateRequest)
    (modelConfig : ModelConfig) :
  let m := rq_max_tokens (convertClaudeToOpenAI claudeRequest modelConfig) in
  m = Z.min (max_tokens claudeRequest) (Z.min (maxTokens modelConfig) 8192)
  /\ m <= max_tokens claudeRequest
  /\ m <= maxTokens modelConfig
  /\ m <= 8192
  /\ (m = max_tokens claudeRequest \/ m = maxTokens modelConfig \/ m = 8192).
Proof.
  cbv zeta. unfold convertClaudeToOpenAI, absoluteMaxTokens. simpl.
  repeat split; lia.
Qed.

(** C10. A message whose content array holds a tool_result block and no
    tool_use block converts to the single [tool] message of its first
    tool_result block; the result is that of any other such message with
    the same first tool_result block, whatever else the two contain. *)
Theorem tool_result_message_first_only (m : MessageParam)
    (blocks : list ContentBlockParam) :
  content m = BlockContent blocks ->
  existsb is_tool_result blocks = true ->
  existsb is_tool_use blocks = false ->
  exists tool_use_id c,
    find is_tool_result blocks = Some (ToolResultBlock tool_use_id c)
    /\ convertMessage m =
         {| oa_role := oa_tool; oa_content := tool_result_text c;
            oa_tool_calls := None; oa_tool_call_id := Some tool_use_id |}
    /\ forall m' blocks',
         content m' = BlockContent blocks' ->
         existsb is_tool_use blocks' = false ->
         find is_tool_result blocks' = find is_tool_result blocks ->
         convertMessage m' = convertMessage m.
Proof.
  intros Hc Hres Huse.
  destruct (find_existsb _ _ Hres) as (b & Hfind & Hb).
  destruct b as [| | | | |tool_use_id c|]; try discriminate Hb.
  exists tool_use_id, c.
  assert (Hconv : forall m1 bs1,
             content m1 = BlockContent bs1 ->
             existsb is_tool_use bs1 = false ->
             find is_tool_result bs1 = Some (ToolResultBlock tool_use_id c) ->
             convertMessage m1 =
               {| oa_role := oa_tool; oa_content := tool_result_text c;
                  oa_tool_calls := None; oa_tool_call_id := Some tool_use_id |}).
  { intros m1 bs1 Hc1 Hu1 Hf1. unfold convertMessage. rewrite Hc1.
    rewrite (filter_empty_existsb _ _ Hu1). simpl.
    pose proof (filter_head_find is_tool_result bs1) as Hh.
    rewrite Hf1 in Hh.
    destruct (List.filter is_tool_result bs1) as [|b0 rest]; [discriminate|].
    simpl in Hh. injection Hh as ->. reflexivity. }
  split; [exact Hfind|]. split; [exact (Hconv m blocks Hc Huse Hfind)|].
  intros m' blocks' Hc' Hu' Hf'.
  rewrite (Hconv m blocks Hc Huse Hfind).
  apply (Hconv m' blocks' Hc' Hu'). now rewrite Hf'.
Qed.

End RequestConverterFacts.

Lemma tool_result_message_first_only_witness :
  exists tool_use_id c,
    find RequestConverter.is_tool_result
      [RequestConverter.TextBlock "see below";
       RequestConverter.ToolResultBlock "toolu_1" (RequestConverter.TRString "first");
       RequestConverter.ToolResultBlock "toolu_2" (RequestConverter.TRString "second")]
    = Some (RequestConverter.ToolResultBlock tool_use_id c)
    /\ @RequestConverter.convertMessage JsonText.runtime Examples.two_results_message
       = {| RequestConverter.oa_role := RequestConverter.oa_tool;
            RequestConverter.oa_content :=
              @RequestConverter.tool_result_text JsonText.runtime c;
            RequestConverter.oa_tool_calls := None;
            RequestConverter.oa_tool_call_id := Some tool_use_id |}
    /\ forall m' blocks',
         RequestConverter.content m' = RequestConverter.BlockContent blocks' ->
         existsb RequestConverter.is_tool_use blocks' = false ->
         find RequestConverter.is_tool_result blocks'
         = find RequestConverter.is_tool_result
             [RequestConverter.TextBlock "see below";
              RequestConverter.ToolResultBlock "toolu_1" (RequestConverter.TRString "first");
              RequestConverter.ToolResultBlock "toolu_2" (RequestConverter.TRString "second")] ->
         @RequestConverter.convertMessage JsonText.runtime m'
         = @RequestConverter.convertMessage JsonText.runtime Examples.two_results_message.
Proof.
  apply (@tool_result_message_first_only JsonText.runtime
           Examples.two_results_message); reflexivity.
Defined.

(** ** Stream reconstructor: the order of the events *)

Section StreamShape.
Import ResponseConverter.
Context `{Runtime}.

Lemma deltas_at (i : nat) (mk : string -> BlockDelta) (l : list string) :
  Forall (is_delta_at i) (map (fun c => ContentBlockDelta i (mk c)) l).
Proof. induction l; simpl; constructor; simpl; auto. Qed.

Lemma tool_block_at (i : nat) (tc : ToolCallBuf) : block_at i (tool_block i tc).
Proof. unfold tool_block. constructor. apply deltas_at. Qed.

(** Unless the missing [slice] is reached, the explanatory block is one
    content block and the generator goes on. *)
Lemma explanatory_block_returned (i : nat) (calls : list ToolCallBuf) :
  slice_fails (explanatoryText calls) = false ->
  snd (explanatory_block i calls) = Returned
  /\ block_at i (fst (explanatory_block i calls)).
Proof.
  unfold explanatory_block.
  destruct (explanatoryText calls) as [text|[|n]|]; simpl; intros Hs;
    try discriminate; (split; [reflexivity|]).
  - constructor. apply deltas_at.
  - apply (block_at_intro i (CBText "") []). constructor.
  - apply (block_at_intro i (CBText "") []). constructor.
Qed.

(** When it is reached, the block is left open after its start. *)
Lemma explanatory_block_thrown (i : nat) (calls : list ToolCallBuf) :
  slice_fails (explanatoryText calls) = true ->
  explanatory_block i calls = ([ContentBlockStart i (CBText "")], Thrown).
Proof.
  unfold explanatory_block.
  destruct (explanatoryText calls) as [text|[|n]|]; simpl; intros Hs;
    try discriminate; reflexivity.
Qed.

(** The missing [slice] is only reached through the name of a call. *)
Lemma slice_fails_named (calls : list ToolCallBuf) :
  slice_fails (explanatoryText calls) = true ->
  (0 <? length calls)%nat && existsb has_name calls = true.
Proof.
  unfold explanatoryText, firstToolName.
  destruct (find has_name calls) as [tc|] eqn:Hfind.
  - intros _. apply find_some in Hfind as [Hin Hn].
    assert (He : existsb has_name calls = true)
      by (apply existsb_exists; eauto).
    rewrite He. destruct calls; [destruct Hin|reflexivity].
  - simpl. discriminate.
Qed.

Lemma tool_blocks_from (calls : list ToolCallBuf) (i : nat) :
  blocks_from i (tool_blocks i calls)
              (i + length (List.filter has_name calls)).
Proof.
  revert i. induction calls as [|tc calls IH]; intros i;
    cbn [tool_blocks List.filter].
  - simpl. rewrite Nat.add_0_r. constructor.
  - destruct (has_name tc); cbn [length].
    + constructor; [apply tool_block_at|].
      replace (i + S (length (List.filter has_name calls)))%nat
        with (S i + length (List.filter has_name calls))%nat by lia.
      apply IH.
    + apply IH.
Qed.

Lemma blocks_from_app i a j b k :
  blocks_from i a j -> blocks_from j b k -> blocks_from i (a ++ b)%list k.
Proof.
  induction 1 as [|i blk rest j Hb Hrest IH]; intros Hk; simpl; [exact Hk|].
  rewrite <- app_assoc. constructor; auto.
Qed.

Lemma blocks_from_one i b : block_at i b -> blocks_from i b (S i).
Proof.
  intros Hb. rewrite <- (app_nil_r b). constructor; [exact Hb|constructor].
Qed.

Lemma process_chunk_yield id model st evs chunk :
  loop_yield id model st evs ->
  loop_yield id model (fst (process_chunk id model st chunk))
             (evs ++ snd (process_chunk id model st chunk))%list.
Proof.
  intros Hinv. unfold process_chunk.
  destruct (fold_left accumulate (tool_deltas_of chunk)
              (toolCallsBuffer st, draws st)) as [buf n].
  destruct (match usage chunk with
            | Some u => _ | None => _ end) as [tin tout].
  destruct Hinv as [st Hs Hf Ha|st Hs Ha|st ds Hs Ha Hds];
    rewrite Hs, Ha; simpl;
    destruct (text_of chunk) as [t|]; simpl.
  - apply (yield_text _ _ _ [ContentBlockDelta 0 (TextDelta t)]); simpl; auto.
    repeat constructor.
  - apply yield_started; auto.
  - apply (yield_text _ _ _ [ContentBlockDelta 0 (TextDelta t)]); simpl; auto.
    repeat constructor.
  - apply yield_started; auto.
  - apply (yield_text _ _ _ (ds ++ [ContentBlockDelta 0 (TextDelta t)])%list);
      simpl; auto.
    apply Forall_app; split; [exact Hds|]. constructor; simpl; auto.
  - rewrite app_nil_r. apply yield_text; auto.
Qed.

Lemma process_chunks_yield id model chunks st evs :
  loop_yield id model st evs ->
  loop_yield id model (fst (process_chunks id model st chunks))
             (evs ++ snd (process_chunks id model st chunks))%list.
Proof.
  revert st evs. induction chunks as [|chunk rest IH]; intros st evs Hinv; simpl.
  - rewrite app_nil_r. exact Hinv.
  - pose proof (process_chunk_yield id model st evs chunk Hinv) as H1.
    destruct (process_chunk id model st chunk) as [st1 evs1]. simpl in H1.
    pose proof (IH st1 _ H1) as H2.
    destruct (process_chunks id model st1 rest) as [st2 evs2]. simpl in *.
    rewrite app_assoc. exact H2.
Qed.

Lemma process_chunk_finished id model st chunk :
  hasFinished (fst (process_chunk id model st chunk))
  = hasFinished st || finish_of chunk.
Proof.
  unfold process_chunk.
  destruct (match text_of chunk with Some t => _ | None => _ end).
  destruct (fold_left accumulate _ _).
  destruct (match usage chunk with Some u => _ | None => _ end).
  reflexivity.
Qed.

Lemma process_chunks_finished id model chunks st :
  hasFinished (fst (process_chunks id model st chunks))
  = hasFinished st || existsb finish_of chunks.
Proof.
  revert st. induction chunks as [|chunk rest IH]; intros st; simpl.
  - now rewrite orb_false_r.
  - pose proof (process_chunk_finished id model st chunk) as H1.
    destruct (process_chunk id model st chunk) as [st1 evs1]. simpl in H1.
    specialize (IH st1).
    destruct (process_chunks id model st1 rest) as [st2 evs2]. simpl in *.
    rewrite IH, H1. now rewrite orb_assoc.
Qed.

(** The state of the loop does not depend on the identifier and the model
    that the message_start carries. *)
Lemma process_chunks_state id model id' model' chunks st :
  fst (process_chunks id model st chunks)
  = fst (process_chunks id' model' st chunks).
Proof.
  revert st. induction chunks as [|chunk rest IH]; intros st; [reflexivity|].
  cbn [process_chunks].
  assert (H1 : fst (process_chunk id model st chunk)
               = fst (process_chunk id' model' st chunk)).
  { unfold process_chunk.
    destruct (match text_of chunk with Some t => _ | None => _ end).
    destruct (fold_left accumulate _ _).
    destruct (match usage chunk with Some u => _ | None => _ end).
    reflexivity. }
  destruct (process_chunk id model st chunk) as [st1 e1].
  destruct (process_chunk id' model' st chunk) as [st1' e1'].
  simpl in H1. subst st1'. specialize (IH st1).
  destruct (process_chunks id model st1 rest) as [st2 e2].
  destruct (process_chunks id' model' st1 rest) as [st2' e2'].
  exact IH.
Qed.

(** The generator yields the events of the loop, then those of the part
    after it, and ends as that part ends. *)
Lemma run_events (openAIStream : list Chunk) (claudeModel : string) :
  run openAIStream claudeModel
  = ((snd (process_chunks messageId claudeModel initial openAIStream)
      ++ fst (finalize
                (fst (process_chunks messageId claudeModel initial openAIStream))))%list,
     snd (finalize
            (fst (process_chunks messageId claudeModel initial openAIStream)))).
Proof.
  unfold run.
  destruct (process_chunks messageId claudeModel initial openAIStream)
    as [st evs].
  cbn [fst snd].
  destruct (finalize st) as [last_events completion]. reflexivity.
Qed.

Lemma explanation_throws_state (openAIStream : list Chunk) (claudeModel : string) :
  explanation_throws openAIStream
  = slice_fails
      (explanatoryText
         (map snd
            (toolCallsBuffer
               (fst (process_chunks messageId claudeModel initial openAIStream))))).
Proof.
  unfold explanation_throws, final_buffer.
  now rewrite (process_chunks_state messageId "" messageId claudeModel).
Qed.

(** The part after the loop when the explanatory block does not throw. *)
Lemma finalize_returned (st : State) :
  hasFinished st = true ->
  slice_fails (explanatoryText (map snd (toolCallsBuffer st))) = false ->
  finalize st
  = ((map ContentBlockStop (activeContentBlocks st)
      ++ (if (0 <? length (map snd (toolCallsBuffer st)))%nat
             && existsb has_name (map snd (toolCallsBuffer st))
          then fst (explanatory_block
                      (if (0 <? length (activeContentBlocks st))%nat
                       then S (foldr Nat.max 0%nat (activeContentBlocks st))
                       else 0%nat)
                      (map snd (toolCallsBuffer st)))
          else [])
      ++ tool_blocks
           (if (0 <? length (map snd (toolCallsBuffer st)))%nat
               && existsb has_name (map snd (toolCallsBuffer st))
            then S (if (0 <? length (activeContentBlocks st))%nat
                    then S (foldr Nat.max 0%nat (activeContentBlocks st))
                    else 0%nat)
            else if (0 <? length (activeContentBlocks st))%nat
                 then S (foldr Nat.max 0%nat (activeContentBlocks st))
                 else 0%nat)
           (map snd (toolCallsBuffer st))
      ++ [MessageDelta "tool_use" (totalOutputTokens st) (totalInputTokens st);
          MessageStop])%list,
     Returned).
Proof.
  intros Hf Hs. unfold finalize. rewrite Hf. cbv zeta.
  destruct ((0 <? length (map snd (toolCallsBuffer st)))%nat
            && existsb has_name (map snd (toolCallsBuffer st)));
    [|reflexivity].
  match goal with
  | |- context [explanatory_block ?i ?calls] =>
      destruct (explanatory_block_returned i calls Hs) as [Hr _];
      destruct (explanatory_block i calls) as [explanation c]
  end.
  simpl in Hr. subst c. reflexivity.
Qed.

(** The part after the loop when it does: the open blocks are closed, the
    explanatory block is started, and nothing follows. *)
Lemma finalize_thrown (st : State) :
  hasFinished st = true ->
  slice_fails (explanatoryText (map snd (toolCallsBuffer st))) = true ->
  finalize st
  = ((map ContentBlockStop (activeContentBlocks st)
      ++ [ContentBlockStart
            (if (0 <? length (activeContentBlocks st))%nat
             then S (foldr Nat.max 0%nat (activeContentBlocks st))
             else 0%nat)
            (CBText "")])%list,
     Thrown).
Proof.
  intros Hf Hs. unfold finalize. rewrite Hf. cbv zeta.
  rewrite (slice_fails_named _ Hs).
  now rewrite (explanatory_block_thrown _ _ Hs).
Qed.

(** The events of a stream that carries a finish signal and on which the
    explanatory block does not throw. *)
Lemma finished_stream_events (openAIStream : list Chunk) (claudeModel : string) :
  existsb finish_of openAIStream = true ->
  explanation_throws openAIStream = false ->
  exists blocks n out inp,
    convertOpenAIStreamToClaude openAIStream claudeModel
    = (MessageStart messageId claudeModel
       :: blocks ++ [MessageDelta "tool_use" out inp; MessageStop])%list
    /\ blocks_from 0 blocks n.
Proof.
  intros Hfin Hsafe. unfold convertOpenAIStreamToClaude.
  rewrite run_events. cbn [fst].
  rewrite (explanation_throws_state openAIStream claudeModel) in Hsafe.
  pose proof (process_chunks_yield messageId claudeModel openAIStream
                initial [] (yield_nothing _ _ initial eq_refl eq_refl eq_refl))
    as Hy.
  pose proof (process_chunks_finished messageId claudeModel openAIStream initial)
    as Hf.
  destruct (process_chunks messageId claudeModel initial openAIStream)
    as [st evs].
  simpl in Hy, Hf, Hsafe. rewrite Hfin in Hf. cbn [fst snd].
  rewrite (finalize_returned st Hf Hsafe). cbn [fst snd].
  set (calls := map snd (toolCallsBuffer st)) in *.
  set (explain := (0 <? length calls)%nat && existsb has_name calls).
  inversion Hy as [st0 Hs Hnf Ha|st0 Hs Ha|st0 ds Hs Ha Hds]; subst.
  - congruence.
  - rewrite Ha. cbn [length Nat.ltb Nat.leb map app].
    destruct explain.
    + destruct (explanatory_block_returned 0 calls Hsafe) as [_ He].
      pose proof (tool_blocks_from calls 1) as Ht.
      revert He Ht.
      generalize (fst (explanatory_block 0 calls)) (tool_blocks 1 calls).
      intros eb tb He Ht.
      exists (eb ++ tb)%list. eexists _, _, _. split.
      * rewrite <- app_assoc. reflexivity.
      * eapply blocks_from_app; [apply blocks_from_one, He|exact Ht].
    + eexists _, _, _, _. split; [reflexivity|apply tool_blocks_from].
  - rewrite Ha. cbn [length Nat.ltb Nat.leb map foldr Nat.max].
    assert (Hb0 : blocks_from 0 (ContentBlockStart 0 (CBText "")
                                 :: ds ++ [ContentBlockStop 0])%list 1).
    { apply blocks_from_one. constructor. exact Hds. }
    destruct explain.
    + destruct (explanatory_block_returned 1 calls Hsafe) as [_ He].
      pose proof (tool_blocks_from calls 2) as Ht.
      revert He Ht.
      generalize (fst (explanatory_block 1 calls)) (tool_blocks 2 calls).
      intros eb tb He Ht.
      exists ((ContentBlockStart 0 (CBText "") :: ds ++ [ContentBlockStop 0])
              ++ eb ++ tb)%list.
      eexists _, _, _. split.
      * simpl. rewrite <- !app_assoc. reflexivity.
      * eapply blocks_from_app; [exact Hb0|].
        eapply blocks_from_app; [apply blocks_from_one, He|exact Ht].
    + pose proof (tool_blocks_from calls 1) as Ht.
      revert Ht. generalize (tool_blocks 1 calls). intros tb Ht.
      exists ((ContentBlockStart 0 (CBText "") :: ds ++ [ContentBlockStop 0])
              ++ tb)%list.
      eexists _, _, _. split.
      * simpl. rewrite <- !app_assoc. reflexivity.
      * eapply blocks_from_app; [exact Hb0|exact Ht].
Qed.

Lemma block_at_events i b : block_at i b -> forallb is_block_event b = true.
Proof.
  intros [cb ds Hds]. simpl. rewrite forallb_app. simpl. rewrite andb_true_r.
  induction Hds as [|e ds He _ IH]; simpl; [reflexivity|].
  rewrite IH, andb_true_r. destruct e; simpl in He; try contradiction; reflexivity.
Qed.

Lemma blocks_from_events i b j :
  blocks_from i b j -> forallb is_block_event b = true.
Proof.
  induction 1 as [|i blk rest j Hb _ IH]; simpl; [reflexivity|].
  rewrite forallb_app, IH, (block_at_events _ _ Hb). reflexivity.
Qed.

Lemma no_message_delta_in_blocks b :
  forallb is_block_event b = true -> List.filter is_message_delta b = [].
Proof.
  induction b as [|e b IH]; simpl; [reflexivity|].
  intros Hb. apply andb_true_iff in Hb as [He Hb].
  destruct e; simpl in *; try discriminate; auto.
Qed.

Lemma omap_deltas (f : StreamEvent -> option nat) (i : nat) (ds : list StreamEvent) :
  (forall j d, f (ContentBlockDelta j d) = None) ->
  Forall (is_delta_at i) ds -> omap f ds = [].
Proof.
  intros Hf. induction 1 as [|e ds He _ IH]; [reflexivity|].
  destruct e; simpl in He; try contradiction.
  simpl. now rewrite Hf.
Qed.

(** The starts, and the stops, of the blocks with the indices [i .. j-1]
    are one per index, in increasing order. *)
Lemma blocks_from_indices i b j :
  blocks_from i b j ->
  (i <= j)%nat
  /\ omap start_index b = seq i (j - i)
  /\ omap stop_index b = seq i (j - i).
Proof.
  induction 1 as [i|i blk rest j [cb ds Hds] _ (Hle & IHs & IHe)].
  - rewrite Nat.sub_diag. auto.
  - replace (j - i)%nat with (S (j - S i)) by lia.
    split; [lia|]. cbn [seq].
    rewrite !omap_app. simpl. rewrite !omap_app.
    rewrite (omap_deltas start_index i ds), (omap_deltas stop_index i ds)
      by (exact Hds || reflexivity).
    simpl. rewrite IHs, IHe. auto.
Qed.

(** A well-formed sequence holds one message_start, one message_delta and
    one message_stop, in this order with the blocks between the first two,
    and the blocks start, and stop, once each in increasing order. *)
Lemma well_formed_counts (evs : list StreamEvent) :
  well_formed evs ->
  length (List.filter is_message_start evs) = 1%nat
  /\ length (List.filter is_message_delta evs) = 1%nat
  /\ length (List.filter is_message_stop evs) = 1%nat
  /\ exists n, omap start_index evs = seq 0 n /\ omap stop_index evs = seq 0 n.
Proof.
  intros (id & model & blocks & n & sr & out & inp & -> & Hb).
  pose proof (blocks_from_events _ _ _ Hb) as Hev.
  destruct (blocks_from_indices _ _ _ Hb) as (_ & Hs & He).
  assert (Hnone : forall p : StreamEvent -> bool,
             (forall e, is_block_event e = true -> p e = false) ->
             List.filter p blocks = []).
  { intros p Hp. clear Hb Hs He. induction blocks as [|e bs IH]; [reflexivity|].
    simpl in Hev. apply andb_true_iff in Hev as [He Hbs].
    simpl. rewrite (Hp e He). auto. }
  cbn [List.filter is_message_start is_message_delta is_message_stop].
  rewrite !List.filter_app.
  rewrite (Hnone is_message_start), (Hnone is_message_delta),
    (Hnone is_message_stop) by (intros []; simpl; congruence).
  repeat split; try reflexivity.
  exists n. simpl.
  rewrite !omap_app, Hs, He, Nat.sub_0_r. simpl. now rewrite !app_nil_r.
Qed.

(** The generator ends by the exception exactly when the stream carries a
    finish signal and its first named tool call makes the explanatory
    block throw. *)
Lemma run_thrown_iff (openAIStream : list Chunk) (claudeModel : string) :
  snd (run openAIStream claudeModel) = Thrown
  <-> existsb finish_of openAIStream = true
      /\ explanation_throws openAIStream = true.
Proof.
  rewrite run_events. cbn [snd].
  rewrite (explanation_throws_state openAIStream claudeModel).
  pose proof (process_chunks_finished messageId claudeModel openAIStream initial)
    as Hf.
  destruct (process_chunks messageId claudeModel initial openAIStream)
    as [st evs].
  cbn [fst snd] in *. simpl in Hf. rewrite <- Hf.
  destruct (hasFinished st) eqn:Hfin.
  - destruct (slice_fails (explanatoryText (map snd (toolCallsBuffer st))))
      eqn:Hs.
    + rewrite (finalize_thrown st Hfin Hs). simpl. tauto.
    + rewrite (finalize_returned st Hfin Hs). simpl.
      split; [discriminate|intros [_ E]; discriminate].
  - unfold finalize. rewrite Hfin. simpl.
    split; [discriminate|intros [E _]; discriminate].
Qed.

(** The tool names on which the explanatory block throws: the members
    that every object inherits as functions with declared parameters. *)
Lemma slice_fails_names (calls : list ToolCallBuf) :
  slice_fails (explanatoryText calls) = true
  <-> In (firstToolName calls)
         ["constructor"; "hasOwnProperty"; "isPrototypeOf";
          "propertyIsEnumerable"; "__lookupGetter__"; "__lookupSetter__";
          "__defineGetter__"; "__defineSetter__"].
Proof.
  unfold explanatoryText, explanatoryTexts.
  generalize (firstToolName calls). intros name.
  repeat match goal with
         | |- context [String.eqb name ?c] =>
             let E := fresh "E" in
             destruct (String.eqb_spec name c) as [E|E];
             [rewrite E; clear; simpl; split;
              [intros Hs; first [discriminate Hs|auto 12]
              |intros Hin; try reflexivity;
               repeat (destruct Hin as [Hin|Hin]; try discriminate Hin);
               destruct Hin]
             |]
         end.
  simpl. split; [discriminate|].
  intros Hin.
  repeat (destruct Hin as [Hin|Hin]; [symmetry in Hin; contradiction|]).
  destruct Hin.
Qed.

(** C2, for the streams that carry a finish signal and on which the
    explanatory block does not throw. For every chunk sequence in which
    some chunk carries a finish signal, and whose first named tool call is
    not named after a function with declared parameters that every object
    inherits (constructor, hasOwnProperty and the like), the events
    are: one message_start; then the content blocks with the indices 0, 1,
    2, ... in this order, each one content_block_start, its
    content_block_delta events and one content_block_stop; then one
    message_delta; then one message_stop. *)
Theorem finished_stream_well_formed (openAIStream : list Chunk)
    (claudeModel : string) :
  existsb finish_of openAIStream = true ->
  explanation_throws openAIStream = false ->
  well_formed (convertOpenAIStreamToClaude openAIStream claudeModel).
Proof.
  intros Hfin Hsafe.
  destruct (finished_stream_events openAIStream claudeModel Hfin Hsafe)
    as (blocks & n & out & inp & Heq & Hblocks).
  exists messageId, claudeModel, blocks, n, "tool_use", out, inp. auto.
Qed.


End StreamShape.

Lemma finished_stream_well_formed_witness :
  existsb ResponseConverter.finish_of Examples.text_stream = true
  /\ @ResponseConverter.explanation_throws JsonText.runtime Examples.text_stream
     = false
  /\ ResponseConverter.well_formed
       (@ResponseConverter.convertOpenAIStreamToClaude JsonText.runtime
          Examples.text_stream "claude").
Proof.
  split; [reflexivity|]. split; [reflexivity|].
  apply (@finished_stream_well_formed JsonText.runtime); reflexivity.
Defined.



(** The same stream is not of the shape of C2 either. *)
Lemma thrown_stream_not_well_formed :
  ~ ResponseConverter.well_formed
      (@ResponseConverter.convertOpenAIStreamToClaude JsonText.runtime
         Examples.constructor_stream "claude").
Proof.
  intros (id & model & blocks & n & sr & out & inp & Heq & _).
  apply (f_equal (@last _)) in Heq.
  change (ResponseConverter.MessageStart id model
          :: blocks ++ [ResponseConverter.MessageDelta sr out inp;
                        ResponseConverter.MessageStop])%list
    with ((ResponseConverter.MessageStart id model :: blocks)
          ++ [ResponseConverter.MessageDelta sr out inp;
              ResponseConverter.MessageStop])%list in Heq.
  rewrite last_app in Heq. vm_compute in Heq. discriminate Heq.
Qed.

(** A stream of text that ends without a finish signal leaves block 0 open
    and yields neither message_delta nor message_stop. *)
Lemma unfinished_stream_not_well_formed :
  ~ ResponseConverter.well_formed
      (@ResponseConverter.convertOpenAIStreamToClaude JsonText.runtime
         Examples.unfinished_text_stream "claude").
Proof.
  intros (id & model & blocks & n & sr & out & inp & Heq & _).
  apply (f_equal (@last _)) in Heq.
  change (ResponseConverter.MessageStart id model
          :: blocks ++ [ResponseConverter.MessageDelta sr out inp;
                        ResponseConverter.MessageStop])%list
    with ((ResponseConverter.MessageStart id model :: blocks)
          ++ [ResponseConverter.MessageDelta sr out inp;
              ResponseConverter.MessageStop])%list in Heq.
  rewrite last_app in Heq. vm_compute in Heq. discriminate Heq.
Qed.

(** An empty stream yields no event at all. *)
Lemma empty_stream_no_event :
  @ResponseConverter.convertOpenAIStreamToClaude JsonText.runtime [] "claude" = [].
Proof. reflexivity. Qed.

(** ** Stream reconstructor: the accumulation of tool calls *)

Section Accumulation.
Import ResponseConverter.
Context `{Runtime}.

Lemma append_nil_r (s : string) : s ++ "" = s.
Proof.
  induction s as [|c s IH]; [reflexivity|].
  change (String c (s ++ "") = String c s). now rewrite IH.
Qed.

Lemma append_assoc (s1 s2 s3 : string) : (s1 ++ s2) ++ s3 = s1 ++ (s2 ++ s3).
Proof.
  induction s1 as [|c s1 IH]; [reflexivity|].
  change (String c ((s1 ++ s2) ++ s3) = String c (s1 ++ (s2 ++ s3))).
  now rewrite IH.
Qed.

Lemma concat_text_snoc (l : list string) (s : string) :
  concat_text (l ++ [s])%list = concat_text l ++ s.
Proof.
  induction l as [|x l IH]; simpl.
  - now rewrite append_nil_r.
  - now rewrite IH, append_assoc.
Qed.

Lemma truthy_false_empty (s : string) : Js.truthy s = false -> s = "".
Proof. destruct s; [reflexivity|discriminate]. Qed.

Lemma buf_lookup_snoc k (buf : Buffer) k' e :
  buf_lookup k (buf ++ [(k', e)])%list
  = match buf_lookup k buf with
    | Some x => Some x
    | None => if (k =? k')%nat then Some e else None
    end.
Proof.
  induction buf as [|[k0 e0] buf IH]; simpl; [reflexivity|].
  destruct (k =? k0)%nat; [reflexivity|exact IH].
Qed.

Lemma buf_lookup_alter g k k' buf :
  buf_lookup k (buf_alter g k' buf)
  = if (k =? k')%nat then g <$> buf_lookup k buf else buf_lookup k buf.
Proof.
  induction buf as [|[k0 e0] buf IH]; simpl.
  - now destruct (k =? k')%nat.
  - destruct (k' =? k0)%nat eqn:E1; simpl.
    + apply Nat.eqb_eq in E1. subst k0.
      now destruct (k =? k')%nat.
    + destruct (k =? k0)%nat eqn:E2.
      * apply Nat.eqb_eq in E2. subst k0.
        rewrite Nat.eqb_sym, E1. reflexivity.
      * exact IH.
Qed.

(** A fragment leaves the entries of the other calls alone. *)
Lemma accumulate_other buf n f k :
  k <> key_of f ->
  buf_lookup k (fst (accumulate (buf, n) f)) = buf_lookup k buf.
Proof.
  intros Hk. apply Nat.eqb_neq in Hk.
  unfold accumulate.
  destruct (buf_lookup (key_of f) buf) as [e0|];
    destruct (tcd_id f) as [i|]; try destruct (Js.truthy i);
    destruct (fn_name_of f) as [nm|]; try destruct (Js.truthy nm);
    destruct (fn_arguments_of f) as [a|]; try destruct (Js.truthy a);
    simpl; rewrite ?buf_lookup_alter, ?buf_lookup_snoc, ?Hk;
    destruct (buf_lookup k buf); reflexivity.
Qed.

(** What a fragment does to the entry of its own call. *)
Lemma accumulate_same buf n f :
  exists e',
    buf_lookup (key_of f) (fst (accumulate (buf, n) f)) = Some e'
    /\ b_arguments e'
       = match buf_lookup (key_of f) buf with
         | Some e => b_arguments e
         | None => ""
         end ++ arguments_text f
    /\ b_name e'
       = (if Js.truthy (name_text f) then name_text f
          else match buf_lookup (key_of f) buf with
               | Some e => b_name e
               | None => ""
               end)
    /\ match buf_lookup (key_of f) buf with
       | Some e => Js.truthy (b_id e) = true -> b_id e' = b_id e
       | None =>
           Js.truthy (b_id e') = true
           /\ forall i, tcd_id f = Some i -> Js.truthy i = true -> b_id e' = i
       end.
Proof.
  unfold accumulate, arguments_text, name_text.
  destruct (buf_lookup (key_of f) buf) as [e0|] eqn:E0;
    destruct (tcd_id f) as [i|]; try destruct (Js.truthy i) eqn:Ei;
    destruct (fn_name_of f) as [nm|]; try destruct (Js.truthy nm) eqn:En;
    destruct (fn_arguments_of f) as [a|]; try destruct (Js.truthy a) eqn:Ea;
    simpl;
    rewrite ?buf_lookup_alter, ?buf_lookup_snoc, ?Nat.eqb_refl, ?E0; simpl;
    rewrite ?Ei, ?En; simpl;
    try (destruct (Js.truthy (b_id e0)) eqn:Eid; simpl);
    try (apply truthy_false_empty in Ea; subst a);
    try (apply truthy_false_empty in En; subst nm);
    eexists; (split; [reflexivity|]); simpl;
    rewrite ?append_nil_r;
    repeat split; auto; try congruence;
    try (intros Hid; rewrite Hid; reflexivity);
    try (intros i0 Hi0; injection Hi0 as <-; congruence).
Qed.

Lemma fragments_at_snoc_same frs f :
  fragments_at (key_of f) (frs ++ [f]) = (fragments_at (key_of f) frs ++ [f])%list.
Proof.
  unfold fragments_at. rewrite List.filter_app. simpl.
  now rewrite Nat.eqb_refl.
Qed.

Lemma fragments_at_snoc_other frs f k :
  k <> key_of f -> fragments_at k (frs ++ [f]) = fragments_at k frs.
Proof.
  intros Hk. unfold fragments_at. rewrite List.filter_app. simpl.
  destruct (key_of f =? k)%nat eqn:E.
  - apply Nat.eqb_eq in E. congruence.
  - apply app_nil_r.
Qed.

Lemma last_name_snoc_same frs f :
  last_name (key_of f) (frs ++ [f])
  = if Js.truthy (name_text f) then name_text f else last_name (key_of f) frs.
Proof.
  unfold last_name, nonempty_names.
  rewrite fragments_at_snoc_same, map_app, List.filter_app. simpl.
  destruct (Js.truthy (name_text f)).
  - now rewrite last_snoc.
  - now rewrite app_nil_r.
Qed.

Lemma fold_accumulate_accumulates n0 frs :
  accumulates frs (fst (fold_left accumulate frs ([], n0))).
Proof.
  induction frs as [|f frs IH] using rev_ind.
  - intros k. reflexivity.
  - rewrite fold_left_app. simpl.
    destruct (fold_left accumulate frs ([], n0)) as [buf n]. simpl in IH.
    intros k. destruct (Nat.eq_dec k (key_of f)) as [->|Hk].
    + destruct (accumulate_same buf n f) as (e' & Hl & Ha & Hn & Hi).
      rewrite Hl. specialize (IH (key_of f)).
      rewrite fragments_at_snoc_same, last_name_snoc_same, map_app.
      simpl. rewrite concat_text_snoc.
      destruct (buf_lookup (key_of f) buf) as [e|].
      * destruct IH as (Hne & IHa & IHn & IHt & IHi).
        specialize (Hi IHt).
        split; [now destruct (fragments_at (key_of f) frs)|].
        split; [now rewrite Ha, IHa|].
        split; [now rewrite Hn, IHn|].
        split; [now rewrite Hi|].
        intros f0 i Hhead. rewrite Hi. apply IHi.
        destruct (fragments_at (key_of f) frs); [congruence|exact Hhead].
      * destruct Hi as [Ht Hi]. rewrite IH. simpl.
        split; [discriminate|].
        split; [exact Ha|].
        split; [rewrite Hn; unfold last_name, nonempty_names;
                now rewrite IH|].
        split; [exact Ht|].
        intros f0 i Hhead. injection Hhead as <-. apply Hi.
    + rewrite accumulate_other by exact Hk.
      unfold last_name, nonempty_names.
      rewrite fragments_at_snoc_other by exact Hk.
      apply IH.
Qed.

(** The loop feeds the fragments to [accumulate] in arrival order. *)
Lemma process_chunks_buffer id model chunks st :
  (toolCallsBuffer (fst (process_chunks id model st chunks)),
   draws (fst (process_chunks id model st chunks)))
  = fold_left accumulate (fragments chunks) (toolCallsBuffer st, draws st).
Proof.
  revert st. induction chunks as [|chunk rest IH]; intros st.
  - reflexivity.
  - unfold fragments. cbn [map concat process_chunks].
    rewrite fold_left_app.
    assert (H1 : (toolCallsBuffer (fst (process_chunk id model st chunk)),
                  draws (fst (process_chunk id model st chunk)))
                 = fold_left accumulate (tool_deltas_of chunk)
                     (toolCallsBuffer st, draws st)).
    { unfold process_chunk.
      destruct (match text_of chunk with Some t => _ | None => _ end).
      destruct (fold_left accumulate _ _).
      destruct (match usage chunk with Some u => _ | None => _ end).
      reflexivity. }
    destruct (process_chunk id model st chunk) as [st1 evs1]. simpl in H1.
    specialize (IH st1). rewrite <- H1.
    destruct (process_chunks id model st1 rest) as [st2 evs2].
    exact IH.
Qed.

Lemma final_buffer_accumulates chunks :
  accumulates (fragments chunks) (final_buffer chunks).
Proof.
  unfold final_buffer.
  pose proof (process_chunks_buffer messageId "" chunks initial) as Hb.
  pose proof (fold_accumulate_accumulates 2 (fragments chunks)) as Ha.
  change (toolCallsBuffer initial, draws initial)
    with (@nil (nat * ToolCallBuf), 2%nat) in Hb.
  rewrite <- Hb in Ha. exact Ha.
Qed.

(** C3, with the name of the last fragment that carries one. The
    fragments of a stream are accumulated per call index into a buffer
    entry [{id, name, arguments}]: the entry exists when a
    fragment of that index has arrived; its arguments are the argument
    strings of these fragments joined in arrival order; its name is the last
    non-empty name among them; its id is the id of the first of them when
    that is not empty. For the three fragments of [Examples.weather_stream]
    at call index 0 (the name get_weather, then the argument text in two
    pieces), followed by the finish signal, the events hold one tool_use
    block, of name get_weather, whose input JSON parses to the object with
    the one member loc = NYC. *)
Theorem tool_call_accumulation (openAIStream : list Chunk) (k : nat) :
  let frs := fragments openAIStream in
  (buf_lookup k (final_buffer openAIStream) = None <-> fragments_at k frs = [])
  /\ (forall e,
        buf_lookup k (final_buffer openAIStream) = Some e ->
        b_arguments e = concat_text (map arguments_text (fragments_at k frs))
        /\ b_name e = last_name k frs
        /\ forall f i,
             head (fragments_at k frs) = Some f ->
             tcd_id f = Some i -> Js.truthy i = true -> b_id e = i)
  /\ map (fun u => (fst u, JsonText.parse (snd u)))
         (tool_uses (@convertOpenAIStreamToClaude JsonText.runtime
                       Examples.weather_stream "claude"))
     = [("get_weather", Some (JObject [("loc", JString "NYC")]))].
Proof.
  intros frs. pose proof (final_buffer_accumulates openAIStream k) as Hacc.
  fold frs in Hacc. split; [|split].
  - destruct (buf_lookup k (final_buffer openAIStream)) as [e|].
    + destruct Hacc as (Hne & _). split; [discriminate|contradiction].
    + split; auto.
  - intros e He. rewrite He in Hacc.
    destruct Hacc as (_ & Ha & Hn & _ & Hi). auto.
  - vm_compute. reflexivity.
Qed.

End Accumulation.

(** Of two fragments of one call that carry the names Read and Write, in
    this order, the buffer keeps Write, while the first non-empty name is
    Read. *)
Lemma later_name_overwrites :
  exists e,
    ResponseConverter.buf_lookup 0
      (@ResponseConverter.final_buffer JsonText.runtime Examples.renamed_stream)
    = Some e
    /\ ResponseConverter.b_name e = "Write"
    /\ ResponseConverter.first_name 0
         (ResponseConverter.fragments Examples.renamed_stream) = "Read"
    /\ ResponseConverter.b_name e
       <> ResponseConverter.first_name 0
            (ResponseConverter.fragments Examples.renamed_stream).
Proof.
  eexists. split; [vm_compute; reflexivity|].
  split; [reflexivity|]. split; [reflexivity|]. vm_compute. discriminate.
Qed.

(** ** Model router *)

Section RouterFacts.
Import RequestConverter Router.
Context `{Runtime} `{Tokenizer}.

Lemma marker_not_in_empty : Js.includes "" web_search_marker = false.
Proof. reflexivity. Qed.

(** C6. A request whose tool list is one web-search tool and whose system
    prompt text contains the marker is routed to the configured web-search
    model, whatever its estimated token count and the long-context
    settings of the policy. *)
Theorem web_search_route_first (request : MessageCreateRequest)
    (defaultModelConfig : ModelConfig) (routerConfig : RouterConfig)
    (tool : ToolUnion) (prompt : SystemPrompt) (target : string)
    (tokenCount : Z) :
  tools request = Some [tool] ->
  tool_type tool = Some "web_search_20250305" ->
  tool_name tool = "web_search" ->
  system request = Some prompt ->
  Js.includes (systemText prompt) web_search_marker = true ->
  webSearch routerConfig = Some target ->
  target <> "" ->
  calculateTokenCount (messages request) (system request) [tool]
  = Some tokenCount ->
  routeModel request defaultModelConfig routerConfig = target.
Proof.
  intros Htools Hty Hname Hsys Hinc Hws Hne Hcount.
  assert (Htruthy : system_truthy (Some prompt) = true).
  { destruct prompt as [t|items]; simpl; [|reflexivity].
    destruct t; [|reflexivity]. simpl in Hinc.
    rewrite marker_not_in_empty in Hinc. discriminate. }
  unfold routeModel. rewrite Htools.
  change (default [] (Some [tool])) with [tool]. rewrite Hcount.
  unfold hasExactlyOneWebSearchTool, hasWebSearchSystemIndicator,
    is_web_search_tool.
  rewrite Htools, Hty, Hname, Hsys, Htruthy, Hinc, Hws. simpl.
  destruct target; [congruence|reflexivity].
Qed.

(** A tool list of any other length is not a web-search tool list, even
    when a web-search tool is among its members. *)
Lemma more_tools_not_web_search (request : MessageCreateRequest)
    (ts : list ToolUnion) :
  tools request = Some ts -> length ts <> 1%nat ->
  hasExactlyOneWebSearchTool request = false.
Proof.
  intros Ht Hlen. unfold hasExactlyOneWebSearchTool. rewrite Ht.
  destruct ts as [|t [|t' ts']]; simpl in *; congruence.
Qed.

(** When the estimate throws, the [catch] answers the default route. *)
Lemma estimator_error_routes_default (request : MessageCreateRequest)
    (defaultModelConfig : ModelConfig) (routerConfig : RouterConfig) :
  calculateTokenCount (messages request) (system request)
                      (default [] (tools request)) = None ->
  routeModel request defaultModelConfig routerConfig
  = default_model routerConfig.
Proof. intros Hc. unfold routeModel. now rewrite Hc. Qed.

End RouterFacts.

Lemma web_search_route_first_witness :
  Js.truthy_num 100 = true
  /\ (100 <? 117) = true
  /\ @Router.calculateTokenCount JsonText.runtime Examples.char_tokenizer
       (RequestConverter.messages Examples.search_request)
       (RequestConverter.system Examples.search_request)
       [Examples.web_search_tool] = Some 117
  /\ @Router.routeModel JsonText.runtime Examples.char_tokenizer
       Examples.search_request Examples.sonnet_config Examples.search_policy
     = "search-model".
Proof.
  split; [reflexivity|]. split; [reflexivity|]. split; [reflexivity|].
  apply (@web_search_route_first JsonText.runtime Examples.char_tokenizer
           Examples.search_request Examples.sonnet_config Examples.search_policy
           Examples.web_search_tool
           (RequestConverter.SysString Router.web_search_marker)
           "search-model" 117); try reflexivity.
  discriminate.
Defined.

(** C6, at a request on which the token estimate throws. The request has
    exactly one tool, the web-search tool, its system prompt is the marker
    text and the policy configures a web-search route; its query holds a
    text that the tokenizer refuses, so the estimate, which is made before
    the web-search test inside the same try, throws, and the catch answers
    the default route instead of the web-search route. *)
Theorem web_search_route_lost_when_estimate_throws :
  Router.hasExactlyOneWebSearchTool Examples.marked_search_request = true
  /\ Router.hasWebSearchSystemIndicator Examples.marked_search_request = true
  /\ Router.webSearch Examples.search_policy = Some "search-model"
  /\ @Router.calculateTokenCount JsonText.runtime Examples.strict_tokenizer
       (RequestConverter.messages Examples.marked_search_request)
       (RequestConverter.system Examples.marked_search_request)
       [Examples.web_search_tool] = None
  /\ @Router.routeModel JsonText.runtime Examples.strict_tokenizer
       Examples.marked_search_request Examples.sonnet_config
       Examples.search_policy
     = "default-model"
  /\ @Router.routeModel JsonText.runtime Examples.strict_tokenizer
       Examples.marked_search_request Examples.sonnet_config
       Examples.search_policy
     <> "search-model".
Proof.
  repeat split; try reflexivity. vm_compute. discriminate.
Qed.

(** ** In-memory store *)

Section MemoryStoreFacts.
Import MemoryStore.
Context {V : Type}.

Lemma get_live (s : t V) (now : Z) (key : string) (item : CacheItem V) :
  cache s !! key = Some item -> now <= expireTime item ->
  get now key s = (Some (value item), s).
Proof.
  intros Hl Hle. unfold get. rewrite Hl.
  destruct (expireTime item <? now) eqn:E; [|reflexivity].
  apply Z.ltb_lt in E. lia.
Qed.

Lemma get_expired (s : t V) (now : Z) (key : string) (item : CacheItem V) :
  cache s !! key = Some item -> expireTime item < now ->
  get now key s
  = (None, {| cache := base.delete key (cache s);
              cleanupTimer := cleanupTimer s |}).
Proof.
  intros Hl Hlt. unfold get. rewrite Hl.
  destruct (expireTime item <? now) eqn:E; [reflexivity|].
  apply Z.ltb_ge in E. lia.
Qed.

(** The sweep keeps what has not expired. *)
Lemma cleanupExpired_keeps (s : t V) (now : Z) (key : string) (item : CacheItem V) :
  cache s !! key = Some item -> now <= expireTime item ->
  cache (cleanupExpired now s) !! key = Some item.
Proof.
  intros Hl Hle. unfold cleanupExpired. simpl.
  apply map_lookup_filter_Some. split; [exact Hl|]. simpl. lia.
Qed.

(** Sweeps between the write and the read do not change what the read
    returns. *)
Lemma get_after_set_and_sweeps (s : t V) (now : Z) (key : string) (v : V)
    (ttl : Z) (sweeps : list Z) (elapsed : Z) :
  let s1 := foldl (fun st at_ => cleanupExpired at_ st)
                  (set now key v (Some ttl) s) sweeps in
  (Forall (fun at_ => at_ <= now + elapsed) sweeps ->
   elapsed <= ttl -> fst (get (now + elapsed) key s1) = Some v)
  /\ (ttl < elapsed -> fst (get (now + elapsed) key s1) = None).
Proof.
  cbv zeta.
  assert (Hset : cache (set now key v (Some ttl) s) !! key
                 = Some {| value := v; expireTime := now + ttl |}).
  { unfold set. simpl. apply lookup_insert_eq. }
  revert Hset. generalize (set now key v (Some ttl) s). intros s0 Hs0. split.
  - intros Hsw Hle. revert s0 Hs0.
    induction Hsw as [|at_ sweeps Hat _ IH]; intros s0 Hs0; simpl.
    + now rewrite (get_live _ _ _ _ Hs0) by (simpl; lia).
    + apply IH. apply cleanupExpired_keeps; [exact Hs0|simpl; lia].
  - intros Hlt.
    assert (Hany : forall s',
               (cache s' !! key = None
                \/ cache s' !! key = Some {| value := v; expireTime := now + ttl |}) ->
               fst (get (now + elapsed) key s') = None).
    { intros s' [Hn|Hsome].
      - unfold get. now rewrite Hn.
      - now rewrite (get_expired _ _ _ _ Hsome) by (simpl; lia). }
    apply Hany.
    assert (Hinv : cache s0 !! key = None
                   \/ cache s0 !! key
                      = Some {| value := v; expireTime := now + ttl |}) by auto.
    clear Hs0. revert s0 Hinv.
    induction sweeps as [|at_ sweeps IH]; intros s0 Hinv; simpl; [exact Hinv|].
    apply IH. unfold cleanupExpired. simpl.
    destruct Hinv as [Hn|Hsome].
    + left. apply map_lookup_filter_None. left. exact Hn.
    + destruct (decide (now + ttl < at_)) as [Hexp|Hkeep].
      * left. apply map_lookup_filter_None. right.
        intros x Hx. rewrite Hsome in Hx. injection Hx as <-. simpl. lia.
      * right. apply map_lookup_filter_Some. split; [exact Hsome|]. simpl. lia.
Qed.

(** C7. After [set(k, v, t)], a [get(k)] at an elapsed time of at most
    [t] returns [v] and leaves the store as it is; a [get(k)] at a later
    time returns undefined and leaves a store without the entry. With
    [t = 1000], the read at 500 ms returns [v] and the read at 1500 ms
    returns undefined. *)
Theorem get_after_set (s : t V) (now : Z) (key : string) (v : V) (ttl : Z) :
  let s1 := set now key v (Some ttl) s in
  (forall elapsed, elapsed <= ttl ->
     get (now + elapsed) key s1 = (Some v, s1))
  /\ (forall elapsed, ttl < elapsed ->
       fst (get (now + elapsed) key s1) = None
       /\ cache (snd (get (now + elapsed) key s1)) !! key = None)
  /\ fst (get (now + 500) key (set now key v (Some 1000) s)) = Some v
  /\ fst (get (now + 1500) key (set now key v (Some 1000) s)) = None.
Proof.
  assert (Hset : forall t0,
             cache (set now key v (Some t0) s) !! key
             = Some {| value := v; expireTime := now + t0 |}).
  { intros t0. unfold set. simpl. apply lookup_insert_eq. }
  cbv zeta. repeat split.
  - intros elapsed Hle.
    rewrite (get_live _ _ _ _ (Hset ttl)); [reflexivity|simpl; lia].
  - rewrite (get_expired _ _ _ _ (Hset ttl)); [reflexivity|simpl; lia].
  - rewrite (get_expired _ _ _ _ (Hset ttl)); [|simpl; lia].
    simpl. apply lookup_delete_eq.
  - rewrite (get_live _ _ _ _ (Hset 1000)); [reflexivity|simpl; lia].
  - rewrite (get_expired _ _ _ _ (Hset 1000)); [reflexivity|simpl; lia].
Qed.

End MemoryStoreFacts.

(** ** Bracket scan *)

Section BracketScan.
Import WebSearch.

Lemma lastIndexOf_from_none (c : ascii) (l : list ascii) (i : nat) :
  (forall j, l !! j <> Some c) -> lastIndexOf_from c i l = None.
Proof.
  revert i. induction l as [|x l IH]; intros i Hno; simpl; [reflexivity|].
  rewrite IH by (intros j; apply (Hno (S j))).
  destruct (Ascii.eqb x c) eqn:E; [|reflexivity].
  apply Ascii.eqb_eq in E. subst x. destruct (Hno 0%nat). reflexivity.
Qed.

Lemma lastIndexOf_from_complete (c : ascii) (l : list ascii) (i k : nat) :
  l !! k = Some c -> (forall j, (k < j)%nat -> l !! j <> Some c) ->
  lastIndexOf_from c i l = Some (i + k)%nat.
Proof.
  revert i k. induction l as [|x l IH]; intros i k Hk Hlast; [discriminate|].
  destruct k as [|k]; simpl in *.
  - injection Hk as ->.
    rewrite lastIndexOf_from_none by (intros j; apply (Hlast (S j)); lia).
    rewrite Ascii.eqb_refl. f_equal. lia.
  - rewrite (IH (S i) k Hk) by (intros j Hj; apply (Hlast (S j)); lia).
    f_equal. lia.
Qed.

Lemma lastIndexOf_from_found (c : ascii) (l : list ascii) (i k : nat) :
  l !! k = Some c -> lastIndexOf_from c i l <> None.
Proof.
  revert i k. induction l as [|x l IH]; intros i k Hk; [discriminate|].
  simpl. destruct k as [|k]; simpl in Hk.
  - injection Hk as ->. rewrite Ascii.eqb_refl.
    now destruct (lastIndexOf_from c (S i) l).
  - specialize (IH (S i) k Hk).
    now destruct (lastIndexOf_from c (S i) l).
Qed.

Lemma lastIndexOf_from_sound (c : ascii) (l : list ascii) (i j : nat) :
  lastIndexOf_from c i l = Some j ->
  exists k, j = (i + k)%nat /\ l !! k = Some c
            /\ forall j', (k < j')%nat -> l !! j' <> Some c.
Proof.
  revert i j. induction l as [|x l IH]; intros i j Hj; [discriminate|].
  simpl in Hj. destruct (lastIndexOf_from c (S i) l) as [j0|] eqn:E.
  - injection Hj as <-. destruct (IH _ _ E) as (k & -> & Hk & Hlast).
    exists (S k). split; [lia|]. split; [exact Hk|].
    intros j' Hj'. destruct j' as [|j']; [lia|]. apply Hlast. lia.
  - destruct (Ascii.eqb x c) eqn:Ex; [|discriminate].
    injection Hj as <-. apply Ascii.eqb_eq in Ex. subst x.
    exists 0%nat. split; [lia|]. split; [reflexivity|].
    intros j' Hj' Hc. destruct j' as [|j']; [lia|]. simpl in Hc.
    exact (lastIndexOf_from_found c l (S i) j' Hc E).
Qed.

Lemma lastIndexOf_last_close (text : list ascii) (l : nat) :
  lastIndexOf close_bracket text = Some l <-> last_close text l.
Proof.
  unfold lastIndexOf, last_close. split.
  - intros Hl. destruct (lastIndexOf_from_sound _ _ _ _ Hl) as (k & -> & Hk & Hlast).
    simpl. auto.
  - intros [Hl Hlast].
    now rewrite (lastIndexOf_from_complete _ _ 0 l Hl Hlast).
Qed.

Lemma piece_step (text : list ascii) (i l : nat) (c : ascii) :
  text !! i = Some c -> (i <= l)%nat ->
  piece text i l = c :: piece text (S i) l.
Proof.
  intros Hc Hle. unfold piece. rewrite (drop_S _ _ _ Hc).
  replace (S l - i)%nat with (S (l - i)) by lia. reflexivity.
Qed.

Lemma piece_after (text : list ascii) (l : nat) : piece text (S l) l = [].
Proof. unfold piece. now rewrite Nat.sub_diag. Qed.

(** Two positions cannot both match the bracket at [l]. *)
Lemma matching_open_unique (text : list ascii) (l f f' : nat) :
  matching_open text l f -> matching_open text l f' -> f = f'.
Proof.
  intros (Hfl & _ & Hd & Hpos) (Hfl' & _ & Hd' & Hpos').
  destruct (Nat.lt_trichotomy f f') as [Hlt|[Heq|Hgt]]; [|exact Heq|].
  - specialize (Hpos f'). lia.
  - specialize (Hpos' f). lia.
Qed.

(** The loop, entered at [i] with the depth of what lies between [i] and
    [l], breaks at the matching bracket, and falls through when there is
    none. *)
Lemma scan_correct (text : list ascii) (l : nat) :
  text !! l = Some close_bracket ->
  forall i c,
    (i <= l)%nat ->
    c = depth (piece text (S i) l) ->
    (forall j, (i < j <= l)%nat -> 0 < depth (piece text j l)) ->
    match scan text c i with
    | Some f => matching_open text l f
    | None => forall f, ~ matching_open text l f
    end.
Proof.
  intros Hl.
  assert (Hlen : (l < length text)%nat) by (eapply lookup_lt_Some; exact Hl).
  assert (Hnone : (forall j, (j <= l)%nat -> 0 < depth (piece text j l)) ->
                  forall f, ~ matching_open text l f).
  { intros Hall f (Hfl & _ & Hd & _). specialize (Hall f Hfl). lia. }
  assert (Hc0 : forall i c, (i <= l)%nat -> c = depth (piece text (S i) l) ->
                (forall j, (i < j <= l)%nat -> 0 < depth (piece text j l)) ->
                (i = l /\ c = 0) \/ ((i < l)%nat /\ 0 < c)).
  { intros i c Hi Hc Hpos. destruct (Nat.eq_dec i l) as [->|Hne].
    - left. rewrite piece_after in Hc. auto.
    - right. split; [lia|]. subst c. apply Hpos. lia. }
  assert (Hstep : forall i c x,
             (i <= l)%nat -> c = depth (piece text (S i) l) ->
             text !! i = Some x ->
             depth (piece text i l)
             = (if Ascii.eqb x close_bracket then 1
                else if Ascii.eqb x open_bracket then -1 else 0) + c).
  { intros i c x Hi -> Hx. now rewrite (piece_step _ _ _ _ Hx Hi). }
  assert (Hlx : forall i, (i <= l)%nat -> exists x, text !! i = Some x).
  { intros i Hi. destruct (text !! i) as [x|] eqn:Hx; [eauto|].
    apply lookup_ge_None in Hx. lia. }
  induction i as [|i IH]; intros c Hi Hc Hpos;
    destruct (Hlx _ Hi) as [x Hx];
    pose proof (Hstep _ c x Hi Hc Hx) as Hd;
    destruct (Hc0 _ c Hi Hc Hpos) as [[Heq Hz]|[Hlt Hcpos]];
    cbn [scan]; rewrite Hx;
    (destruct (Ascii.eqb x close_bracket) eqn:Ecl;
     [|destruct (Ascii.eqb x open_bracket) eqn:Eop;
       [destruct (c - 1 =? 0) eqn:Ec1|]]);
    try (subst l; rewrite Hl in Hx; injection Hx as <-;
         rewrite Ascii.eqb_refl in Ecl; discriminate);
    try (apply Z.eqb_eq in Ec1; apply Ascii.eqb_eq in Eop; subst x;
         repeat split; [lia|exact Hx|lia|exact Hpos]);
    try apply Z.eqb_neq in Ec1;
    try (apply Hnone; intros j Hj;
         destruct (Nat.eq_dec j 0%nat) as [->|Hj0]; [lia|apply Hpos; lia]);
    try (apply IH; [lia|lia|];
         intros j Hj; destruct (Nat.eq_dec j (S i)) as [->|Hji];
         [lia|apply Hpos; lia]).
Qed.

(** The scan from the last closing bracket finds the matching opening one. *)
Lemma scan_finds_matching (text : list ascii) (l f : nat) :
  text !! l = Some close_bracket ->
  matching_open text l f -> scan text 0 l = Some f.
Proof.
  intros Hl Hm.
  pose proof (scan_correct text l Hl l 0 (Nat.le_refl l)) as Hs.
  rewrite piece_after in Hs. specialize (Hs eq_refl).
  destruct (scan text 0 l) as [f'|].
  - f_equal. apply (matching_open_unique text l); [apply Hs; lia|exact Hm].
  - exfalso. apply (Hs ltac:(lia) f Hm).
Qed.

Lemma scan_found_matches (text : list ascii) (l f : nat) :
  text !! l = Some close_bracket ->
  scan text 0 l = Some f -> matching_open text l f.
Proof.
  intros Hl Hf.
  pose proof (scan_correct text l Hl l 0 (Nat.le_refl l)) as Hs.
  rewrite piece_after in Hs. specialize (Hs eq_refl). rewrite Hf in Hs.
  apply Hs. lia.
Qed.



(** Without a closing bracket, or without a match for the last one, the
    answer is null. *)
Lemma parseSearchResult_null `{Runtime} (text : string) :
  parseSearchResult text = Null <->
  (forall l, ~ last_close (Js.chars text) l)
  \/ exists l, last_close (Js.chars text) l
               /\ forall f, ~ matching_open (Js.chars text) l f.
Proof.
  unfold parseSearchResult.
  destruct (lastIndexOf close_bracket (Js.chars text)) as [l|] eqn:El.
  - apply lastIndexOf_last_close in El.
    destruct (scan (Js.chars text) 0 l) as [f|] eqn:Ef.
    + apply (scan_found_matches _ _ _ (proj1 El)) in Ef.
      split.
      * destruct (JSON_parse _); discriminate.
      * intros [Hno|(l' & Hl' & Hno)]; [destruct (Hno l El)|].
        assert (l' = l) as ->.
        { destruct El as [E1 E2], Hl' as [E1' E2'].
          destruct (Nat.lt_trichotomy l l') as [Hlt|[Heq|Hgt]]; [|auto|].
          - destruct (E2 l' Hlt E1').
          - destruct (E2' l Hgt E1). }
        destruct (Hno f Ef).
    + split; [|reflexivity]. intros _. right. exists l. split; [exact El|].
      intros f Hf.
      rewrite (scan_finds_matching _ _ _ (proj1 El) Hf) in Ef. discriminate.
  - split; [|reflexivity]. intros _. left. intros l Hl.
    apply lastIndexOf_last_close in Hl. congruence.
Qed.

End BracketScan.


(** ** Batch engine *)

Section BatchFacts.
Import Batches.
Variable getModelConfig : string -> option RequestConverter.ModelConfig.

(** Brings in what [run_loop_keeps] says of the loop in the goal. *)
Ltac loop_facts lemma now :=
  match goal with
  | |- context [run_loop _ _ ?b ?todo] =>
      let H1 := fresh "Hcounts" in
      let H2 := fresh "Hrequests" in
      let H3 := fresh "Hresults" in
      destruct (lemma now todo b) as (H1 & H2 & H3);
      rewrite ?H1, ?H2
  end.

Lemma run_loop_keeps (now : Z) (todo : list BatchRequest) (b : BatchJob) :
  counts_total (request_counts (job (run_loop getModelConfig now b todo)))
  = counts_total (request_counts b)
  /\ requests (job (run_loop getModelConfig now b todo)) = requests b
  /\ (results b <> None ->
      results (job (run_loop getModelConfig now b todo)) <> None).
Proof.
  revert b. induction todo as [|request rest IH]; intros b; simpl.
  - unfold counts_total. simpl. auto.
  - destruct (cancel_initiated_at b).
    + destruct (IH (item_canceled request b)) as (H1 & H2 & H3).
      rewrite H1, H2. unfold counts_total. simpl.
      repeat split; [lia|]. intros _. apply H3. discriminate.
    + destruct (getModelConfig _).
      * simpl. auto.
      * match goal with
        | |- context [run_loop _ _ ?b' rest] =>
            destruct (IH b') as (H1 & H2 & H3)
        end.
        rewrite H1, H2. unfold counts_total. simpl.
        repeat split; [lia|]. intros _. apply H3. discriminate.
Qed.

Lemma processBatchAsync_keeps (now : Z) (batchId : string)
    (reqs : list BatchRequest) :
  let s := processBatchAsync getModelConfig now (new_batch batchId now reqs) in
  counts_total (request_counts (job s)) = Z.of_nat (length (requests (job s)))
  /\ results (job s) <> None.
Proof.
  cbv zeta. unfold processBatchAsync. loop_facts run_loop_keeps now.
  unfold counts_total. simpl.
  split; [lia|]. apply Hresults. discriminate.
Qed.

(** The job that the create handler stores holds the submitted requests. *)
Lemma created_job_requests (now : Z) (batchId : string)
    (reqs : list BatchRequest) (σ : Store) :
  snd (create_handler getModelConfig batchId now reqs σ) !! batchId
  = Some (processBatchAsync getModelConfig now (new_batch batchId now reqs))
  /\ requests (job (processBatchAsync getModelConfig now
                      (new_batch batchId now reqs))) = reqs.
Proof.
  split.
  - unfold create_handler. simpl. apply lookup_insert_eq.
  - unfold processBatchAsync. loop_facts run_loop_keeps now. reflexivity.
Qed.

Lemma resume_keeps (now : Z) (s : JobState) (outcome : Settled) :
  counts_total (request_counts (job (resume getModelConfig now s outcome)))
  = counts_total (request_counts (job s))
  /\ requests (job (resume getModelConfig now s outcome)) = requests (job s)
  /\ (results (job s) <> None ->
      results (job (resume getModelConfig now s outcome)) <> None).
Proof.
  unfold resume. destruct (awaiting s) as [[request rest]|]; [|auto].
  destruct outcome; loop_facts run_loop_keeps now;
    unfold counts_total; simpl;
    (repeat split; [lia|]); intros _; apply Hresults; discriminate.
Qed.

(** In every store the server can reach, every job has counts that add up
    to its number of requests, and a results array. *)
Lemma reachable_jobs (σ : Store) :
  reachable getModelConfig σ ->
  forall batchId s,
    σ !! batchId = Some s ->
    counts_total (request_counts (job s)) = Z.of_nat (length (requests (job s)))
    /\ results (job s) <> None.
Proof.
  induction 1 as [|σ σ' Hr IH Hstep]; intros batchId s Hs.
  - rewrite lookup_empty in Hs. discriminate.
  - destruct Hstep as [bid now reqs σ|bid now σ|bid now outcome s0 σ Hs0 Haw].
    + unfold create_handler in Hs. simpl in Hs.
      destruct (decide (bid = batchId)) as [->|Hne].
      * rewrite lookup_insert_eq in Hs. injection Hs as <-.
        apply processBatchAsync_keeps.
      * rewrite lookup_insert_ne in Hs by exact Hne. eauto.
    + unfold cancel_handler in Hs.
      destruct (σ !! bid) as [s0|] eqn:Hs0; [|simpl in Hs; eauto].
      destruct (processing_status (job s0)); simpl in Hs; eauto;
        (destruct (decide (bid = batchId)) as [->|Hne];
         [rewrite lookup_insert_eq in Hs; injection Hs as <-; simpl;
          apply (IH _ _ Hs0)
         |rewrite lookup_insert_ne in Hs by exact Hne; eauto]).
    + destruct (decide (bid = batchId)) as [->|Hne].
      * rewrite lookup_insert_eq in Hs. injection Hs as <-.
        destruct (resume_keeps now s0 outcome) as (H1 & H2 & H3).
        destruct (IH _ _ Hs0) as [Hc Hres].
        rewrite H1, H2. auto.
      * rewrite lookup_insert_ne in Hs by exact Hne. eauto.
Qed.

(** C4. At every point at which a handler can observe a job, its four
    counts add up to the number of its requests. *)
Theorem batch_counts_invariant (σ : Store) (batchId : string) (s : JobState) :
  reachable getModelConfig σ ->
  σ !! batchId = Some s ->
  processing (request_counts (job s)) + succeeded (request_counts (job s))
  + errored (request_counts (job s)) + canceled (request_counts (job s))
  = Z.of_nat (length (requests (job s))).
Proof.
  intros Hr Hs. exact (proj1 (reachable_jobs σ Hr batchId s Hs)).
Qed.

(** The guard of the results handler never fires for a job in the map. *)
Lemma results_always_served (σ : Store) (batchId : string) (s : JobState) :
  reachable getModelConfig σ ->
  σ !! batchId = Some s ->
  exists rs, results_handler batchId σ = Ok rs.
Proof.
  intros Hr Hs. unfold results_handler. rewrite Hs.
  destruct (results (job s)) as [rs|] eqn:E; [eauto|].
  destruct (proj2 (reachable_jobs σ Hr batchId s Hs) E).
Qed.

End BatchFacts.

Lemma five_store_reachable :
  Batches.reachable Examples.known_models Examples.five_store.
Proof.
  unfold Examples.five_store.
  eapply Batches.reachable_step.
  - eapply Batches.reachable_step.
    + eapply Batches.reachable_step; [apply Batches.reachable_start|].
      apply (Batches.step_create Examples.known_models "batch_1" 0
               Examples.five_requests ∅).
    + apply (Batches.step_resume Examples.known_models "batch_1" 10
               (Batches.Resolved JNull) Examples.five_created).
      * apply lookup_insert_eq.
      * vm_compute. eauto.
  - pose proof (Batches.step_cancel Examples.known_models "batch_1" 20
                  (<["batch_1" := Examples.five_resumed]>
                     (<["batch_1" := Examples.five_created]> ∅))) as Hc.
    unfold Batches.cancel_handler in Hc.
    rewrite lookup_insert_eq in Hc. exact Hc.
Qed.

Lemma batch_counts_invariant_witness :
  Batches.reachable Examples.known_models Examples.five_store
  /\ Examples.five_store !! "batch_1" = Some Examples.five_canceling
  /\ Batches.request_counts (Batches.job Examples.five_canceling)
     = {| Batches.processing := 3; Batches.succeeded := 1;
          Batches.errored := 1; Batches.canceled := 0 |}
  /\ Batches.processing (Batches.request_counts (Batches.job Examples.five_canceling))
     + Batches.succeeded (Batches.request_counts (Batches.job Examples.five_canceling))
     + Batches.errored (Batches.request_counts (Batches.job Examples.five_canceling))
     + Batches.canceled (Batches.request_counts (Batches.job Examples.five_canceling))
     = Z.of_nat (length (Batches.requests (Batches.job Examples.five_canceling))).
Proof.
  split; [exact five_store_reachable|].
  split; [apply lookup_insert_eq|].
  split; [reflexivity|].
  apply (batch_counts_invariant Examples.known_models Examples.five_store "batch_1").
  - exact five_store_reachable.
  - apply lookup_insert_eq.
Defined.

(** C5, at a job that has not ended. A job of one request is observed
    while that request is in flight: its status is in_progress, and the
    results handler does not answer with the client error but with success
    and an empty list of records. *)
Theorem results_served_before_end :
  exists s,
    Examples.one_store !! "batch_2" = Some s
    /\ Batches.processing_status (Batches.job s) = Batches.in_progress
    /\ Batches.awaiting s <> None
    /\ Batches.results_handler "batch_2" Examples.one_store = Batches.Ok [].
Proof.
  eexists. split.
  - unfold Examples.one_store, Batches.create_handler. simpl.
    apply lookup_insert_eq.
  - split; [reflexivity|]. split; [discriminate|].
    unfold Batches.results_handler, Examples.one_store, Batches.create_handler.
    simpl. rewrite lookup_insert_eq. reflexivity.
Qed.

(** * Further properties *)

(** ** Strings cut into slices *)

Section Slices.
Import ResponseConverter.

Lemma of_chars_app (a b : list ascii) :
  Js.of_chars (a ++ b)%list = Js.of_chars a ++ Js.of_chars b.
Proof.
  induction a as [|c a IH]; [reflexivity|].
  change (String c (Js.of_chars (a ++ b)%list)
          = String c (Js.of_chars a ++ Js.of_chars b)).
  now rewrite IH.
Qed.

Lemma concat_text_app (l1 l2 : list string) :
  concat_text (l1 ++ l2)%list = concat_text l1 ++ concat_text l2.
Proof.
  induction l1 as [|s l1 IH]; simpl; [reflexivity|].
  now rewrite IH, append_assoc.
Qed.

Lemma slices_fuel_concat (n fuel : nat) (l : list ascii) :
  (0 < n)%nat -> (length l <= fuel)%nat ->
  concat_text (Js.slices_fuel fuel n l) = Js.of_chars l.
Proof.
  intros Hn. revert l. induction fuel as [|fuel IH]; intros l Hlen.
  - destruct l; [reflexivity|simpl in Hlen; lia].
  - destruct l as [|c l]; [reflexivity|].
    cbn [Js.slices_fuel concat_text].
    rewrite IH.
    + rewrite <- of_chars_app. now rewrite take_drop.
    + rewrite length_drop. simpl in *. lia.
Qed.

(** The slices of a string, put together again, are the string. *)
Lemma slices_concat (n : nat) (s : string) :
  (0 < n)%nat -> concat_text (Js.slices n s) = s.
Proof.
  intros Hn. unfold Js.slices.
  rewrite slices_fuel_concat.
  - apply string_of_list_ascii_of_string.
  - exact Hn.
  - unfold Js.chars. clear. induction s as [|c s IH]; simpl; lia.
  Qed.

End Slices.

(** ** Stream reconstructor: what the events carry *)

Section StreamContent.
Import ResponseConverter.
Context `{Runtime}.

Lemma process_chunk_events id model st chunk :
  (activeContentBlocks st = [] \/ activeContentBlocks st = [0%nat]) ->
  let r := process_chunk id model st chunk in
  forallb is_loop_event (snd r) = true
  /\ omap (text_delta_at 0) (snd r)
     = match text_of chunk with Some t => [t] | None => [] end
  /\ activeContentBlocks (fst r)
     = match text_of chunk with
       | Some _ => [0%nat]
       | None => activeContentBlocks st
       end.
Proof.
  intros Ha. cbv zeta. unfold process_chunk.
  destruct (fold_left accumulate _ _) as [buf n].
  destruct (match usage chunk with Some u => _ | None => _ end) as [tin tout].
  destruct (hasStarted st); destruct (text_of chunk) as [t|];
    destruct Ha as [Ha|Ha]; rewrite Ha; simpl; auto.
Qed.

Lemma process_chunks_events id model chunks st :
  (activeContentBlocks st = [] \/ activeContentBlocks st = [0%nat]) ->
  let r := process_chunks id model st chunks in
  forallb is_loop_event (snd r) = true
  /\ omap (text_delta_at 0) (snd r) = omap text_of chunks
  /\ activeContentBlocks (fst r)
     = match omap text_of chunks with
       | [] => activeContentBlocks st
       | _ :: _ => [0%nat]
       end.
Proof.
  revert st. induction chunks as [|chunk rest IH]; intros st Ha; cbv zeta.
  - simpl. auto.
  - cbn [process_chunks].
    destruct (process_chunk_events id model st chunk Ha) as (E1 & T1 & A1).
    destruct (process_chunk id model st chunk) as [st1 e1]. simpl in E1, T1, A1.
    assert (Ha1 : activeContentBlocks st1 = []
                  \/ activeContentBlocks st1 = [0%nat]).
    { rewrite A1. destruct (text_of chunk); auto. }
    destruct (IH st1 Ha1) as (E2 & T2 & A2).
    destruct (process_chunks id model st1 rest) as [st2 e2].
    simpl in E2, T2, A2. simpl.
    rewrite forallb_app, omap_app, E1, E2, T1, T2, A2, A1.
    destruct (text_of chunk) as [t|]; simpl; repeat split; auto.
    now destruct (omap text_of rest).
Qed.

Lemma json_deltas_no_text i j (l : list string) :
  omap (text_delta_at i)
       (map (fun c => ContentBlockDelta j (InputJsonDelta c)) l) = [].
Proof. induction l as [|c l IH]; [reflexivity|exact IH]. Qed.

Lemma text_deltas_other i j (l : list string) :
  i <> j ->
  omap (text_delta_at i)
       (map (fun c => ContentBlockDelta j (TextDelta c)) l) = [].
Proof.
  intros Hij. induction l as [|c l IH]; [reflexivity|].
  simpl. destruct (j =? i)%nat eqn:E; [|exact IH].
  apply Nat.eqb_eq in E. congruence.
Qed.

Lemma tool_blocks_no_text i j calls :
  omap (text_delta_at i) (tool_blocks j calls) = [].
Proof.
  revert j. induction calls as [|tc calls IH]; intros j; [reflexivity|].
  cbn [tool_blocks]. destruct (has_name tc); [|apply IH].
  rewrite omap_app, IH, app_nil_r. unfold tool_block.
  change (omap (text_delta_at i)
            (map (fun c => ContentBlockDelta j (InputJsonDelta c))
                 (Js.slices 3 (JSON_stringify (tool_input (b_arguments tc))))
             ++ [ContentBlockStop j])%list = []).
  now rewrite omap_app, json_deltas_no_text.
Qed.

Lemma explanatory_block_other_text i j calls :
  i <> j -> omap (text_delta_at i) (fst (explanatory_block j calls)) = [].
Proof.
  intros Hij. unfold explanatory_block.
  destruct (explanatoryText calls) as [text|[|n]|]; cbn [fst];
    try reflexivity.
  change (omap (text_delta_at i)
            (map (fun c => ContentBlockDelta j (TextDelta c)) (Js.slices 5 text)
             ++ [ContentBlockStop j])%list = []).
  now rewrite omap_app, text_deltas_other.
Qed.

(** X1. When text arrives, the text deltas of block 0 are the non-empty
    content strings of the chunks, one delta for each, in arrival order. *)
Theorem stream_text_deltas (openAIStream : list Chunk) (claudeModel : string) :
  omap text_of openAIStream <> [] ->
  omap (text_delta_at 0) (convertOpenAIStreamToClaude openAIStream claudeModel)
  = omap text_of openAIStream.
Proof.
  intros Htext. unfold convertOpenAIStreamToClaude.
  rewrite run_events. cbn [fst].
  destruct (process_chunks_events messageId claudeModel openAIStream initial
              (or_introl eq_refl)) as (_ & T & A).
  destruct (process_chunks messageId claudeModel initial openAIStream)
    as [st evs].
  simpl in T, A. cbn [fst snd]. rewrite omap_app, T.
  assert (Ha : activeContentBlocks st = [0%nat])
    by (rewrite A; now destruct (omap text_of openAIStream)).
  destruct (hasFinished st) eqn:Hf;
    [|unfold finalize; rewrite Hf; now rewrite app_nil_r].
  destruct (slice_fails (explanatoryText (map snd (toolCallsBuffer st))))
    eqn:Hs.
  - rewrite (finalize_thrown st Hf Hs). cbn [fst]. rewrite Ha.
    simpl. now rewrite app_nil_r.
  - rewrite (finalize_returned st Hf Hs). cbn [fst]. rewrite Ha.
    cbn [length Nat.ltb Nat.leb map foldr Nat.max].
    rewrite !omap_app, tool_blocks_no_text.
    match goal with |- context [if ?b then fst (explanatory_block _ _) else _] =>
      destruct b end;
      rewrite ?explanatory_block_other_text by lia;
      simpl; now rewrite app_nil_r.
Qed.

Lemma loop_events_open (ctx evs : list StreamEvent) :
  forallb is_loop_event evs = true ->
  omap stop_index evs = []
  /\ List.filter is_message_delta evs = []
  /\ List.filter is_message_stop evs = []
  /\ omap (tool_use_of ctx) evs = [].
Proof.
  induction evs as [|e evs IH]; [auto|].
  intros E. cbn [forallb] in E. apply andb_true_iff in E as [He E].
  destruct (IH E) as (I1 & I2 & I3 & I4).
  destruct e as [| [|i] [] | [|i] [] | | |]; simpl in He; try discriminate;
    simpl; auto.
Qed.

(** X2. Without a finish signal nothing is closed and no buffered tool
    call is emitted: every event is the message_start, the start of text
    block 0 or one of its text deltas. *)
Theorem unfinished_stream_events (openAIStream : list Chunk)
    (claudeModel : string) :
  existsb finish_of openAIStream = false ->
  let evs := convertOpenAIStreamToClaude openAIStream claudeModel in
  forallb is_loop_event evs = true
  /\ omap stop_index evs = []
  /\ List.filter is_message_delta evs = []
  /\ List.filter is_message_stop evs = []
  /\ tool_uses evs = [].
Proof.
  intros Hfin. cbv zeta. unfold convertOpenAIStreamToClaude.
  rewrite run_events. cbn [fst].
  destruct (process_chunks_events messageId claudeModel openAIStream initial
              (or_introl eq_refl)) as (E & _ & _).
  pose proof (process_chunks_finished messageId claudeModel openAIStream initial)
    as Hf.
  destruct (process_chunks messageId claudeModel initial openAIStream)
    as [st evs].
  simpl in E, Hf. rewrite Hfin in Hf. cbn [fst snd].
  unfold finalize. rewrite Hf. cbn [fst]. rewrite app_nil_r.
  split; [exact E|]. unfold tool_uses. now apply loop_events_open.
Qed.

Lemma reported_cons (field : Usage -> option Z) chunk rest (old : Z) :
  default old
    (last (List.filter Js.truthy_num
             (omap (fun c => usage c ≫= field) (chunk :: rest))))
  = default
      (match usage chunk with
       | Some u => Js.num_or_else (field u) old
       | None => old
       end)
      (last (List.filter Js.truthy_num
               (omap (fun c => usage c ≫= field) rest))).
Proof.
  unfold Js.num_or_else. simpl.
  destruct (usage chunk) as [u|]; simpl; [|reflexivity].
  destruct (field u) as [z|]; simpl; [|reflexivity].
  destruct (Js.truthy_num z); [|reflexivity].
  change (z :: ?l) with ([z] ++ l)%list. rewrite last_app.
  now destruct (last _).
Qed.

Lemma process_chunks_usage id model chunks st :
  let st' := fst (process_chunks id model st chunks) in
  totalInputTokens st'
  = default (totalInputTokens st)
      (last (List.filter Js.truthy_num
               (omap (fun c => usage c ≫= prompt_tokens) chunks)))
  /\ totalOutputTokens st'
     = default (totalOutputTokens st)
         (last (List.filter Js.truthy_num
                  (omap (fun c => usage c ≫= completion_tokens) chunks))).
Proof.
  revert st. induction chunks as [|chunk rest IH]; intros st; cbv zeta.
  - simpl. auto.
  - rewrite !reported_cons. cbn [process_chunks].
    assert (H1 : totalInputTokens (fst (process_chunk id model st chunk))
                 = match usage chunk with
                   | Some u => Js.num_or_else (prompt_tokens u) (totalInputTokens st)
                   | None => totalInputTokens st
                   end
                 /\ totalOutputTokens (fst (process_chunk id model st chunk))
                    = match usage chunk with
                      | Some u => Js.num_or_else (completion_tokens u)
                                                 (totalOutputTokens st)
                      | None => totalOutputTokens st
                      end).
    { unfold process_chunk.
      destruct (match text_of chunk with Some t => _ | None => _ end).
      destruct (fold_left accumulate _ _).
      destruct (usage chunk); simpl; auto. }
    destruct (process_chunk id model st chunk) as [st1 e1].
    simpl in H1. destruct H1 as [<- <-].
    specialize (IH st1).
    destruct (process_chunks id model st1 rest) as [st2 e2].
    exact IH.
Qed.

(** X3. The message_delta of a finished stream on which the explanatory
    block does not throw reports, for the output and for the input tokens,
    the last non-zero count that a chunk carried in its usage (zero when no
    chunk carried one): later reports replace earlier ones, and nothing is
    summed. *)
Theorem stream_usage_last_reported (openAIStream : list Chunk)
    (claudeModel : string) :
  existsb finish_of openAIStream = true ->
  explanation_throws openAIStream = false ->
  List.filter is_message_delta
    (convertOpenAIStreamToClaude openAIStream claudeModel)
  = [MessageDelta "tool_use"
       (reported completion_tokens openAIStream)
       (reported prompt_tokens openAIStream)].
Proof.
  intros Hfin Hsafe.
  destruct (finished_stream_events openAIStream claudeModel Hfin Hsafe)
    as (blocks & n & out & inp & Heq & Hblocks).
  assert (Hfilter : List.filter is_message_delta
                      (convertOpenAIStreamToClaude openAIStream claudeModel)
                    = [MessageDelta "tool_use" out inp]).
  { rewrite Heq. simpl. rewrite List.filter_app.
    rewrite (no_message_delta_in_blocks _ (blocks_from_events _ _ _ Hblocks)).
    reflexivity. }
  rewrite Hfilter. clear Hfilter.
  unfold convertOpenAIStreamToClaude in Heq. rewrite run_events in Heq.
  rewrite (explanation_throws_state openAIStream claudeModel) in Hsafe.
  destruct (process_chunks_usage messageId claudeModel openAIStream initial)
    as [Hin Hout].
  pose proof (process_chunks_finished messageId claudeModel openAIStream initial)
    as Hf.
  destruct (process_chunks messageId claudeModel initial openAIStream)
    as [st evs].
  simpl in Hin, Hout, Hf. rewrite Hfin in Hf. cbn [fst snd] in Heq, Hsafe.
  rewrite (finalize_returned st Hf Hsafe) in Heq. cbn [fst] in Heq.
  change (MessageStart messageId claudeModel
          :: blocks ++ [MessageDelta "tool_use" out inp; MessageStop])%list
    with ((MessageStart messageId claudeModel :: blocks)
          ++ [MessageDelta "tool_use" out inp; MessageStop])%list in Heq.
  rewrite !app_assoc in Heq.
  apply app_inj_2 in Heq; [|reflexivity].
  destruct Heq as [_ Heq]. injection Heq as <- <-.
  unfold reported. now rewrite Hin, Hout.
Qed.

Lemma input_json_at_app i (a b : list StreamEvent) :
  input_json_at i (a ++ b) = input_json_at i a ++ input_json_at i b.
Proof. unfold input_json_at. now rewrite map_app, concat_text_app. Qed.

Lemma no_json_forall i (evs : list StreamEvent) :
  Forall (fun e => partial_json_at i e = "") evs -> input_json_at i evs = "".
Proof.
  unfold input_json_at. induction 1 as [|e evs He _ IH]; [reflexivity|].
  simpl. now rewrite He, IH.
Qed.

Lemma loop_events_no_json i (evs : list StreamEvent) :
  forallb is_loop_event evs = true -> input_json_at i evs = "".
Proof.
  intros E. apply no_json_forall.
  induction evs as [|e evs IH]; [constructor|].
  cbn [forallb] in E. apply andb_true_iff in E as [He E].
  constructor; [|auto].
  destruct e as [| [|k] [] | [|k] [] | | |]; simpl in He; try discriminate;
    reflexivity.
Qed.

Lemma stops_no_json i ctx (l : list nat) :
  input_json_at i (map ContentBlockStop l) = ""
  /\ omap (tool_use_of ctx) (map ContentBlockStop l) = [].
Proof.
  split; [apply no_json_forall|]; induction l; simpl; auto.
Qed.

Lemma text_deltas_no_json i ctx j (l : list string) :
  input_json_at i (map (fun c => ContentBlockDelta j (TextDelta c)) l) = ""
  /\ omap (tool_use_of ctx)
          (map (fun c => ContentBlockDelta j (TextDelta c)) l) = [].
Proof.
  split; [apply no_json_forall|]; induction l; simpl; auto.
Qed.

Lemma explanatory_block_no_json i ctx j calls :
  input_json_at i (fst (explanatory_block j calls)) = ""
  /\ omap (tool_use_of ctx) (fst (explanatory_block j calls)) = [].
Proof.
  unfold explanatory_block.
  destruct (explanatoryText calls) as [text|[|n]|]; cbn [fst];
    try (split; reflexivity).
  destruct (text_deltas_no_json i ctx j (Js.slices 5 text)) as [H1 H2].
  change (input_json_at i
            ([ContentBlockStart j (CBText "")]
             ++ map (fun c => ContentBlockDelta j (TextDelta c)) (Js.slices 5 text)
             ++ [ContentBlockStop j])%list = ""
          /\ omap (tool_use_of ctx)
               ([ContentBlockStart j (CBText "")]
                ++ map (fun c => ContentBlockDelta j (TextDelta c))
                       (Js.slices 5 text)
                ++ [ContentBlockStop j])%list = []).
  rewrite !input_json_at_app, !omap_app, H1, H2. auto.
Qed.

Lemma json_deltas_at i j (l : list string) :
  input_json_at i (map (fun c => ContentBlockDelta j (InputJsonDelta c)) l)
  = if (j =? i)%nat then concat_text l else "".
Proof.
  unfold input_json_at. induction l as [|c l IH]; simpl.
  - now destruct (j =? i)%nat.
  - rewrite IH. now destruct (j =? i)%nat.
Qed.

Lemma json_deltas_no_start ctx j (l : list string) :
  omap (tool_use_of ctx)
       (map (fun c => ContentBlockDelta j (InputJsonDelta c)) l) = [].
Proof. induction l; simpl; auto. Qed.

(** One tool_use block: its deltas carry the serialized input, whole. *)
Lemma tool_block_json i ctx j tc :
  input_json_at i (tool_block j tc)
  = (if (j =? i)%nat
     then JSON_stringify (tool_input (b_arguments tc)) else "")
  /\ omap (tool_use_of ctx) (tool_block j tc)
     = [(b_name tc, input_json_at j ctx)].
Proof.
  unfold tool_block.
  match goal with
  | |- context [map _ ?l] =>
      change (input_json_at i
                ([ContentBlockStart j (CBToolUse (b_id tc) (b_name tc) (JObject []))]
                 ++ map (fun c => ContentBlockDelta j (InputJsonDelta c)) l
                 ++ [ContentBlockStop j])%list
              = (if (j =? i)%nat
                 then JSON_stringify (tool_input (b_arguments tc)) else "")
              /\ omap (tool_use_of ctx)
                   ([ContentBlockStart j (CBToolUse (b_id tc) (b_name tc) (JObject []))]
                    ++ map (fun c => ContentBlockDelta j (InputJsonDelta c)) l
                    ++ [ContentBlockStop j])%list
                 = [(b_name tc, input_json_at j ctx)])
  end.
  rewrite !input_json_at_app, !omap_app, json_deltas_at, json_deltas_no_start.
  rewrite slices_concat by lia.
  split; [|reflexivity].
  change (input_json_at i [ContentBlockStart j _]) with "".
  change (input_json_at i [ContentBlockStop j]) with "".
  destruct (j =? i)%nat; [|reflexivity]. now rewrite append_nil_r.
Qed.

Lemma tool_blocks_json_below i j calls :
  (i < j)%nat -> input_json_at i (tool_blocks j calls) = "".
Proof.
  revert j. induction calls as [|tc calls IH]; intros j Hij; [reflexivity|].
  cbn [tool_blocks]. destruct (has_name tc); [|now apply IH].
  rewrite input_json_at_app, (proj1 (tool_block_json i [] j tc)),
    IH by lia.
  destruct (j =? i)%nat eqn:E; [|reflexivity].
  apply Nat.eqb_eq in E. lia.
Qed.

Lemma tool_blocks_uses calls j (before after : list StreamEvent) :
  (forall i, (j <= i)%nat -> input_json_at i before = "") ->
  (forall i, input_json_at i after = "") ->
  omap (tool_use_of (before ++ tool_blocks j calls ++ after)%list)
       (tool_blocks j calls)
  = map (fun tc => (b_name tc, JSON_stringify (tool_input (b_arguments tc))))
        (List.filter has_name calls).
Proof.
  revert j before. induction calls as [|tc calls IH]; intros j before Hb Ha;
    [reflexivity|].
  cbn [tool_blocks List.filter]. destruct (has_name tc); [|now apply IH].
  cbn [map]. rewrite omap_app.
  rewrite (proj2 (tool_block_json j _ j tc)).
  rewrite !input_json_at_app, Hb, Ha, tool_blocks_json_below by lia.
  rewrite (proj1 (tool_block_json j [] j tc)), Nat.eqb_refl.
  change ("" ++ ?x) with x. rewrite !append_nil_r.
  cbn [app]. f_equal.
  rewrite <- app_assoc.
  rewrite (app_assoc before (tool_block j tc)).
  apply IH; [|exact Ha].
  intros i Hi. rewrite input_json_at_app, Hb by lia.
  rewrite (proj1 (tool_block_json i [] j tc)).
  destruct (j =? i)%nat eqn:E; [|reflexivity].
  apply Nat.eqb_eq in E. lia.
Qed.

Lemma buf_alter_keys (f : ToolCallBuf -> ToolCallBuf) (k : nat) (buf : Buffer) :
  map fst (buf_alter f k buf) = map fst buf.
Proof.
  induction buf as [|[k' e] rest IH]; [reflexivity|].
  simpl. destruct (k =? k')%nat; simpl; [reflexivity|now rewrite IH].
Qed.

Lemma buf_lookup_existsb (k : nat) (buf : Buffer) :
  existsb (Nat.eqb k) (map fst buf)
  = match buf_lookup k buf with Some _ => true | None => false end.
Proof.
  induction buf as [|[k' e] rest IH]; [reflexivity|].
  simpl. destruct (k =? k')%nat; simpl; [reflexivity|exact IH].
Qed.

(** A fragment adds its call index to the buffer when the index is new,
    and never moves an index. *)
Lemma accumulate_keys (buf : Buffer) (n : nat) (f : ToolCallDelta) :
  map fst (fst (accumulate (buf, n) f)) = add_key (key_of f) (map fst buf).
Proof.
  unfold accumulate, add_key. rewrite buf_lookup_existsb.
  destruct (buf_lookup (key_of f) buf) as [e|];
    destruct (tcd_id f) as [i|]; try destruct (Js.truthy i);
    destruct (fn_name_of f) as [nm|]; try destruct (Js.truthy nm);
    destruct (fn_arguments_of f) as [a|]; try destruct (Js.truthy a);
    cbn [fst]; rewrite ?buf_alter_keys, ?map_app; reflexivity.
Qed.

Lemma fold_accumulate_keys (frs : list ToolCallDelta) :
  forall (buf : Buffer) (n : nat),
    map fst (fst (fold_left accumulate frs (buf, n)))
    = fold_left (fun seen f => add_key (key_of f) seen) frs (map fst buf).
Proof.
  induction frs as [|f frs IH]; intros buf n; [reflexivity|].
  cbn [fold_left]. rewrite <- accumulate_keys with (n := n).
  destruct (accumulate (buf, n) f) as [buf' n']. apply IH.
Qed.

(** The buffer lists the call indices in the order of their first
    arrival. *)
Lemma final_buffer_keys (openAIStream : list Chunk) :
  map fst (final_buffer openAIStream) = first_arrivals (fragments openAIStream).
Proof.
  unfold final_buffer, first_arrivals.
  pose proof (process_chunks_buffer messageId "" openAIStream initial) as Hb.
  change (toolCallsBuffer initial, draws initial)
    with (@nil (nat * ToolCallBuf), 2%nat) in Hb.
  pose proof (fold_accumulate_keys (fragments openAIStream) [] 2) as Hk.
  apply (f_equal fst) in Hb. cbn [fst] in Hb. rewrite Hb. exact Hk.
Qed.

Lemma add_key_NoDup (k : nat) (seen : list nat) :
  NoDup seen -> NoDup (add_key k seen).
Proof.
  intros Hn. unfold add_key.
  destruct (existsb (Nat.eqb k) seen) eqn:E; [exact Hn|].
  apply NoDup_app. split; [exact Hn|]. split; [|apply NoDup_singleton].
  intros x Hx Hk. apply list_elem_of_singleton in Hk. subst x.
  assert (Ht : existsb (Nat.eqb k) seen = true).
  { apply existsb_exists. exists k. split; [now apply list_elem_of_In|].
    apply Nat.eqb_refl. }
  congruence.
Qed.

Lemma first_arrivals_NoDup (frs : list ToolCallDelta) :
  NoDup (first_arrivals frs).
Proof.
  unfold first_arrivals.
  assert (Hg : forall seen, NoDup seen ->
             NoDup (fold_left (fun seen f => add_key (key_of f) seen) frs seen)).
  { induction frs as [|f frs IH]; intros seen Hn; [exact Hn|].
    cbn [fold_left]. apply IH. now apply add_key_NoDup. }
  apply Hg. apply NoDup_nil_2.
Qed.

Lemma buf_lookup_In (k : nat) (e : ToolCallBuf) (buf : Buffer) :
  NoDup (map fst buf) -> In (k, e) buf -> buf_lookup k buf = Some e.
Proof.
  induction buf as [|[k' e'] rest IH]; simpl; intros Hn; [intros []|].
  apply NoDup_cons in Hn as [Hk Hn]. rewrite list_elem_of_In in Hk.
  intros [[= -> ->]|Hin].
  - now rewrite Nat.eqb_refl.
  - destruct (k =? k')%nat eqn:E; [|auto].
    apply Nat.eqb_eq in E. subst k'.
    exfalso. apply Hk. apply in_map_iff. exists (k, e). auto.
Qed.

(** The named calls of the buffer, read off the fragments. *)
Lemma named_calls_by_key (frs : list ToolCallDelta) (buf : Buffer) :
  accumulates frs buf -> NoDup (map fst buf) ->
  map (fun tc => (b_name tc, JSON_stringify (tool_input (b_arguments tc))))
      (List.filter has_name (map snd buf))
  = map (fun k => (last_name k frs,
                   JSON_stringify (tool_input (call_arguments k frs))))
        (List.filter (fun k => Js.truthy (last_name k frs)) (map fst buf)).
Proof.
  intros Hacc Hn.
  assert (Hg : forall l : Buffer,
             (forall x, In x l -> In x buf) ->
             map (fun tc => (b_name tc,
                             JSON_stringify (tool_input (b_arguments tc))))
                 (List.filter has_name (map snd l))
             = map (fun k => (last_name k frs,
                              JSON_stringify (tool_input (call_arguments k frs))))
                   (List.filter (fun k => Js.truthy (last_name k frs))
                                (map fst l))).
  { induction l as [|[k e] l IH]; intros Hsub; [reflexivity|].
    assert (Hl : buf_lookup k buf = Some e)
      by (apply buf_lookup_In; [exact Hn|apply Hsub; now left]).
    specialize (Hacc k). rewrite Hl in Hacc.
    destruct Hacc as (_ & Ha & Hname & _).
    cbn [map List.filter fst snd]. unfold has_name at 1.
    rewrite Hname.
    destruct (Js.truthy (last_name k frs)).
    - cbn [map]. unfold call_arguments. rewrite Hname, Ha. f_equal.
      apply IH. intros x Hx. apply Hsub. now right.
    - apply IH. intros x Hx. apply Hsub. now right. }
  apply Hg. auto.
Qed.

(** X4. On a finished stream on which the explanatory block does not
    throw, the tool_use blocks are the buffered calls that have a name;
    unnamed calls are left out, and the input_json_delta pieces of each
    block, joined, are the serialized input of its call. Read off the
    fragments: the buffer lists the call indices in the order in which each
    first arrived, and the tool_use blocks follow that order, each with the
    last non-empty name among the fragments of its index and the input
    made from their argument strings joined in arrival order. *)
Theorem stream_tool_uses (openAIStream : list Chunk) (claudeModel : string) :
  existsb finish_of openAIStream = true ->
  explanation_throws openAIStream = false ->
  tool_uses (convertOpenAIStreamToClaude openAIStream claudeModel)
  = map (fun tc => (b_name tc, JSON_stringify (tool_input (b_arguments tc))))
        (List.filter has_name (map snd (final_buffer openAIStream)))
  /\ map fst (final_buffer openAIStream)
     = first_arrivals (fragments openAIStream)
  /\ tool_uses (convertOpenAIStreamToClaude openAIStream claudeModel)
     = map (fun k => (last_name k (fragments openAIStream),
                      JSON_stringify
                        (tool_input (call_arguments k (fragments openAIStream)))))
           (List.filter
              (fun k => Js.truthy (last_name k (fragments openAIStream)))
              (first_arrivals (fragments openAIStream))).
Proof.
  intros Hfin Hsafe.
  assert (Hmain :
    tool_uses (convertOpenAIStreamToClaude openAIStream claudeModel)
    = map (fun tc => (b_name tc, JSON_stringify (tool_input (b_arguments tc))))
          (List.filter has_name (map snd (final_buffer openAIStream)))).
  { rewrite (explanation_throws_state openAIStream claudeModel) in Hsafe.
    unfold final_buffer, convertOpenAIStreamToClaude.
    rewrite run_events. cbn [fst].
    rewrite (process_chunks_state messageId "" messageId claudeModel).
    destruct (process_chunks_events messageId claudeModel openAIStream initial
                (or_introl eq_refl)) as (E & _ & _).
    pose proof (process_chunks_finished messageId claudeModel openAIStream
                  initial) as Hf.
    destruct (process_chunks messageId claudeModel initial openAIStream)
      as [st evs].
    simpl in E, Hf. rewrite Hfin in Hf. cbn [fst snd] in *.
    rewrite (finalize_returned st Hf Hsafe). cbn [fst].
    set (calls := map snd (toolCallsBuffer st)).
    match goal with
    | |- context [tool_blocks ?j calls] => set (j0 := j)
    end.
    match goal with
    | |- context [(map ContentBlockStop ?a ++ ?ex ++ tool_blocks j0 calls ++ ?tl)%list] =>
        set (stops := map ContentBlockStop a); set (explain := ex);
        set (tail := tl)
    end.
    assert (Hpre : forall i ctx,
               input_json_at i (evs ++ stops ++ explain)%list = ""
               /\ omap (tool_use_of ctx) (evs ++ stops ++ explain)%list = []).
    { intros i ctx. rewrite !input_json_at_app, !omap_app.
      rewrite (loop_events_no_json i evs E).
      destruct (loop_events_open ctx evs E) as (_ & _ & _ & Hopen).
      destruct (stops_no_json i ctx (activeContentBlocks st)) as [Hs1 Hs2].
      fold stops in Hs1, Hs2. rewrite Hopen, Hs1, Hs2.
      subst explain.
      match goal with |- context [if ?b then _ else _] => destruct b end.
      - match goal with
        | |- context [explanatory_block ?k calls] =>
            destruct (explanatory_block_no_json i ctx k calls) as [He1 He2]
        end.
        rewrite He1, He2. auto.
      - auto. }
    replace (evs ++ stops ++ explain ++ tool_blocks j0 calls ++ tail)%list
      with ((evs ++ stops ++ explain) ++ tool_blocks j0 calls ++ tail)%list
      by (now rewrite <- !app_assoc).
    unfold tool_uses.
    rewrite omap_app, (proj2 (Hpre 0%nat _)), omap_app. cbn [app].
    rewrite tool_blocks_uses.
    - subst tail. simpl. now rewrite app_nil_r.
    - intros i _. apply Hpre. exact [].
    - intros i. reflexivity. }
  split; [exact Hmain|]. split; [apply final_buffer_keys|].
  rewrite Hmain, <- final_buffer_keys.
  apply named_calls_by_key; [apply final_buffer_accumulates|].
  rewrite final_buffer_keys. apply first_arrivals_NoDup.
Qed.

(** On a finished stream whose first named tool call makes the
    explanatory block throw, the generator ends by the exception right
    after the start of that block: the events are those of the loop, the
    stop of text block 0 when text had arrived, and that start; there is
    no tool_use block, no message_delta and no message_stop. *)
Theorem thrown_stream_events (openAIStream : list Chunk) (claudeModel : string) :
  existsb finish_of openAIStream = true ->
  explanation_throws openAIStream = true ->
  let evs := convertOpenAIStreamToClaude openAIStream claudeModel in
  snd (run openAIStream claudeModel) = Thrown
  /\ (exists before i,
        evs = (before ++ [ContentBlockStart i (CBText "")])%list)
  /\ tool_uses evs = []
  /\ List.filter is_message_delta evs = []
  /\ List.filter is_message_stop evs = [].
Proof.
  intros Hfin Hthrow. cbv zeta.
  split; [apply run_thrown_iff; auto|].
  rewrite (explanation_throws_state openAIStream claudeModel) in Hthrow.
  unfold convertOpenAIStreamToClaude. rewrite run_events. cbn [fst].
  destruct (process_chunks_events messageId claudeModel openAIStream initial
              (or_introl eq_refl)) as (E & _ & _).
  pose proof (process_chunks_finished messageId claudeModel openAIStream initial)
    as Hf.
  destruct (process_chunks messageId claudeModel initial openAIStream)
    as [st evs].
  simpl in E, Hf. rewrite Hfin in Hf. cbn [fst snd] in *.
  rewrite (finalize_thrown st Hf Hthrow). cbn [fst].
  split; [eexists _, _; now rewrite app_assoc|].
  unfold tool_uses. rewrite !List.filter_app, !omap_app.
  match goal with
  | |- context [omap (tool_use_of ?ctx) evs] =>
      destruct (loop_events_open ctx evs E) as (_ & D & S & U);
      destruct (stops_no_json 0 ctx (activeContentBlocks st)) as [_ U2]
  end.
  rewrite D, S, U, U2. simpl.
  assert (Hstops : forall (p : StreamEvent -> bool) (l : list nat),
             (forall i, p (ContentBlockStop i) = false) ->
             List.filter p (map ContentBlockStop l) = []).
  { intros p l Hp. induction l as [|i l IH]; [reflexivity|].
    simpl. now rewrite Hp. }
  rewrite !Hstops by reflexivity. auto.
Qed.

End StreamContent.

Lemma stream_text_deltas_witness :
  omap ResponseConverter.text_of Examples.text_stream <> []
  /\ omap (ResponseConverter.text_delta_at 0)
       (@ResponseConverter.convertOpenAIStreamToClaude JsonText.runtime
          Examples.text_stream "claude")
     = ["Hel"; "lo"].
Proof.
  split; [discriminate|].
  apply (@stream_text_deltas JsonText.runtime Examples.text_stream "claude").
  discriminate.
Defined.

Lemma unfinished_stream_events_witness :
  existsb ResponseConverter.finish_of Examples.unfinished_tool_stream = false
  /\ ResponseConverter.buf_lookup 0
       (@ResponseConverter.final_buffer JsonText.runtime
          Examples.unfinished_tool_stream)
     = Some {| ResponseConverter.b_id := "call_r2";
               ResponseConverter.b_name := "get_weather";
               ResponseConverter.b_arguments := "{}" |}
  /\ ResponseConverter.tool_uses
       (@ResponseConverter.convertOpenAIStreamToClaude JsonText.runtime
          Examples.unfinished_tool_stream "claude") = [].
Proof.
  split; [reflexivity|]. split; [reflexivity|].
  apply (@unfinished_stream_events JsonText.runtime
           Examples.unfinished_tool_stream "claude"). reflexivity.
Defined.

Lemma stream_usage_last_reported_witness :
  existsb ResponseConverter.finish_of Examples.usage_stream = true
  /\ List.filter ResponseConverter.is_message_delta
       (@ResponseConverter.convertOpenAIStreamToClaude JsonText.runtime
          Examples.usage_stream "claude")
     = [ResponseConverter.MessageDelta "tool_use" 7 15].
Proof.
  split; [reflexivity|].
  apply (@stream_usage_last_reported JsonText.runtime Examples.usage_stream
           "claude"); reflexivity.
Defined.

Lemma stream_tool_uses_witness :
  existsb ResponseConverter.finish_of Examples.renamed_stream = true
  /\ @ResponseConverter.explanation_throws JsonText.runtime
       Examples.renamed_stream = false
  /\ ResponseConverter.tool_uses
       (@ResponseConverter.convertOpenAIStreamToClaude JsonText.runtime
          Examples.renamed_stream "claude")
     = [("Write", "{}")]
  /\ ResponseConverter.first_arrivals
       (ResponseConverter.fragments Examples.renamed_stream) = [0%nat].
Proof.
  split; [reflexivity|]. split; [reflexivity|].
  destruct (@stream_tool_uses JsonText.runtime Examples.renamed_stream "claude"
              eq_refl eq_refl) as (H1 & H2 & H3).
  split; [exact H1|]. rewrite <- H2. reflexivity.
Defined.

Lemma thrown_stream_events_witness :
  existsb ResponseConverter.finish_of Examples.constructor_stream = true
  /\ @ResponseConverter.explanation_throws JsonText.runtime
       Examples.constructor_stream = true
  /\ snd (@ResponseConverter.run JsonText.runtime Examples.constructor_stream
            "claude") = ResponseConverter.Thrown
  /\ ResponseConverter.tool_uses
       (@ResponseConverter.convertOpenAIStreamToClaude JsonText.runtime
          Examples.constructor_stream "claude") = [].
Proof.
  split; [reflexivity|]. split; [reflexivity|].
  destruct (@thrown_stream_events JsonText.runtime Examples.constructor_stream
              "claude" eq_refl eq_refl) as (H1 & _ & H3 & _).
  split; [exact H1|exact H3].
Defined.

(** ** In-memory store: sweep, remaining time, refresh *)

Section MemoryStoreMore.
Import MemoryStore.
Context {V : Type}.

(** X5. A sweep at time [now] removes exactly the entries whose expiry
    lies before [now]; afterwards the interval is armed only if it was
    armed and an entry is left. *)
Theorem cleanupExpired_exact (s : t V) (now : Z) :
  (forall key,
     cache (cleanupExpired now s) !! key
     = match cache s !! key with
       | Some item => if expireTime item <? now then None else Some item
       | None => None
       end)
  /\ (cleanupTimer (cleanupExpired now s) = true <->
      cleanupTimer s = true
      /\ exists key item, cache s !! key = Some item /\ now <= expireTime item).
Proof.
  assert (Hlook : forall key,
             cache (cleanupExpired now s) !! key
             = match cache s !! key with
               | Some item => if expireTime item <? now then None else Some item
               | None => None
               end).
  { intros key. unfold cleanupExpired. simpl.
    destruct (cache s !! key) as [item|] eqn:E.
    - destruct (expireTime item <? now) eqn:Hexp.
      + apply Z.ltb_lt in Hexp. apply map_lookup_filter_None. right.
        intros x Hx. rewrite E in Hx. injection Hx as <-. simpl. lia.
      + apply Z.ltb_ge in Hexp. apply map_lookup_filter_Some.
        split; [exact E|]. simpl. lia.
    - apply map_lookup_filter_None. left. exact E. }
  split; [exact Hlook|].
  unfold cleanupExpired in *. simpl in *.
  set (kept := filter (fun kv => ~ expireTime (snd kv) < now) (cache s)) in *.
  destruct (bool_decide (base.size kept = 0%nat)) eqn:Hsz.
  - apply bool_decide_eq_true in Hsz. apply map_size_empty_iff in Hsz.
    split; [discriminate|]. intros (_ & key & item & Hk & Hle).
    specialize (Hlook key). rewrite Hsz, lookup_empty, Hk in Hlook.
    destruct (expireTime item <? now) eqn:Hexp; [|discriminate].
    apply Z.ltb_lt in Hexp. lia.
  - apply bool_decide_eq_false in Hsz.
    split.
    + intros Ht. split; [exact Ht|].
      destruct (map_choose kept) as (key & item & Hk).
      { intros Hempty. apply Hsz. rewrite Hempty. apply map_size_empty. }
      exists key, item. rewrite Hlook in Hk.
      destruct (cache s !! key) as [item'|]; [|discriminate].
      destruct (expireTime item' <? now) eqn:Hexp; [discriminate|].
      injection Hk as ->. apply Z.ltb_ge in Hexp. auto.
    + intros [Ht _]. exact Ht.
Qed.

(** X6. After [set(k, v, t)] the remaining time [ttl(k)] at elapsed time
    [e] is [t - e] while [e < t] and -1 from [e = t] on; at the instant
    [e = t] itself [get(k)] still returns [v]. *)
Theorem ttl_after_set (s : t V) (now : Z) (key : string) (v : V) (t0 : Z) :
  let s1 := set now key v (Some t0) s in
  (forall e, ttl (now + e) key s1 = if e <? t0 then t0 - e else -1)
  /\ ttl (now + t0) key s1 = -1
  /\ fst (get (now + t0) key s1) = Some v.
Proof.
  cbv zeta.
  assert (Hset : cache (set now key v (Some t0) s) !! key
                 = Some {| value := v; expireTime := now + t0 |}).
  { unfold set. simpl. apply lookup_insert_eq. }
  assert (Httl : forall e, ttl (now + e) key (set now key v (Some t0) s)
                           = if e <? t0 then t0 - e else -1).
  { intros e. unfold ttl. rewrite Hset. simpl.
    destruct (e <? t0) eqn:E1; destruct (0 <? now + t0 - (now + e)) eqn:E2;
      try reflexivity;
      repeat match goal with
             | H : (_ <? _) = true |- _ => apply Z.ltb_lt in H
             | H : (_ <? _) = false |- _ => apply Z.ltb_ge in H
             end; lia. }
  split; [exact Httl|]. split.
  - rewrite Httl, Z.ltb_irrefl. reflexivity.
  - rewrite (get_live _ _ _ _ Hset); [reflexivity|simpl; lia].
Qed.

(** X7. [refresh(k)] on an entry that has not expired answers true and
    moves its expiry to one hour after the call, whatever time to live it
    was written with, keeping its value; on an expired entry it answers
    false and leaves the store as it is, the expired entry included. *)
Theorem refresh_after_set (s : t V) (now : Z) (key : string) (v : V) (t0 : Z) :
  let s1 := set now key v (Some t0) s in
  (forall e, e <= t0 ->
     fst (refresh (now + e) key s1) = true
     /\ cache (snd (refresh (now + e) key s1)) !! key
        = Some {| value := v; expireTime := now + e + 3600000 |})
  /\ (forall e, t0 < e ->
       refresh (now + e) key s1 = (false, s1)
       /\ cache s1 !! key = Some {| value := v; expireTime := now + t0 |}).
Proof.
  cbv zeta.
  assert (Hset : cache (set now key v (Some t0) s) !! key
                 = Some {| value := v; expireTime := now + t0 |}).
  { unfold set. simpl. apply lookup_insert_eq. }
  split; intros e He; unfold refresh; rewrite Hset; simpl.
  - destruct (now + t0 <? now + e) eqn:E; [apply Z.ltb_lt in E; lia|].
    simpl. split; [reflexivity|]. rewrite lookup_insert_eq.
    unfold DEFAULT_TTL. f_equal.
  - destruct (now + t0 <? now + e) eqn:E; [|apply Z.ltb_ge in E; lia].
    auto.
Qed.

(** X8. Writing a key leaves what [get] returns for every other key as it
    was, a second write of the same key replaces the first one (value and
    expiry), and a write arms the sweep interval again. *)
Theorem set_overwrites_and_isolates (s : t V) (now now' : Z)
    (key : string) (v v' : V) (t0 t1 : option Z) :
  (forall other at_, other <> key ->
     fst (get at_ other (set now key v t0 s)) = fst (get at_ other s))
  /\ cache (set now' key v' t1 (set now key v t0 s))
     = cache (set now' key v' t1 s)
  /\ cleanupTimer (set now key v t0 (clear s)) = true.
Proof.
  split; [|split].
  - intros other at_ Hne. unfold get, set. simpl.
    rewrite lookup_insert_ne by congruence.
    destruct (cache s !! other) as [item|]; [|reflexivity].
    now destruct (expireTime item <? at_).
  - unfold set. simpl. apply insert_insert_eq.
  - reflexivity.
Qed.

(** X9. An expired entry stays in the store, and in [size()], until a
    read evicts it: writing a new key adds one to the size, and the first
    [get] after its expiry takes that one away again. *)
Theorem expired_entry_counts_until_read (s : t V) (now : Z) (key : string)
    (v : V) (t0 e : Z) :
  cache s !! key = None ->
  t0 < e ->
  let s1 := set now key v (Some t0) s in
  size s1 = S (size s)
  /\ size (snd (get (now + e) key s1)) = size s
  /\ size (snd (get (now + e) key (snd (get (now + e) key s1)))) = size s.
Proof.
  intros Hfresh Hlt. cbv zeta.
  assert (Hset : cache (set now key v (Some t0) s) !! key
                 = Some {| value := v; expireTime := now + t0 |}).
  { unfold set. simpl. apply lookup_insert_eq. }
  rewrite (get_expired _ _ _ _ Hset) by (simpl; lia).
  unfold size, set. cbn [cache snd].
  rewrite delete_insert_eq, (delete_id _ _ Hfresh).
  split; [now apply map_size_insert_None|]. split; [reflexivity|].
  unfold get. cbn [cache]. now rewrite Hfresh.
Qed.

End MemoryStoreMore.

Lemma expired_entry_counts_until_read_witness :
  (∅ : gmap string (MemoryStore.CacheItem nat)) !! "k" = None
  /\ 1000 < 1500
  /\ MemoryStore.size
       (MemoryStore.set 0 "k" 7%nat (Some 1000) (@MemoryStore.create nat))
     = 1%nat
  /\ MemoryStore.size
       (snd (MemoryStore.get (0 + 1500) "k"
               (MemoryStore.set 0 "k" 7%nat (Some 1000) (@MemoryStore.create nat))))
     = 0%nat.
Proof.
  assert (Hfresh : MemoryStore.cache (@MemoryStore.create nat) !! "k" = None)
    by apply lookup_empty.
  destruct (@expired_entry_counts_until_read nat MemoryStore.create 0 "k" 7%nat
              1000 1500 Hfresh ltac:(lia)) as (H1 & H2 & _).
  split; [apply lookup_empty|]. split; [lia|]. split.
  - rewrite H1. reflexivity.
  - rewrite H2. reflexivity.
Defined.

(** ** Batch engine: records, counts and the end of a job *)

Section BatchMore.
Import Batches.
Variable getModelConfig : string -> option RequestConverter.ModelConfig.

Lemma kind_count_snoc p rs e :
  kind_count p (rs ++ [e]) = kind_count p rs + (if p (r_result e) then 1 else 0).
Proof.
  unfold kind_count. rewrite List.filter_app, length_app. simpl.
  destruct (p (r_result e)); simpl; lia.
Qed.


(** The loop, started on a job whose records and counts are in step with
    the requests still to do, leaves a consistent job. *)
Lemma run_loop_consistent (now : Z) (todo : list BatchRequest) :
  forall (b : BatchJob) (rs : list ResultEntry),
    results b = Some rs ->
    (map r_custom_id rs ++ map custom_id todo)%list = map custom_id (requests b) ->
    processing (request_counts b) = Z.of_nat (length todo) ->
    succeeded (request_counts b) = kind_count is_succeeded rs ->
    errored (request_counts b) = kind_count is_errored rs ->
    canceled (request_counts b) = kind_count is_canceled rs ->
    processing_status b <> ended ->
    consistent (run_loop getModelConfig now b todo).
Proof.
  induction todo as [|request rest IH]; intros b rs Hr Hids Hp Hs He Hc Hst.
  - exists rs. simpl in *. repeat split; auto.
  - cbn [run_loop].
    assert (Hids' : forall e, r_custom_id e = custom_id request ->
               (map r_custom_id (rs ++ [e]) ++ map custom_id rest)%list
               = map custom_id (requests b)).
    { intros e Hid. rewrite map_app, <- app_assoc. simpl. now rewrite Hid. }
    destruct (cancel_initiated_at b).
    + apply (IH _ (rs ++ [canceled_entry request])%list);
        unfold item_canceled, push_result; simpl; rewrite ?Hr;
        rewrite ?kind_count_snoc; simpl; auto; try lia.
      rewrite Hp. simpl length. lia.
    + destruct (getModelConfig _).
      * exists rs. simpl. repeat split; auto; try discriminate.
        intros Hend. contradiction.
      * match goal with
        | |- context [item_errored request ?m b] =>
            apply (IH _ (rs ++ [{| r_custom_id := custom_id request;
                                   r_result := result_errored "api_error" m |}])%list)
        end;
          unfold item_errored, push_result; simpl; rewrite ?Hr;
          rewrite ?kind_count_snoc; simpl; auto; try lia.
        rewrite Hp. simpl length. lia.
Qed.

Lemma created_consistent (now : Z) (batchId : string) (reqs : list BatchRequest) :
  consistent (processBatchAsync getModelConfig now (new_batch batchId now reqs)).
Proof.
  unfold processBatchAsync.
  apply (run_loop_consistent now _ _ []); simpl; auto; discriminate.
Qed.

Lemma resume_consistent (now : Z) (s : JobState) (outcome : Settled) :
  consistent s -> consistent (resume getModelConfig now s outcome).
Proof.
  intros Hc. unfold resume.
  destruct (awaiting s) as [[request rest]|] eqn:Ha; [|exact Hc].
  destruct Hc as (rs & Hr & Hids & Hp & Hs & He & Hca & Hend).
  unfold pending in Hids, Hp. rewrite Ha in Hids, Hp.
  assert (Hst : processing_status (job s) <> ended).
  { intros E. apply Hend in E. congruence. }
  assert (Hids' : forall e, r_custom_id e = custom_id request ->
             (map r_custom_id (rs ++ [e]) ++ map custom_id rest)%list
             = map custom_id (requests (job s))).
  { intros e Hid. rewrite map_app, <- app_assoc. simpl. now rewrite Hid. }
  destruct outcome as [response|message].
  - apply (run_loop_consistent now _ _
             (rs ++ [settled_entry request (Resolved response)])%list);
      unfold item_succeeded, push_result; simpl; rewrite ?Hr;
      rewrite ?kind_count_snoc; simpl; auto; try lia.
    rewrite Hp. simpl length. lia.
  - apply (run_loop_consistent now _ _
             (rs ++ [settled_entry request (Rejected message)])%list);
      unfold item_errored, push_result; simpl; rewrite ?Hr;
      rewrite ?kind_count_snoc; simpl; auto; try lia.
    rewrite Hp. simpl length. lia.
Qed.

Lemma reachable_consistent (σ : Store) :
  reachable getModelConfig σ ->
  forall batchId s, σ !! batchId = Some s -> consistent s.
Proof.
  induction 1 as [|σ σ' Hr IH Hstep]; intros batchId s Hs.
  - rewrite lookup_empty in Hs. discriminate.
  - destruct Hstep as [bid now reqs σ|bid now σ|bid now outcome s0 σ Hs0 Haw].
    + unfold create_handler in Hs. simpl in Hs.
      destruct (decide (bid = batchId)) as [->|Hne].
      * rewrite lookup_insert_eq in Hs. injection Hs as <-.
        apply created_consistent.
      * rewrite lookup_insert_ne in Hs by exact Hne. eauto.
    + unfold cancel_handler in Hs.
      destruct (σ !! bid) as [s0|] eqn:Hs0; [|simpl in Hs; eauto].
      destruct (processing_status (job s0)) eqn:Hst; simpl in Hs; eauto;
        (destruct (decide (bid = batchId)) as [->|Hne];
         [rewrite lookup_insert_eq in Hs; injection Hs as <-;
          destruct (IH _ _ Hs0) as (rs & Hr0 & Hids & Hp & Hsu & He & Hc & Hend);
          exists rs; simpl; unfold pending in *; simpl;
          repeat split; auto;
          [intros Hn; apply Hend in Hn; congruence|discriminate]
         |rewrite lookup_insert_ne in Hs by exact Hne; eauto]).
    + destruct (decide (bid = batchId)) as [->|Hne].
      * rewrite lookup_insert_eq in Hs. injection Hs as <-.
        apply resume_consistent. eauto.
      * rewrite lookup_insert_ne in Hs by exact Hne. eauto.
Qed.


(** The loop never leaves more requests pending than it was given. *)
Lemma run_loop_pending (now : Z) (todo : list BatchRequest) :
  forall b : BatchJob,
    (length (pending (run_loop getModelConfig now b todo)) <= length todo)%nat.
Proof.
  induction todo as [|request rest IH]; intros b.
  - simpl. lia.
  - cbn [run_loop]. destruct (cancel_initiated_at b).
    + specialize (IH (item_canceled request b)). simpl length. lia.
    + destruct (getModelConfig _).
      * unfold pending. simpl. lia.
      * match goal with
        | |- context [run_loop _ _ ?b' rest] => specialize (IH b')
        end. simpl length. lia.
Qed.




(** X13. An ended job is final for the worker and for cancellation: a
    cancel request for it is refused with status 400 and changes nothing in
    the store, and no resumption of any worker changes it. *)
Theorem ended_job_is_final (σ : Store) (batchId : string) (s : JobState) :
  reachable getModelConfig σ ->
  σ !! batchId = Some s ->
  processing_status (job s) = ended ->
  (forall now,
     cancel_handler batchId now σ
     = (Error 400 "invalid_request_error"
          "Cannot cancel a batch that has already ended", σ))
  /\ (forall other now outcome s0,
        σ !! other = Some s0 ->
        is_Some (awaiting s0) ->
        (<[other := resume getModelConfig now s0 outcome]> σ) !! batchId = Some s).
Proof.
  intros Hr Hs Hend. split.
  - intros now. unfold cancel_handler. rewrite Hs, Hend. reflexivity.
  - intros other now outcome s0 Hs0 [p Hp].
    destruct (decide (other = batchId)) as [->|Hne].
    + rewrite Hs in Hs0. injection Hs0 as <-.
      destruct (reachable_consistent σ Hr batchId s Hs)
        as (rs & _ & _ & _ & _ & _ & _ & Hiff).
      apply Hiff in Hend. congruence.
    + rewrite lookup_insert_ne by exact Hne. exact Hs.
Qed.

(** X14. Every resumption of a suspended worker records at least one more
    request: the requests not yet recorded become strictly fewer, so a job
    of n requests ends after at most n resumptions. *)
Theorem resume_makes_progress (now : Z) (s : JobState) (outcome : Settled) :
  is_Some (awaiting s) ->
  (length (pending (resume getModelConfig now s outcome)) < length (pending s))%nat.
Proof.
  intros [[request rest] Ha]. unfold resume. unfold pending at 2. rewrite Ha.
  simpl length.
  destruct outcome as [response|message].
  - pose proof (run_loop_pending now rest
                  (item_succeeded request response (job s))). lia.
  - pose proof (run_loop_pending now rest
                  (item_errored request message (job s))). lia.
Qed.

End BatchMore.

Lemma ended_store_reachable :
  Batches.reachable Examples.known_models Examples.ended_store.
Proof.
  unfold Examples.ended_store, Examples.five_ended.
  eapply Batches.reachable_step; [exact five_store_reachable|].
  apply (Batches.step_resume Examples.known_models "batch_1" 30
           (Batches.Resolved JNull) Examples.five_canceling).
  - apply lookup_insert_eq.
  - vm_compute. eauto.
Qed.



Lemma one_store_reachable :
  Batches.reachable Examples.known_models Examples.one_store.
Proof.
  unfold Examples.one_store.
  eapply Batches.reachable_step; [apply Batches.reachable_start|].
  apply Batches.step_create.
Qed.


Lemma ended_job_is_final_witness :
  Batches.reachable Examples.known_models Examples.ended_store
  /\ Examples.ended_store !! "batch_1" = Some Examples.five_ended
  /\ Batches.processing_status (Batches.job Examples.five_ended) = Batches.ended
  /\ (forall now,
        Batches.cancel_handler "batch_1" now Examples.ended_store
        = (Batches.Error 400 "invalid_request_error"
             "Cannot cancel a batch that has already ended", Examples.ended_store))
  /\ (forall other now outcome s0,
        Examples.ended_store !! other = Some s0 ->
        is_Some (Batches.awaiting s0) ->
        (<[other := Batches.resume Examples.known_models now s0 outcome]>
           Examples.ended_store) !! "batch_1" = Some Examples.five_ended).
Proof.
  split; [exact ended_store_reachable|].
  split; [apply lookup_insert_eq|].
  split; [reflexivity|].
  apply (ended_job_is_final Examples.known_models Examples.ended_store "batch_1").
  - exact ended_store_reachable.
  - apply lookup_insert_eq.
  - reflexivity.
Defined.

Lemma resume_makes_progress_witness :
  is_Some (Batches.awaiting Examples.five_created)
  /\ (length (Batches.pending
                (Batches.resume Examples.known_models 10 Examples.five_created
                   (Batches.Resolved JNull)))
      < length (Batches.pending Examples.five_created))%nat.
Proof.
  split; [vm_compute; eauto|].
  apply (resume_makes_progress Examples.known_models 10 Examples.five_created).
  vm_compute. eauto.
Defined.

(** ** Model router: where a request can be sent *)

Section RouterMore.
Import RequestConverter Router.
Context `{Runtime} `{Tokenizer}.

Lemma truthy_opt_Some (o : option string) :
  Js.truthy_opt o = true ->
  default "" o <> "" /\ o = Some (default "" o).
Proof.
  destruct o as [[|c s]|]; simpl; try discriminate.
  intros _. split; [discriminate|reflexivity].
Qed.

(** X15. Whatever the request, the tokenizer and the policy, the router
    answers either the policy's default model or one of the four optional
    routes of the policy, and an optional route is only answered when it is
    set to a non-empty name. The router invents no model name and never
    answers the model the request asked for unless the policy names it. *)
Theorem routeModel_answers_configured_model (request : MessageCreateRequest)
    (defaultModelConfig : ModelConfig) (routerConfig : RouterConfig) :
  routeModel request defaultModelConfig routerConfig = default_model routerConfig
  \/ (routeModel request defaultModelConfig routerConfig <> ""
      /\ (webSearch routerConfig
            = Some (routeModel request defaultModelConfig routerConfig)
          \/ longContext routerConfig
            = Some (routeModel request defaultModelConfig routerConfig)
          \/ background routerConfig
            = Some (routeModel request defaultModelConfig routerConfig)
          \/ think routerConfig
            = Some (routeModel request defaultModelConfig routerConfig))).
Proof.
  unfold routeModel.
  destruct (calculateTokenCount _ _ _) as [tokenCount|]; [|now left].
  destruct (hasExactlyOneWebSearchTool request
            && hasWebSearchSystemIndicator request
            && Js.truthy_opt (webSearch routerConfig)) eqn:Hw.
  { apply andb_true_iff in Hw as [_ Hw].
    destruct (truthy_opt_Some _ Hw). right. auto. }
  cbv zeta.
  destruct ((Js.num_or_else (longContextThreshold routerConfig) 60000 <? tokenCount)
            && Js.truthy_opt (longContext routerConfig)) eqn:Hl.
  { apply andb_true_iff in Hl as [_ Hl].
    destruct (truthy_opt_Some _ Hl). right. auto. }
  destruct (Js.includes (model request) "haiku"
            && Js.truthy_opt (background routerConfig)) eqn:Hb.
  { apply andb_true_iff in Hb as [_ Hb].
    destruct (truthy_opt_Some _ Hb). right. auto. }
  destruct (thinking request && Js.truthy_opt (think routerConfig)) eqn:Ht.
  { apply andb_true_iff in Ht as [_ Ht].
    destruct (truthy_opt_Some _ Ht). right. auto 6. }
  now left.
Qed.

(** X16. The long-context threshold falls back to 60000 both when the
    policy leaves it out and when the policy sets it to 0: with either
    policy every request is routed exactly as with a threshold of 60000, so
    a threshold of 0 does not send every request to the long-context
    model. *)
Theorem unset_or_zero_threshold_is_60000 (request : MessageCreateRequest)
    (defaultModelConfig : ModelConfig)
    (d : string) (lc ws bg th : option string) :
  let policy t :=
    {| default_model := d; longContext := lc; longContextThreshold := t;
       webSearch := ws; background := bg; think := th |} in
  routeModel request defaultModelConfig (policy None)
  = routeModel request defaultModelConfig (policy (Some 60000))
  /\ routeModel request defaultModelConfig (policy (Some 0))
     = routeModel request defaultModelConfig (policy (Some 60000)).
Proof.
  cbv zeta. unfold routeModel. simpl. split; reflexivity.
Qed.

End RouterMore.

(** ** The model table *)

Section ModelTable.
Import RequestConverter Router ModelManager.

Ltac nodup_inv H Hk :=
  apply NoDup_cons in H as [Hk H]; rewrite list_elem_of_In in Hk.

Ltac nodup_cons :=
  apply NoDup_cons; split; [rewrite list_elem_of_In|].

Lemma map_get_set (key name : string) (value : ModelConfig) (m : ModelMap) :
  map_get name (map_set key value m)
  = if String.eqb key name then Some value else map_get name m.
Proof.
  induction m as [|[k v] rest IH]; simpl.
  - destruct (String.eqb key name); reflexivity.
  - destruct (String.eqb k key) eqn:Hk.
    + apply String.eqb_eq in Hk. subst k. simpl.
      destruct (String.eqb key name); reflexivity.
    + simpl. destruct (String.eqb k name) eqn:Hn; [|exact IH].
      apply String.eqb_eq in Hn. subst k.
      destruct (String.eqb key name) eqn:Hkn; [|reflexivity].
      apply String.eqb_eq in Hkn. subst key.
      rewrite String.eqb_refl in Hk. discriminate.
Qed.

Lemma map_set_keys (key x : string) (value : ModelConfig) (m : ModelMap) :
  In x (map fst (map_set key value m)) <-> x = key \/ In x (map fst m).
Proof.
  induction m as [|[k v] rest IH]; simpl.
  - intuition.
  - destruct (String.eqb k key) eqn:Hk; simpl.
    + apply String.eqb_eq in Hk. subst k. intuition.
    + rewrite IH. intuition.
Qed.

Lemma map_set_NoDup (key : string) (value : ModelConfig) (m : ModelMap) :
  NoDup (map fst m) -> NoDup (map fst (map_set key value m)).
Proof.
  induction m as [|[k v] rest IH]; simpl; intros Hn.
  - nodup_cons; [intros []|apply NoDup_nil_2].
  - nodup_inv Hn Hk.
    destruct (String.eqb k key) eqn:Hkk; simpl.
    + apply String.eqb_eq in Hkk. subst k. nodup_cons; assumption.
    + nodup_cons; [|auto].
      rewrite map_set_keys. intros [->|Hin]; [|contradiction].
      rewrite String.eqb_refl in Hkk. discriminate.
Qed.

Lemma map_set_keyed (value : ModelConfig) (m : ModelMap) :
  Forall keyed m -> Forall keyed (map_set (claudeModelName value) value m).
Proof.
  induction m as [|[k v] rest IH]; simpl; intros Hf.
  - constructor; [reflexivity|constructor].
  - apply Forall_cons_iff in Hf as [Hk Hf].
    destruct (String.eqb k (claudeModelName value)); constructor; auto.
    reflexivity.
Qed.

Lemma map_delete_keys (key x : string) (m : ModelMap) :
  In x (map fst (snd (map_delete key m))) -> In x (map fst m).
Proof.
  induction m as [|[k v] rest IH]; simpl; [auto|].
  destruct (String.eqb k key); simpl; [auto|].
  destruct (map_delete key rest) as [found rest'] eqn:Hd. simpl in *.
  intros [->|Hin]; auto.
Qed.

Lemma map_delete_NoDup (key : string) (m : ModelMap) :
  NoDup (map fst m) -> NoDup (map fst (snd (map_delete key m))).
Proof.
  induction m as [|[k v] rest IH]; simpl; intros Hn; [apply NoDup_nil_2|].
  nodup_inv Hn Hk.
  destruct (String.eqb k key); simpl; [assumption|].
  pose proof (map_delete_keys key k rest) as Hsub.
  destruct (map_delete key rest) as [found rest'] eqn:Hd. simpl in *.
  nodup_cons; auto.
Qed.

Lemma map_delete_keyed (key : string) (m : ModelMap) :
  Forall keyed m -> Forall keyed (snd (map_delete key m)).
Proof.
  induction m as [|[k v] rest IH]; simpl; intros Hf; [constructor|].
  apply Forall_cons_iff in Hf as [Hk Hf].
  destruct (String.eqb k key); simpl; [assumption|].
  destruct (map_delete key rest) as [found rest'] eqn:Hd. simpl in *.
  constructor; auto.
Qed.

Lemma map_get_absent (name : string) (m : ModelMap) :
  ~ In name (map fst m) -> map_get name m = None.
Proof.
  induction m as [|[k v] rest IH]; simpl; intros Hn; [reflexivity|].
  destruct (String.eqb k name) eqn:Hk.
  - apply String.eqb_eq in Hk. tauto.
  - apply IH. tauto.
Qed.

Lemma map_get_delete (key name : string) (m : ModelMap) :
  NoDup (map fst m) ->
  map_get name (snd (map_delete key m))
  = if String.eqb key name then None else map_get name m.
Proof.
  induction m as [|[k v] rest IH]; simpl; intros Hn.
  - destruct (String.eqb key name); reflexivity.
  - nodup_inv Hn Hk.
    destruct (String.eqb k key) eqn:Hkk; simpl.
    + apply String.eqb_eq in Hkk. subst k.
      destruct (String.eqb key name) eqn:Hkn; [|reflexivity].
      apply String.eqb_eq in Hkn. subst name.
      now apply map_get_absent.
    + specialize (IH Hn).
      destruct (map_delete key rest) as [found rest'] eqn:Hd. simpl in *.
      destruct (String.eqb k name) eqn:Hkn; [|exact IH].
      apply String.eqb_eq in Hkn. subst k.
      destruct (String.eqb key name) eqn:E; [|reflexivity].
      apply String.eqb_eq in E. subst key.
      rewrite String.eqb_refl in Hkk. discriminate.
Qed.

Lemma map_delete_found (key : string) (m : ModelMap) :
  fst (map_delete key m)
  = match map_get key m with Some _ => true | None => false end.
Proof.
  induction m as [|[k v] rest IH]; simpl; [reflexivity|].
  destruct (String.eqb k key); simpl; [reflexivity|].
  destruct (map_delete key rest) as [found rest'] eqn:Hd. simpl in *.
  exact IH.
Qed.

Lemma map_get_In (name : string) (c : ModelConfig) (m : ModelMap) :
  map_get name m = Some c -> In (name, c) m.
Proof.
  induction m as [|[k v] rest IH]; simpl; [discriminate|].
  destruct (String.eqb k name) eqn:Hk; [|auto].
  apply String.eqb_eq in Hk. subst k. intros [= ->]. now left.
Qed.

Lemma In_map_get (name : string) (c : ModelConfig) (m : ModelMap) :
  NoDup (map fst m) -> In (name, c) m -> map_get name m = Some c.
Proof.
  induction m as [|[k v] rest IH]; simpl; intros Hn; [intros []|].
  nodup_inv Hn Hk.
  intros [[= -> ->]|Hin].
  - now rewrite String.eqb_refl.
  - destruct (String.eqb k name) eqn:E; [|auto].
    apply String.eqb_eq in E. subst k.
    exfalso. apply Hk. apply in_map_iff. exists (name, c). auto.
Qed.

Lemma keyed_names (m : ModelMap) :
  Forall keyed m -> map claudeModelName (map snd m) = map fst m.
Proof.
  induction 1 as [|[k v] rest Hk _ IH]; simpl; [reflexivity|].
  unfold keyed in Hk. simpl in Hk. now rewrite Hk, IH.
Qed.

Lemma fold_set_inv (l : list ModelConfig) :
  forall acc : ModelMap,
    NoDup (map fst acc) -> Forall keyed acc ->
    NoDup (map fst (fold_left
                      (fun m model => map_set (claudeModelName model) model m)
                      l acc))
    /\ Forall keyed (fold_left
                       (fun m model => map_set (claudeModelName model) model m)
                       l acc).
Proof.
  induction l as [|c l IH]; simpl; intros acc Hn Hk; [auto|].
  apply IH; [now apply map_set_NoDup|now apply map_set_keyed].
Qed.

(** Every manager keeps distinct keys, files each configuration under its
    own name, and has a routing policy. *)
Lemma built_inv (mm : ModelManager.t) :
  built mm ->
  NoDup (map fst (models mm)) /\ Forall keyed (models mm)
  /\ is_Some (routerConfig mm).
Proof.
  induction 1 as [file|config mm Hb (Hn & Hk & Hr)|name mm Hb (Hn & Hk & Hr)].
  - unfold create, load. simpl.
    destruct (fold_set_inv
                (cf_models (default {| cf_models := DEFAULT_MODELS;
                                       cf_defaultModel := None;
                                       cf_router := None |} file)) [])
      as [H1 H2]; [apply NoDup_nil_2|constructor|].
    repeat split; eauto.
  - simpl. repeat split; [now apply map_set_NoDup|now apply map_set_keyed|auto].
  - unfold removeModel.
    pose proof (map_delete_NoDup name (models mm) Hn) as H1.
    pose proof (map_delete_keyed name (models mm) Hk) as H2.
    destruct (map_delete name (models mm)) as [found ms]. simpl in *. auto.
Qed.

(** X17. In every manager (built from any configuration, then changed by
    any additions and removals) the listing and the lookup agree: the
    listed configurations have pairwise distinct names, and looking a name
    up answers a configuration exactly when that configuration is listed
    and carries that name. *)
Theorem listing_and_lookup_agree (mm : ModelManager.t) :
  built mm ->
  NoDup (map claudeModelName (getAllModels mm))
  /\ forall name c,
       getModelConfig name mm = Some c
       <-> In c (getAllModels mm) /\ claudeModelName c = name.
Proof.
  intros Hb. destruct (built_inv mm Hb) as (Hn & Hk & _).
  unfold getAllModels, getModelConfig. split.
  - now rewrite keyed_names.
  - intros name c. split.
    + intros Hg. apply map_get_In in Hg. split.
      * apply in_map_iff. exists (name, c). auto.
      * rewrite List.Forall_forall in Hk. exact (Hk _ Hg).
    + intros [Hin Hname]. apply in_map_iff in Hin as [[k v] [Hv Hin]].
      simpl in Hv. subst v. apply In_map_get; [exact Hn|].
      rewrite List.Forall_forall in Hk. specialize (Hk _ Hin).
      unfold keyed in Hk. simpl in Hk. congruence.
Qed.

Lemma fold_set_get (name : string) (l : list ModelConfig) :
  forall acc : ModelMap,
    map_get name (fold_left
                    (fun m model => map_set (claudeModelName model) model m)
                    l acc)
    = match last (List.filter
                    (fun c => String.eqb (claudeModelName c) name) l) with
      | Some c => Some c
      | None => map_get name acc
      end.
Proof.
  induction l as [|c l IH]; intros acc; [reflexivity|].
  cbn [fold_left List.filter]. rewrite IH, map_get_set.
  destruct (String.eqb (claudeModelName c) name).
  - rewrite last_cons. destruct (last _); reflexivity.
  - reflexivity.
Qed.

(** X18. When the configuration lists several models under one name, the
    last of them is the one the table holds: looking a name up after
    loading answers the last listed configuration with that name, and
    nothing when none is listed. *)
Theorem load_last_listed_wins (config : ModelConfigFile) (name : string) :
  getModelConfig name (load config)
  = last (List.filter (fun c => String.eqb (claudeModelName c) name)
                      (cf_models config)).
Proof.
  unfold getModelConfig, load. cbn [models].
  rewrite fold_set_get. simpl.
  destruct (last _); reflexivity.
Qed.

(** X19. Additions and removals act on one name only. After addModel the
    added name answers the added configuration; after removeModel the
    removed name answers nothing, and the call reports whether the name
    was there; every other name answers as before in both cases. *)
Theorem add_remove_lookup (mm : ModelManager.t) :
  built mm ->
  (forall config name,
     getModelConfig name (addModel config mm)
     = if String.eqb (claudeModelName config) name then Some config
       else getModelConfig name mm)
  /\ (forall removed name,
        getModelConfig name (snd (removeModel removed mm))
        = if String.eqb removed name then None else getModelConfig name mm)
  /\ (forall removed,
        fst (removeModel removed mm)
        = match getModelConfig removed mm with
          | Some _ => true
          | None => false
          end).
Proof.
  intros Hb. destruct (built_inv mm Hb) as (Hn & _ & _).
  unfold getModelConfig, addModel, removeModel. repeat split.
  - intros config name. simpl. apply map_get_set.
  - intros removed name.
    pose proof (map_get_delete removed name (models mm) Hn) as Hd.
    destruct (map_delete removed (models mm)) as [found ms]. exact Hd.
  - intros removed.
    pose proof (map_delete_found removed (models mm)) as Hd.
    destruct (map_delete removed (models mm)) as [found ms]. exact Hd.
Qed.

End ModelTable.

(** ** The messages route up to the call of the adapter *)

Section MessagesRoute.
Import RequestConverter Router ModelManager Messages.
Context `{Runtime} `{Tokenizer}.

Lemma truthy_nonempty (s : string) : Js.truthy s = true <-> s <> "".
Proof. destruct s; simpl; split; congruence. Qed.

Lemma truthy_num_nonzero (z : Z) : Js.truthy_num z = true <-> z <> 0.
Proof.
  unfold Js.truthy_num. rewrite negb_true_iff. apply Z.eqb_neq.
Qed.

(** With the built-in policy the router answers the default model. *)
Lemma routeModel_built_in (request : MessageCreateRequest)
    (defaultModelConfig : ModelConfig) (d : option string) :
  routeModel request defaultModelConfig (built_in_router d)
  = Js.or_else d "claude-3-5-sonnet-20241022".
Proof.
  unfold routeModel.
  destruct (calculateTokenCount _ _ _); [|reflexivity].
  cbn [built_in_router webSearch longContext background think default_model
       Js.truthy_opt].
  rewrite !andb_false_r. reflexivity.
Qed.

(** X20. What the route hands to the adapter. In every manager, a
    forwarded request names a model of the table and comes with that
    model's configuration; its max_tokens is the least of the requested
    value and the model's limit; the incoming request had a non-empty model
    name, a non-empty message list and a max_tokens other than 0; nothing
    else of the request is changed; and the backend request built from it
    asks the configured backend model for the least of the requested
    max_tokens, the model's limit and 8192. *)
Theorem forwarded_request_shape (mm : ModelManager.t)
    (claudeRequest forwarded : MessageCreateRequest) (modelConfig : ModelConfig) :
  built mm ->
  post mm claudeRequest = Forward forwarded modelConfig ->
  getModelConfig (model forwarded) mm = Some modelConfig
  /\ claudeModelName modelConfig = model forwarded
  /\ max_tokens forwarded
     = Z.min (max_tokens claudeRequest) (maxTokens modelConfig)
  /\ model claudeRequest <> ""
  /\ messages claudeRequest <> []
  /\ max_tokens claudeRequest <> 0
  /\ messages forwarded = messages claudeRequest
  /\ system forwarded = system claudeRequest
  /\ tools forwarded = tools claudeRequest
  /\ stream forwarded = stream claudeRequest
  /\ thinking forwarded = thinking claudeRequest
  /\ temperature forwarded = temperature claudeRequest
  /\ top_p forwarded = top_p claudeRequest
  /\ stop_sequences forwarded = stop_sequences claudeRequest
  /\ rq_model (convertClaudeToOpenAI forwarded modelConfig)
     = openaiModelName modelConfig
  /\ rq_max_tokens (convertClaudeToOpenAI forwarded modelConfig)
     = Z.min (max_tokens claudeRequest) (Z.min (maxTokens modelConfig) 8192).
Proof.
  intros Hb Hpost. destruct (built_inv mm Hb) as (Hn & Hk & _).
  unfold post in Hpost.
  destruct (calculateTokenCount _ _ _) as [tokenCount|]; [|discriminate].
  destruct (Js.truthy (model claudeRequest)) eqn:Hm; [|discriminate].
  destruct (Js.truthy_num (max_tokens claudeRequest)) eqn:Hmax; [|discriminate].
  cbn [negb orb] in Hpost.
  destruct (messages claudeRequest) as [|m0 ms] eqn:Hmsgs; [discriminate|].
  cbn [length Nat.eqb] in Hpost. cbv zeta in Hpost.
  match type of Hpost with
  | context [getModelConfig ?f mm] => set (finalModel := f) in *
  end.
  destruct (getModelConfig finalModel mm) as [c|] eqn:Hc; [|discriminate].
  injection Hpost as Hf <-.
  apply truthy_nonempty in Hm. apply truthy_num_nonzero in Hmax.
  assert (Hname : claudeModelName c = finalModel).
  { apply map_get_In in Hc. rewrite List.Forall_forall in Hk. exact (Hk _ Hc). }
  assert (Hmodel : model forwarded = finalModel).
  { subst forwarded. destruct (_ <? _); reflexivity. }
  assert (Hmt : max_tokens forwarded = Z.min (max_tokens claudeRequest) (maxTokens c)).
  { subst forwarded. cbn [set_model max_tokens].
    destruct (maxTokens c <? max_tokens claudeRequest) eqn:E;
      cbn [set_max_tokens set_model max_tokens].
    - apply Z.ltb_lt in E. lia.
    - apply Z.ltb_ge in E. lia. }
  rewrite Hmodel.
  repeat match goal with |- _ /\ _ => split end;
    try (subst forwarded; destruct (_ <? _); simpl; congruence);
    try congruence.
  unfold convertClaudeToOpenAI, absoluteMaxTokens. cbn [rq_max_tokens].
  rewrite Hmt. lia.
Qed.

(** X21. When the configuration has no router section, the model named
    by a request has no influence on the answer of the route: two requests
    that differ only in their (non-empty) model name are answered alike,
    and are forwarded, if at all, as one and the same request. *)
Theorem no_router_section_ignores_requested_model (config : ModelConfigFile)
    (claudeRequest : MessageCreateRequest) (other : string) :
  cf_router config = None ->
  model claudeRequest <> "" ->
  other <> "" ->
  post (load config) (set_model other claudeRequest)
  = post (load config) claudeRequest.
Proof.
  intros Hr Hm Ho. unfold post.
  cbn [set_model model messages system tools max_tokens].
  destruct (calculateTokenCount _ _ _) as [tokenCount|]; [|reflexivity].
  apply truthy_nonempty in Hm, Ho. rewrite Hm, Ho.
  destruct (negb true || negb (Js.truthy_num (max_tokens claudeRequest)));
    [reflexivity|].
  destruct (length (messages claudeRequest) =? 0)%nat; [reflexivity|].
  unfold getRouterConfig, load. cbn [routerConfig]. rewrite Hr.
  rewrite !routeModel_built_in. reflexivity.
Qed.

(** X22. With the built-in table and policy (no configuration file) every
    request that passes validation is forwarded to the first model of the
    table, claude-3-5-sonnet-20241022 on gpt-4o, whatever model it names,
    be it another model of the table or a name the table does not have;
    its max_tokens is cut to 8192. *)
Theorem built_in_table_serves_first_model (claudeRequest : MessageCreateRequest)
    (tokenCount : Z) :
  calculateTokenCount (messages claudeRequest) (system claudeRequest)
                      (default [] (tools claudeRequest)) = Some tokenCount ->
  model claudeRequest <> "" ->
  messages claudeRequest <> [] ->
  max_tokens claudeRequest <> 0 ->
  exists forwarded modelConfig,
    post (create None) claudeRequest = Forward forwarded modelConfig
    /\ head DEFAULT_MODELS = Some modelConfig
    /\ model forwarded = "claude-3-5-sonnet-20241022"
    /\ openaiModelName modelConfig = "gpt-4o"
    /\ max_tokens forwarded = Z.min (max_tokens claudeRequest) 8192.
Proof.
  intros Hcalc Hm Hmsgs Hmax. unfold post. rewrite Hcalc.
  apply truthy_nonempty in Hm. apply truthy_num_nonzero in Hmax.
  rewrite Hm, Hmax. cbn [negb orb].
  destruct (messages claudeRequest) as [|m0 ms]; [contradiction|].
  cbn [length Nat.eqb]. cbv zeta.
  change (getRouterConfig (create None))
    with (Some (built_in_router (Some "claude-3-5-sonnet-20241022"))).
  cbv beta iota. rewrite routeModel_built_in.
  change (Js.or_else (Some "claude-3-5-sonnet-20241022")
            "claude-3-5-sonnet-20241022")
    with "claude-3-5-sonnet-20241022".
  change (getModelConfig "claude-3-5-sonnet-20241022" (create None))
    with (head DEFAULT_MODELS).
  cbn [head DEFAULT_MODELS].
  eexists _, _. split; [reflexivity|]. split; [reflexivity|].
  cbn [maxTokens set_model max_tokens].
  destruct (8192 <? max_tokens claudeRequest) eqn:E;
    cbn [set_max_tokens set_model model max_tokens openaiModelName];
    repeat split.
  - apply Z.ltb_lt in E. lia.
  - apply Z.ltb_ge in E. lia.
Qed.

End MessagesRoute.

Lemma listing_and_lookup_agree_witness :
  ModelManager.built (ModelManager.create None)
  /\ NoDup (map RequestConverter.claudeModelName
              (ModelManager.getAllModels (ModelManager.create None)))
  /\ forall name c,
       ModelManager.getModelConfig name (ModelManager.create None) = Some c
       <-> In c (ModelManager.getAllModels (ModelManager.create None))
           /\ RequestConverter.claudeModelName c = name.
Proof.
  split; [apply ModelManager.built_create|].
  apply (listing_and_lookup_agree (ModelManager.create None)).
  apply ModelManager.built_create.
Defined.

Lemma add_remove_lookup_witness :
  ModelManager.built (ModelManager.create None)
  /\ (forall config name,
        ModelManager.getModelConfig name
          (ModelManager.addModel config (ModelManager.create None))
        = if String.eqb (RequestConverter.claudeModelName config) name
          then Some config
          else ModelManager.getModelConfig name (ModelManager.create None))
  /\ (forall removed name,
        ModelManager.getModelConfig name
          (snd (ModelManager.removeModel removed (ModelManager.create None)))
        = if String.eqb removed name then None
          else ModelManager.getModelConfig name (ModelManager.create None))
  /\ (forall removed,
        fst (ModelManager.removeModel removed (ModelManager.create None))
        = match ModelManager.getModelConfig removed (ModelManager.create None) with
          | Some _ => true
          | None => false
          end).
Proof.
  split; [apply ModelManager.built_create|].
  apply (add_remove_lookup (ModelManager.create None)).
  apply ModelManager.built_create.
Defined.

Lemma forwarded_request_shape_witness :
  ModelManager.built (ModelManager.create None)
  /\ @Messages.post JsonText.runtime Examples.char_tokenizer
       (ModelManager.create None) Examples.haiku_request
     = Messages.Forward Examples.haiku_forwarded Examples.first_model
  /\ ModelManager.getModelConfig
       (RequestConverter.model Examples.haiku_forwarded)
       (ModelManager.create None) = Some Examples.first_model
  /\ RequestConverter.max_tokens Examples.haiku_forwarded = 8192
  /\ RequestConverter.rq_max_tokens
       (@RequestConverter.convertClaudeToOpenAI JsonText.runtime
          Examples.haiku_forwarded Examples.first_model) = 8192.
Proof.
  split; [apply ModelManager.built_create|].
  split; [reflexivity|].
  destruct (@forwarded_request_shape JsonText.runtime Examples.char_tokenizer
              (ModelManager.create None) Examples.haiku_request
              Examples.haiku_forwarded Examples.first_model
              (ModelManager.built_create None) eq_refl)
    as (H1 & _ & H3 & _ & _ & _ & _ & _ & _ & _ & _ & _ & _ & _ & _ & H16).
  split; [exact H1|]. split; [exact H3|exact H16].
Defined.

Lemma no_router_section_ignores_requested_model_witness :
  ModelManager.cf_router Examples.plain_config = None
  /\ RequestConverter.model Examples.haiku_request <> ""
  /\ "no-such-model" <> ""
  /\ @Messages.post JsonText.runtime Examples.char_tokenizer
       (ModelManager.load Examples.plain_config)
       (Messages.set_model "no-such-model" Examples.haiku_request)
     = @Messages.post JsonText.runtime Examples.char_tokenizer
         (ModelManager.load Examples.plain_config) Examples.haiku_request.
Proof.
  split; [reflexivity|]. split; [discriminate|]. split; [discriminate|].
  apply (@no_router_section_ignores_requested_model JsonText.runtime
           Examples.char_tokenizer Examples.plain_config Examples.haiku_request
           "no-such-model"); [reflexivity|discriminate|discriminate].
Defined.

Lemma built_in_table_serves_first_model_witness :
  @Router.calculateTokenCount JsonText.runtime Examples.char_tokenizer
    (RequestConverter.messages Examples.haiku_request)
    (RequestConverter.system Examples.haiku_request)
    (default [] (RequestConverter.tools Examples.haiku_request)) = Some 5
  /\ exists forwarded modelConfig,
       @Messages.post JsonText.runtime Examples.char_tokenizer
         (ModelManager.create None) Examples.haiku_request
       = Messages.Forward forwarded modelConfig
       /\ head ModelManager.DEFAULT_MODELS = Some modelConfig
       /\ RequestConverter.model forwarded = "claude-3-5-sonnet-20241022"
       /\ RequestConverter.openaiModelName modelConfig = "gpt-4o"
       /\ RequestConverter.max_tokens forwarded
          = Z.min (RequestConverter.max_tokens Examples.haiku_request) 8192.
Proof.
  split; [reflexivity|].
  apply (@built_in_table_serves_first_model JsonText.runtime
           Examples.char_tokenizer Examples.haiku_request 5);
    [reflexivity|discriminate|discriminate|discriminate].
Defined.
